(** * Resume-insight and assessment backend (src/server.py): a shallow embedding

    The development follows the layout of [src/server.py]:
    - [Text]: the operations of Python's [str] and [re] that the server calls;
    - [Num]: the arithmetic of the scores ([round], [len], [max]) and the
      rounding of floats;
    - [Json]: [safe_json_loads] and the two regular expressions it uses;
    - [Parser]: the heuristic resume parser ([parse_tech_stacks],
      [extract_years], [parse_education], [parse_work_experience]);
    - [Scoring]: [calculate_strength_score], [calculate_job_match],
      [grade_mcq_answers], [grade_coding_answers];
    - [Api]: the in-memory stores and the routes [get_job_recommendations],
      [start_test], [submit_test];
    - [Notions]: the vocabulary of the statements;
    - the properties, one module for each part of the server.

    Modelling conventions.
    - A Python [str] is a [string]; the characters modelled are those of
      ASCII (code points below 128).  Characters from 128 on are carried
      along unchanged: they have no case, are no white space and no digits.
    - A Python [float] is modelled by the rational number it denotes.  The
      strength score is a sum of multiples of 0.25, which floats compute
      exactly.  In the two graders and in the total score of a test every
      operation on floats is rounded to the nearest binary64 number
      ([Num.rnd]), as the interpreter does.  The match percentage is
      modelled by the exact quotient; what is stated of it (its range, when
      it is 0 or 100, its order, its value rounded to two decimals for the
      catalog) holds of the float as well.
    - A [dict] used as a map is a [gmap]; a [set] of strings is a
      [gset string]; [sorted] of a set of strings is the unique increasing
      enumeration of its elements.
    - Time ([datetime.utcnow]), fresh identifiers ([uuid.uuid4]) and random
      draws ([random.randint]) are explicit arguments; a route that reads
      the clock twice takes two readings.
    - The optional document-store mirror is left out: it is disabled unless
      configured, every call to it is wrapped in [try/except] and none of the
      routes modelled here reads from it. *)

From Stdlib Require Import QArith Qround Qminmax Qabs Qpower Lqa Ascii.
From stdpp Require Import gmap strings list sorting.

Local Open Scope Z_scope.

(* [set_solver] clears hypotheses that are gone already. *)
Set Warnings "-clear-no-such-hyp".

(* ================================================================== *)
(** * Python strings *)
(* ================================================================== *)

Module Text.

Definition code (c : ascii) : N := Ascii.N_of_ascii c.

Definition between (lo hi : N) (c : ascii) : bool :=
  ((lo <=? code c) && (code c <=? hi))%N.

(** [str.isspace] on ASCII: TAB, LF, VT, FF, CR, FS, GS, RS, US, SPACE. *)
Definition is_space (c : ascii) : bool :=
  between 9 13 c || between 28 32 c.

Definition is_upper (c : ascii) : bool := between 65 90 c.
Definition is_lower (c : ascii) : bool := between 97 122 c.
Definition is_digit (c : ascii) : bool := between 48 57 c.

(** The class [\w] of [re] on ASCII. *)
Definition is_word (c : ascii) : bool :=
  is_upper c || is_lower c || is_digit c || (code c =? 95)%N.

Definition lower_char (c : ascii) : ascii :=
  if is_upper c then Ascii.ascii_of_N (code c + 32) else c.
Definition upper_char (c : ascii) : ascii :=
  if is_lower c then Ascii.ascii_of_N (code c - 32) else c.

Fixpoint map_chars (f : ascii -> ascii) (s : string) : string :=
  match s with
  | EmptyString => EmptyString
  | String c s' => String (f c) (map_chars f s')
  end.

(** [s.lower()] and [s.upper()] on ASCII.  Beyond ASCII Python follows
    the case mappings of Unicode, which these functions do not: what is
    stated below of the case of a text either holds of any text whatever
    the mapping, or is stated of the texts of ASCII ([is_ascii]). *)
Definition lower : string -> string := map_chars lower_char.
Definition upper : string -> string := map_chars upper_char.

(** [s.isascii()]. *)
Fixpoint is_ascii (s : string) : bool :=
  match s with
  | EmptyString => true
  | String c s' => (code c <? 128)%N && is_ascii s'
  end.

Definition is_empty (s : string) : bool :=
  match s with EmptyString => true | _ => false end.

Fixpoint lstrip (s : string) : string :=
  match s with
  | EmptyString => EmptyString
  | String c s' => if is_space c then lstrip s' else s
  end.

Fixpoint rstrip (s : string) : string :=
  match s with
  | EmptyString => EmptyString
  | String c s' =>
      let r := rstrip s' in
      if is_space c && is_empty r then EmptyString else String c r
  end.

(** [s.strip()]. *)
Definition strip (s : string) : string := lstrip (rstrip s).

(** [s.strip(ch)] for a one-character argument. *)
Fixpoint lstrip_char (ch : ascii) (s : string) : string :=
  match s with
  | EmptyString => EmptyString
  | String c s' => if Ascii.eqb c ch then lstrip_char ch s' else s
  end.

Fixpoint rstrip_char (ch : ascii) (s : string) : string :=
  match s with
  | EmptyString => EmptyString
  | String c s' =>
      let r := rstrip_char ch s' in
      if Ascii.eqb c ch && is_empty r then EmptyString else String c r
  end.

Definition strip_char (ch : ascii) (s : string) : string :=
  lstrip_char ch (rstrip_char ch s).

(** [needle in hay]. *)
Fixpoint contains (needle hay : string) : bool :=
  String.prefix needle hay ||
  match hay with
  | EmptyString => false
  | String _ hay' => contains needle hay'
  end.

(** [s[n:]]. *)
Fixpoint drop (n : nat) (s : string) : string :=
  match n, s with
  | O, _ => s
  | S n', String _ s' => drop n' s'
  | S _, EmptyString => EmptyString
  end.

(** The line boundaries of [str.splitlines] on ASCII; CR LF is one
    boundary and is dealt with in [splitlines_go]. *)
Definition is_linebreak (c : ascii) : bool :=
  between 10 13 c || between 28 30 c.

(** [cur] is the line read so far, last character first. *)
Fixpoint splitlines_go (cur : string) (s : string) : list string :=
  match s with
  | EmptyString => if is_empty cur then [] else [String.rev cur]
  | String c s' =>
      if (code c =? 13)%N then
        String.rev cur ::
          match s' with
          | String c' s'' =>
              if (code c' =? 10)%N then splitlines_go EmptyString s''
              else splitlines_go EmptyString s'
          | EmptyString => splitlines_go EmptyString s'
          end
      else if is_linebreak c then String.rev cur :: splitlines_go EmptyString s'
      else splitlines_go (String c cur) s'
  end.

(** [s.splitlines()]. *)
Definition splitlines (s : string) : list string := splitlines_go EmptyString s.

Definition digit_val (c : ascii) : Z := Z.of_N (code c) - 48.

(** [s.title()]: a letter behind a letter is put in lower case, any other
    letter in upper case; [prev_cased] says whether a letter stands in
    front. *)
Fixpoint title_go (prev_cased : bool) (s : string) : string :=
  match s with
  | EmptyString => EmptyString
  | String c s' =>
      if is_lower c then
        String (if prev_cased then c else upper_char c) (title_go true s')
      else if is_upper c then
        String (if prev_cased then lower_char c else c) (title_go true s')
      else String c (title_go false s')
  end.

Definition str_title (s : string) : string := title_go false s.

(** [s.replace(old, new)] for one-character arguments. *)
Definition replace_char (old new : ascii) (s : string) : string :=
  map_chars (fun c => if Ascii.eqb c old then new else c) s.

End Text.

(* ================================================================== *)
(** * Numbers *)
(* ================================================================== *)

Module Num.

(** Rounding of a rational to the nearest integer, ties to even. *)
Definition round_half_even (x : Q) : Z :=
  let f := Qfloor x in
  match Qcompare (x - inject_Z f) (1 # 2) with
  | Lt => f
  | Gt => f + 1
  | Eq => if Z.even f then f else f + 1
  end.

(** [round(x, 2)]. *)
Definition round2 (x : Q) : Q := Qmake (round_half_even (x * 100)) 100.

(** ** Binary64

    A float has 53 significant bits: between 2^e and 2^(e+1) the floats
    are the multiples of 2^(e-52), and below 2^(-1022) they are the
    multiples of 2^(-1074).  An operation on floats returns the float
    nearest to the exact result, a tie going to the even multiple.  The
    numbers rounded here stay below 128, far from the largest float. *)

Definition pow2 (e : Z) : Q := (2 ^ e)%Q.

(** For a positive [x], the [e] with 2^e <= x < 2^(e+1): it is the
    difference of the bit lengths of numerator and denominator, or one
    less. *)
Definition ilog2 (x : Q) : Z :=
  let e := Z.log2 (Qnum x) - Z.log2 (Zpos (Qden x)) in
  if Qle_bool (pow2 e) x then e else e - 1.

Definition exponent (x : Q) : Z := Z.max (ilog2 (Qabs x)) (-1022).

(** The distance between the floats around [x]. *)
Definition ulp (x : Q) : Q := pow2 (exponent x - 52).

(** The float nearest to [x]. *)
Definition rnd (x : Q) : Q := (inject_Z (round_half_even (x / ulp x)) * ulp x)%Q.

(** [a / b] on two numbers, and [x * y] and [x + y] on two floats. *)
Definition fdiv (a b : Q) : Q := rnd (a / b).
Definition fmul (x y : Q) : Q := rnd (x * y).
Definition fadd (x y : Q) : Q := rnd (x + y).

(** A count as a float. *)
Definition of_nat (n : nat) : Q := inject_Z (Z.of_nat n).

(** [len(l)] as a float. *)
Definition len {A} (l : list A) : Q := of_nat (length l).

(** [max(l) if l else None]. *)
Definition max_or_none (l : list Z) : option Z :=
  match l with
  | [] => None
  | y :: l' => Some (foldl Z.max y l')
  end.

End Num.

(* ================================================================== *)
(** * Exceptions *)
(* ================================================================== *)

Inductive exn :=
| ValueError (msg : string)
| JSONDecodeError
| AttributeError (msg : string).

(** The outcome of a Python call that may raise. *)
Inductive result (A : Type) :=
| Return (a : A)
| Raise (e : exn).
Arguments Return {A} a.
Arguments Raise {A} e.

(* ================================================================== *)
(** * Recovery of JSON from a model reply *)
(* ================================================================== *)

Module Json.
Import Text.

(** The values [json.loads] returns. *)
#[warnings="-register-all"]
Inductive json :=
| JNull
| JBool (b : bool)
| JNum (n : Z)
| JStr (s : string)
| JArr (items : list json)
| JObj (members : list (string * json)).

Definition fence : string := "```".
Definition backslash : ascii := Ascii.ascii_of_N 92.
Definition dquote : ascii := Ascii.ascii_of_N 34.

(** The text in front of the first fence of [s]: what the lazy group
    [(.*?)] followed by the closing fence matches. *)
Fixpoint before_fence (s : string) : option string :=
  if String.prefix fence s then Some EmptyString
  else match s with
       | EmptyString => None
       | String c s' => String c <$> before_fence s'
       end.

(** The pattern behind an opening fence: [(?:json)?(.*?)```], the tag
    without regard to case.  The tag is taken when it is there; the
    matcher falls back to not taking it. *)
Definition block_at (rest : string) : option string :=
  let untagged := before_fence rest in
  if String.prefix "json" (lower rest) then
    match before_fence (drop 4 rest) with
    | Some g => Some g
    | None => untagged
    end
  else untagged.

(** [JSON_BLOCK_RE.search(text)], giving [m.group(1)]. *)
Fixpoint JSON_BLOCK_RE_search (text : string) : option string :=
  match text with
  | EmptyString => None
  | String _ text' =>
      match (if String.prefix fence text then block_at (drop 3 text) else None) with
      | Some g => Some g
      | None => JSON_BLOCK_RE_search text'
      end
  end.

(** The longest prefix of [s] that ends in a closing brace: what the
    greedy [[\s\S]*\}] matches. *)
Fixpoint upto_last_brace (s : string) : option string :=
  match s with
  | EmptyString => None
  | String c s' =>
      match upto_last_brace s' with
      | Some r => Some (String c r)
      | None => if Ascii.eqb c "}" then Some (String c EmptyString) else None
      end
  end.

(** [CURLY_EXTRACT_RE.search(text)], giving [m2.group(0)]. *)
Fixpoint CURLY_EXTRACT_RE_search (text : string) : option string :=
  match text with
  | EmptyString => None
  | String c text' =>
      match (if Ascii.eqb c "{" then String c <$> upto_last_brace text' else None) with
      | Some frag => Some frag
      | None => CURLY_EXTRACT_RE_search text'
      end
  end.

(** [re.sub(r"\\n", " ", s)]: a backslash followed by the letter n becomes
    a blank. *)
Fixpoint sub_escaped_newline (s : string) : string :=
  match s with
  | EmptyString => EmptyString
  | String c s' =>
      match s' with
      | String c' s'' =>
          if Ascii.eqb c backslash && Ascii.eqb c' "n"
          then String " " (sub_escaped_newline s'')
          else String c (sub_escaped_newline s')
      | EmptyString => String c (sub_escaped_newline s')
      end
  end.

Definition head_is (c : ascii) (s : string) : bool :=
  match s with
  | String c' _ => Ascii.eqb c c'
  | EmptyString => false
  end.

(** [re.sub(r",\s*\]", "]", s)] for [close] the bracket, likewise for the
    brace.  Behind a comma that starts a match come white space and the
    closing character, none of which starts a match itself: they reach the
    result of the rest unchanged, and the match is replaced by stripping
    them off that result again up to the closing character. *)
Fixpoint sub_trailing_comma (close : ascii) (s : string) : string :=
  match s with
  | EmptyString => EmptyString
  | String c s' =>
      let r := sub_trailing_comma close s' in
      if Ascii.eqb c "," && head_is close (lstrip s') then lstrip r else String c r
  end.

(** The text of the last attempt of [safe_json_loads]. *)
Definition cleaned (text : string) : string :=
  let cleaned := strip (strip_char "`" (strip text)) in
  let cleaned := sub_escaped_newline cleaned in
  let cleaned := sub_trailing_comma "]" cleaned in
  let cleaned := sub_trailing_comma "}" cleaned in
  cleaned.

Section SafeJsonLoads.
(** [json.loads] of the standard library; [None] stands for raising
    [JSONDecodeError]. *)
Variable loads : string -> option json.

(** The second attempt: the stripped content of the first fenced block. *)
Definition fenced_attempt (text : string) : option json :=
  match JSON_BLOCK_RE_search text with
  | Some g => loads (strip g)
  | None => None
  end.

(** The third attempt: from the first opening to the last closing brace. *)
Definition curly_attempt (text : string) : option json :=
  match CURLY_EXTRACT_RE_search text with
  | Some frag => loads frag
  | None => None
  end.

Definition safe_json_loads (text : string) : result json :=
  if is_empty text then Raise (ValueError "Empty content")
  else
    match loads text with
    | Some v => Return v
    | None =>
        match fenced_attempt text with
        | Some v => Return v
        | None =>
            match curly_attempt text with
            | Some v => Return v
            | None =>
                match loads (cleaned text) with
                | Some v => Return v
                | None => Raise JSONDecodeError
                end
            end
        end
    end.
End SafeJsonLoads.

(** ** A decoder to run the recovery on

    [loads_core] decodes the JSON texts that have no escape sequence in a
    string and no fraction or exponent in a number, as [json.loads] does,
    and rejects every other text.  It is the instance of [loads] at which
    the examples are evaluated. *)

Definition is_json_ws (c : ascii) : bool :=
  (code c =? 32)%N || (code c =? 9)%N || (code c =? 10)%N || (code c =? 13)%N.

Fixpoint skip_ws (s : string) : string :=
  match s with
  | EmptyString => EmptyString
  | String c s' => if is_json_ws c then skip_ws s' else s
  end.

(** The characters of a string literal up to its closing quote. *)
Fixpoint scan_string (s : string) : option (string * string) :=
  match s with
  | EmptyString => None
  | String c s' =>
      if Ascii.eqb c dquote then Some (EmptyString, s')
      else if Ascii.eqb c backslash || (code c <? 32)%N then None
      else match scan_string s' with
           | Some (body, rest) => Some (String c body, rest)
           | None => None
           end
  end.

(** The digits at the head of [s], read as a number after [acc]. *)
Fixpoint scan_digits (acc : Z) (s : string) : Z * string :=
  match s with
  | String c s' => if is_digit c then scan_digits (10 * acc + digit_val c) s' else (acc, s)
  | EmptyString => (acc, s)
  end.

Definition scan_int (s : string) : option (Z * string) :=
  match s with
  | String c s' =>
      if is_digit c then
        if Ascii.eqb c "0" && (match s' with String d _ => is_digit d | _ => false end)
        then None
        else
          let '(n, rest) := scan_digits 0 s in
          if head_is "." rest || head_is "e" rest || head_is "E" rest then None
          else Some (n, rest)
      else None
  | EmptyString => None
  end.

Definition scan_number (s : string) : option (Z * string) :=
  match s with
  | String c s' =>
      if Ascii.eqb c "-" then
        match scan_int s' with
        | Some (n, rest) => Some (- n, rest)
        | None => None
        end
      else scan_int s
  | EmptyString => None
  end.

Definition literal (word : string) (v : json) (s : string) : option (json * string) :=
  if String.prefix word s then Some (v, drop (String.length word) s) else None.

Fixpoint parse_value (fuel : nat) (s : string) : option (json * string) :=
  match fuel with
  | O => None
  | S fuel' =>
      match skip_ws s with
      | EmptyString => None
      | String c r as s0 =>
          if Ascii.eqb c "n" then literal "null" JNull s0
          else if Ascii.eqb c "t" then literal "true" (JBool true) s0
          else if Ascii.eqb c "f" then literal "false" (JBool false) s0
          else if Ascii.eqb c dquote then
            match scan_string r with
            | Some (body, rest) => Some (JStr body, rest)
            | None => None
            end
          else if Ascii.eqb c "[" then
            if head_is "]" (skip_ws r) then Some (JArr [], drop 1 (skip_ws r))
            else match parse_items fuel' r with
                 | Some (items, rest) => Some (JArr items, rest)
                 | None => None
                 end
          else if Ascii.eqb c "{" then
            if head_is "}" (skip_ws r) then Some (JObj [], drop 1 (skip_ws r))
            else match parse_members fuel' r with
                 | Some (members, rest) => Some (JObj members, rest)
                 | None => None
                 end
          else
            match scan_number s0 with
            | Some (n, rest) => Some (JNum n, rest)
            | None => None
            end
      end
  end
with parse_items (fuel : nat) (s : string) : option (list json * string) :=
  match fuel with
  | O => None
  | S fuel' =>
      match parse_value fuel' s with
      | Some (v, rest) =>
          match skip_ws rest with
          | String c r =>
              if Ascii.eqb c "," then
                match parse_items fuel' r with
                | Some (items, rest') => Some (v :: items, rest')
                | None => None
                end
              else if Ascii.eqb c "]" then Some ([v], r)
              else None
          | EmptyString => None
          end
      | None => None
      end
  end
with parse_members (fuel : nat) (s : string) : option (list (string * json) * string) :=
  match fuel with
  | O => None
  | S fuel' =>
      match skip_ws s with
      | String q r =>
          if Ascii.eqb q dquote then
            match scan_string r with
            | Some (key, rest) =>
                match skip_ws rest with
                | String colon r' =>
                    if Ascii.eqb colon ":" then
                      match parse_value fuel' r' with
                      | Some (v, rest') =>
                          match skip_ws rest' with
                          | String c r'' =>
                              if Ascii.eqb c "," then
                                match parse_members fuel' r'' with
                                | Some (members, rest'') => Some ((key, v) :: members, rest'')
                                | None => None
                                end
                              else if Ascii.eqb c "}" then Some ([(key, v)], r'')
                              else None
                          | EmptyString => None
                          end
                      | None => None
                      end
                    else None
                | EmptyString => None
                end
            | None => None
            end
          else None
      | EmptyString => None
      end
  end.

Definition loads_core (s : string) : option json :=
  match parse_value (2 * String.length s + 2) s with
  | Some (v, rest) => if is_empty (skip_ws rest) then Some v else None
  | None => None
  end.

(** The two replies of the specification and the object in them. *)
Definition quoted (s : string) : string :=
  String dquote s +:+ String dquote EmptyString.
Definition nl : string := String (Ascii.ascii_of_N 10) EmptyString.

Definition raw_reply : string := "{" +:+ quoted "a" +:+ ":1}".
Definition fenced_reply : string :=
  "Here is the answer:" +:+ nl +:+ "```json" +:+ nl +:+ raw_reply +:+ nl +:+ "```".
Definition object_a1 : json := JObj [("a", JNum 1)].

End Json.

(** [sorted(s)] for a set of strings. *)
Definition py_sorted (s : gset string) : list string :=
  merge_sort String.le (elements s).

(* ================================================================== *)
(** * The heuristic parser *)
(* ================================================================== *)

Module Parser.
Import Text.

Definition TECH_KEYWORDS : list string :=
  [ "Python"; "JavaScript"; "Java"; "C++"; "C#"; "Go"; "Rust"; "Ruby"; "PHP";
    "React"; "Angular"; "Vue"; "Node.js"; "Django"; "Flask"; "FastAPI"; "Spring";
    "Docker"; "Kubernetes"; "AWS"; "Azure"; "GCP"; "Git"; "Linux"; "SQL"; "MongoDB";
    "Machine Learning"; "AI"; "Deep Learning"; "TensorFlow"; "PyTorch"; "Pandas"; "NumPy";
    "Quantum Computing"; "Qiskit"; "Cirq"; "Linear Algebra"; "Statistics"; "MATLAB";
    "Blockchain"; "DevOps"; "CI/CD"; "Terraform"; "Ansible" ].

Definition parse_tech_stacks (text : string) : list string :=
  let text_upper := upper text in
  let found :=
    foldl (fun (found : gset string) tech =>
             if contains (upper tech) text_upper then {[ tech ]} ∪ found else found)
          ∅ TECH_KEYWORDS in
  py_sorted found.

(** One attempt of [\b(19\d{2}|20\d{2})\b] at the head of [s]; the caller
    has checked the word boundary in front. *)
Definition match_year (s : string) : option Z :=
  match s with
  | String a (String b (String c (String d rest))) =>
      let century :=
        (Ascii.eqb a "1" && Ascii.eqb b "9") || (Ascii.eqb a "2" && Ascii.eqb b "0") in
      let boundary :=
        match rest with
        | EmptyString => true
        | String e _ => negb (is_word e)
        end in
      if century && is_digit c && is_digit d && boundary
      then Some (1000 * digit_val a + 100 * digit_val b + 10 * digit_val c + digit_val d)
      else None
  | _ => None
  end.

(** [re.finditer] from left to right; [prev_word] says whether the
    character in front of [s] is a word character.  A match covers four
    digits, so no other match starts inside it or directly behind it: the
    scan may look at every position. *)
Fixpoint years_from (prev_word : bool) (s : string) : list Z :=
  match s with
  | EmptyString => []
  | String c s' =>
      (if prev_word then [] else option_list (match_year s))
        ++ years_from (is_word c) s'
  end.

Definition extract_years (text : string) : list Z := years_from false text.

Record education_entry := {
  description : string;
  year : option Z
}.

Definition education_keywords : list string :=
  ["Bachelor"; "Master"; "PhD"; "University"; "College"; "Degree"].

(** [any(k.lower() in line.lower() for k in keywords)]. *)
Definition any_keyword (keywords : list string) (line : string) : bool :=
  existsb (fun k => contains (lower k) (lower line)) keywords.

(** One turn of the loop of [parse_education]. *)
Definition education_step (education : list education_entry) (line : string)
  : list education_entry :=
  if (String.length (strip line) <? 12)%nat then education
  else if any_keyword education_keywords line then
    let years := extract_years line in
    education ++ [ {| description := strip line; year := Num.max_or_none years |} ]
  else education.

Definition parse_education (text : string) : list education_entry :=
  take 4 (foldl education_step [] (splitlines text)).

(** The state of the [random] module: the draws to come and how many
    have been taken. *)
Record rng := {
  tape : nat -> Z;
  pos : nat
}.

(** [random.randint(lo, hi)]. *)
Definition randint (lo hi : Z) (g : rng) : Z * rng :=
  (lo + tape g (pos g) `mod` (hi - lo + 1), {| tape := tape g; pos := S (pos g) |}).

Record work_entry := {
  role : string;
  w_year : option Z;
  duration : Z
}.

Definition work_keywords : list string :=
  ["Engineer"; "Developer"; "Manager"; "Analyst"; "Scientist"; "Researcher"; "Intern"].

(** One turn of the loop of [parse_work_experience]. *)
Definition work_step (st : list work_entry * rng) (line : string)
  : list work_entry * rng :=
  let '(exp, g) := st in
  if (String.length (strip line) <? 15)%nat then (exp, g)
  else if any_keyword work_keywords line then
    let years := extract_years line in
    let '(d, g') := randint 1 4 g in
    (exp ++ [ {| role := strip line; w_year := Num.max_or_none years; duration := d |} ], g')
  else (exp, g).

Definition parse_work_experience (text : string) (g : rng) : list work_entry * rng :=
  let '(exp, g') := foldl work_step ([], g) (splitlines text) in
  (take 6 exp, g').

(** ** Extraction by the language model *)

(** The truth value of a decoded JSON value, as [or] and [not] take it. *)
Definition truthy (v : Json.json) : bool :=
  match v with
  | Json.JNull => false
  | Json.JBool b => b
  | Json.JNum n => negb (n =? 0)
  | Json.JStr s => negb (is_empty s)
  | Json.JArr items => match items with [] => false | _ => true end
  | Json.JObj members => match members with [] => false | _ => true end
  end.

(** [d.get(key)] on the dictionary a JSON object decodes to: of several
    members with one key the last one counts, and a missing key gives
    [None]. *)
Fixpoint dict_get (key : string) (members : list (string * Json.json)) : Json.json :=
  match members with
  | [] => Json.JNull
  | (k, v) :: members' =>
      if String.eqb k key && negb (existsb (fun kv => String.eqb kv.1 key) members')
      then v else dict_get key members'
  end.

(** [a or b]. *)
Definition py_or (a b : Json.json) : Json.json := if truthy a then a else b.

(** [x if isinstance(x, list) else []], as a list. *)
Definition as_list (v : Json.json) : list Json.json :=
  match v with
  | Json.JArr items => items
  | _ => []
  end.

Record extracted := {
  ex_tech_stacks : list Json.json;
  ex_education : list Json.json;
  ex_work_experience : list Json.json
}.

(** [reply] is the outcome of [mistral_chat_json].  A reply that is no
    object has no [get]: the [AttributeError] is caught like every other
    exception. *)
Definition mistral_extract_resume (reply : result Json.json) : option extracted :=
  match reply with
  | Raise _ => None
  | Return (Json.JObj data) =>
      let tech :=
        py_or (py_or (dict_get "tech_stacks" data) (dict_get "skills" data)) (Json.JArr []) in
      let edu := py_or (dict_get "education" data) (Json.JArr []) in
      let exp :=
        py_or (py_or (dict_get "work_experience" data) (dict_get "experience" data))
              (Json.JArr []) in
      Some {| ex_tech_stacks := as_list tech; ex_education := as_list edu;
              ex_work_experience := as_list exp |}
  | Return _ => None
  end.

End Parser.

(* ================================================================== *)
(** * The scoring engine *)
(* ================================================================== *)

Module Scoring.
Import Text.

(** Only the lengths of the three lists are looked at, so the entries may
    be of any shape (the ones of the heuristic parser or the ones a
    language model returned). *)
Definition calculate_strength_score {A B C : Type}
    (tech_stacks : list A) (education : list B) (experience : list C) : Q :=
  let score := 0%Q in
  let score := (score + Qmin (Num.len tech_stacks * (1 # 2)) 4)%Q in
  let score := (score + Qmin (Num.len education * 1) 3)%Q in
  let score := (score + Qmin (Num.len experience * (3 # 4)) 3)%Q in
  Num.round2 (Qmin score 10).

(** [s.strip().lower()]. *)
Definition norm_skill (s : string) : string := lower (strip s).

(** [set(s.strip().lower() for s in skills)]. *)
Definition skill_set (skills : list string) : gset string :=
  list_to_set (norm_skill <$> skills).

Definition calculate_job_match (user_skills job_skills : list string)
  : Q * list string * list string :=
  let u := skill_set user_skills in
  let j := skill_set job_skills in
  let matching := py_sorted (u ∩ j) in
  let missing := py_sorted (j ∖ u) in
  let match_pct :=
    if decide (j = ∅) then 0%Q
    else (Num.len matching / Num.of_nat (size j) * 100)%Q in
  (match_pct, matching, missing).

(** A multiple-choice question of a session.  Both producers of
    questions (the fallback bank and [norm_mcq]) set every key, so
    [q.get(key)] always finds it. *)
Record mcq_question := {
  mq_id : string;
  mq_question : string;
  mq_options : list string;
  mq_correct_answer : Z;
  mq_category : string;
  mq_difficulty : string
}.

Record mcq_detail := {
  md_question_id : string;
  md_correct : bool;
  md_user_answer : Z;
  md_correct_answer : Z;
  md_category : string
}.

Record mcq_results := {
  mr_score : Q;
  mr_correct : nat;
  mr_total : nat;
  mr_details : list mcq_detail
}.

(** One turn of the loop of [grade_mcq_answers]. *)
Definition mcq_step (answers : gmap string Z) (st : nat * list mcq_detail)
    (q : mcq_question) : nat * list mcq_detail :=
  let '(correct, details) := st in
  let qid := mq_id q in
  let user_ans := default (-1) (answers !! qid) in
  let is_correct := (user_ans =? mq_correct_answer q) in
  let correct := if is_correct then S correct else correct in
  (correct,
   details ++ [ {| md_question_id := qid; md_correct := is_correct;
                   md_user_answer := user_ans;
                   md_correct_answer := mq_correct_answer q;
                   md_category := mq_category q |} ]).

Definition grade_mcq_answers (questions : list mcq_question) (answers : gmap string Z)
  : mcq_results :=
  let total := length questions in
  let '(correct, details) := foldl (mcq_step answers) (O, []) questions in
  {| mr_score := if (total =? 0)%nat then 0%Q
                 else Num.fmul (Num.fdiv (Num.of_nat correct) (Num.of_nat total)) 100;
     mr_correct := correct;
     mr_total := total;
     mr_details := details |}.

Record test_case := {
  tc_input : Json.json;
  tc_expected : Json.json
}.

Record coding_question := {
  cq_id : string;
  cq_question : string;
  cq_template : string;
  cq_test_cases : list test_case;
  cq_category : string;
  cq_difficulty : string
}.

Record coding_detail := {
  cd_question_id : string;
  cd_score : Z;
  cd_max_score : Z;
  cd_feedback : string
}.

Record coding_results := {
  cr_score : Q;
  cr_details : list coding_detail
}.

(** The points of one submission: the body of the loop of
    [grade_coding_answers] between [code_score = 0] and [score += code_score]. *)
Definition code_points (user_code : string) : Z :=
  let code_score := 0 in
  let code_score :=
    if (20 <? String.length (strip user_code))%nat then code_score + 30 else code_score in
  let code_score :=
    if contains "def " user_code || contains "function " user_code
    then code_score + 30 else code_score in
  let code_score :=
    if contains "return" user_code then code_score + 40 else code_score in
  code_score.

(** One turn of the loop of [grade_coding_answers]. *)
Definition coding_step (answers : gmap string string) (st : Z * list coding_detail)
    (q : coding_question) : Z * list coding_detail :=
  let '(score, details) := st in
  let qid := cq_id q in
  let user_code := default "" (answers !! qid) in
  let code_score := code_points user_code in
  (score + code_score,
   details ++ [ {| cd_question_id := qid; cd_score := code_score; cd_max_score := 100;
                   cd_feedback := if 60 <? code_score then "Code structure looks good!"
                                  else "Could use improvement in structure." |} ]).

Definition grade_coding_answers (questions : list coding_question)
    (answers : gmap string string) : coding_results :=
  let total := length questions in
  let '(score, details) := foldl (coding_step answers) (0, []) questions in
  {| cr_score := if (total =? 0)%nat then 0%Q
                 else Num.fmul (Num.fdiv (inject_Z score) (Num.of_nat total * 100)) 100;
     cr_details := details |}.

End Scoring.

(* ================================================================== *)
(** * The stores and the routes *)
(* ================================================================== *)

Module Api.
Import Text Json Parser Scoring.

Record JobPosting := {
  jp_id : string;
  jp_title : string;
  jp_company : string;
  jp_description : string;
  jp_required_skills : list string;
  jp_experience_years : Z;
  jp_salary_range : string
}.

Definition QUANTUM_JOBS : list JobPosting :=
  [ {| jp_id := "qjob1"; jp_title := "Quantum Software Engineer";
       jp_company := "IBM Quantum";
       jp_description := "Develop quantum algorithms and software solutions";
       jp_required_skills :=
         ["Python"; "Qiskit"; "Machine Learning"; "Linear Algebra"; "Quantum Computing"];
       jp_experience_years := 3; jp_salary_range := "$120k - $180k" |};
    {| jp_id := "qjob2"; jp_title := "Quantum Research Scientist";
       jp_company := "Google Quantum AI";
       jp_description := "Research quantum algorithms and quantum advantage";
       jp_required_skills :=
         ["Physics"; "Python"; "C++"; "Mathematics"; "Research"; "Quantum Computing"];
       jp_experience_years := 5; jp_salary_range := "$150k - $220k" |};
    {| jp_id := "qjob3"; jp_title := "Quantum Applications Developer";
       jp_company := "Rigetti Computing";
       jp_description := "Build quantum applications for real-world problems";
       jp_required_skills :=
         ["Python"; "JavaScript"; "Quantum Computing"; "Cloud Computing"; "APIs"];
       jp_experience_years := 2; jp_salary_range := "$100k - $150k" |};
    {| jp_id := "qjob4"; jp_title := "Quantum Hardware Engineer";
       jp_company := "IonQ";
       jp_description := "Design and optimize quantum hardware systems";
       jp_required_skills :=
         ["Physics"; "Electronics"; "Python"; "MATLAB"; "Quantum Computing"];
       jp_experience_years := 4; jp_salary_range := "$130k - $190k" |};
    {| jp_id := "qjob5"; jp_title := "Quantum Product Manager";
       jp_company := "Amazon Braket";
       jp_description := "Lead quantum computing product development";
       jp_required_skills :=
         ["Product Management"; "Quantum Computing"; "Business Strategy"; "Python";
          "Communication"];
       jp_experience_years := 6; jp_salary_range := "$140k - $200k" |} ].

Record ResumeAnalysis := {
  ra_id : string;
  ra_user_id : string;
  ra_tech_stacks : list string;
  ra_education : list education_entry;
  ra_work_experience : list work_entry;
  ra_strength_score : Q;
  ra_timestamp : Z
}.

Record JobRecommendation := {
  job_id : string;
  title : string;
  company : string;
  match_percentage : Q;
  matching_skills : list string;
  missing_skills : list string
}.

(** The pydantic model [TestSession]; a time is a number of microseconds,
    the resolution of [datetime]. *)
Record TestSession := {
  ts_id : string;
  ts_user_id : string;
  ts_mcq_questions : list mcq_question;
  ts_coding_questions : list coding_question;
  ts_duration_minutes : Z;
  ts_status : string;
  ts_start_time : Z;
  ts_expires_at : Z
}.

(** What a slot of [test_sessions] may hold: the plain [dict] that
    [sess.dict()] builds, or a model instance.  Only the second has
    attributes. *)
Inductive session_obj :=
| SessionDict (fields : TestSession)
| SessionModel (fields : TestSession).

Record TestSubmission := {
  session_id : string;
  mcq_answers : gmap string Z;
  coding_answers : gmap string string
}.

Record TestResult := {
  tr_session_id : string;
  tr_user_id : string;
  tr_mcq_results : mcq_results;
  tr_coding_results : coding_results;
  tr_total_score : Q;
  tr_timestamp : Z;
  tr_duration_taken : Z
}.

(** The module-level dictionaries. *)
Record store := {
  resume_data : gmap string ResumeAnalysis;
  test_sessions : gmap string session_obj;
  test_results : gmap string TestResult;
  job_recommendations_data : gmap string (list JobRecommendation)
}.

(** What a route hands to the framework: a body, an [HTTPException], or
    any other exception, which the framework answers with status 500. *)
Inductive response (A : Type) :=
| Ok (body : A)
| HTTPException (status_code : Z) (detail : string)
| Uncaught (e : exn).
Arguments Ok {A} body.
Arguments HTTPException {A} status_code detail.
Arguments Uncaught {A} e.

Definition status_of {A} (r : response A) : Z :=
  match r with
  | Ok _ => 200
  | HTTPException code _ => code
  | Uncaught _ => 500
  end.

(** ** get_job_recommendations *)

Definition positive (x : Q) : bool := negb (Qle_bool x 0).

(** One turn of the loop over the catalog. *)
Definition recommend_step (user_skills : list string)
    (recommendations : list JobRecommendation) (job : JobPosting)
  : list JobRecommendation :=
  let '(pct, matching, missing) :=
    calculate_job_match user_skills (jp_required_skills job) in
  if positive pct then
    recommendations ++
      [ {| job_id := jp_id job; title := jp_title job; company := jp_company job;
           match_percentage := Num.round2 pct;
           matching_skills := matching; missing_skills := missing |} ]
  else recommendations.

Section Sort.
Context {A : Type} (key : A -> Q).

(** [x] goes in front of the first entry whose key is not greater. *)
Fixpoint insert_desc (x : A) (l : list A) : list A :=
  match l with
  | [] => [x]
  | y :: l' =>
      if positive (key y - key x) then y :: insert_desc x l' else x :: l
  end.

(** [l.sort(key=key, reverse=True)]: the sort of Python is stable, also
    when reversed, and a stable sort has one result only. *)
Definition sort_desc (l : list A) : list A := foldr insert_desc [] l.
End Sort.

Definition recommend (user_skills : list string) : list JobRecommendation :=
  let recommendations := foldl (recommend_step user_skills) [] QUANTUM_JOBS in
  let recommendations := sort_desc match_percentage recommendations in
  take 3 recommendations.

Definition get_job_recommendations (user_id : string) (st : store)
  : response (list JobRecommendation * list JobPosting) * store :=
  match resume_data st !! user_id with
  | None => (HTTPException 404 "Resume analysis not found", st)
  | Some analysis =>
      let recommendations := recommend (ra_tech_stacks analysis) in
      (Ok (recommendations, QUANTUM_JOBS),
       {| resume_data := resume_data st;
          test_sessions := test_sessions st;
          test_results := test_results st;
          job_recommendations_data :=
            <[user_id := recommendations]> (job_recommendations_data st) |})
  end.

(** ** start_test *)

Definition MCQ_FALLBACK : list mcq_question :=
  [ {| mq_id := "mcq1";
       mq_question := "What is the basic unit of quantum information?";
       mq_options := ["Bit"; "Byte"; "Qubit"; "Gate"];
       mq_correct_answer := 2; mq_category := "quantum_basics";
       mq_difficulty := "easy" |};
    {| mq_id := "mcq2";
       mq_question :=
         "Which principle allows quantum computers to process multiple states simultaneously?";
       mq_options := ["Entanglement"; "Superposition"; "Decoherence"; "Interference"];
       mq_correct_answer := 1; mq_category := "quantum_basics";
       mq_difficulty := "medium" |};
    {| mq_id := "mcq3";
       mq_question := "Which quantum gate creates superposition from |0⟩?";
       mq_options := ["Pauli-X"; "Pauli-Z"; "Hadamard"; "CNOT"];
       mq_correct_answer := 2; mq_category := "quantum_gates";
       mq_difficulty := "medium" |} ].

Definition CODING_FALLBACK : list coding_question :=
  [ {| cq_id := "code1";
       cq_question :=
         "Write a Python function that calculates the factorial of a number recursively.";
       cq_template := "def factorial(n):" +:+ nl +:+ "    # Your code here" +:+ nl +:+ "    pass";
       cq_test_cases :=
         [ {| tc_input := JNum 5; tc_expected := JNum 120 |};
           {| tc_input := JNum 0; tc_expected := JNum 1 |};
           {| tc_input := JNum 3; tc_expected := JNum 6 |} ];
       cq_category := "programming"; cq_difficulty := "easy" |};
    {| cq_id := "code2";
       cq_question :=
         "Implement a function to check if a string is a palindrome (ignore case and spaces).";
       cq_template :=
         "def is_palindrome(s):" +:+ nl +:+ "    # Your code here" +:+ nl +:+ "    pass";
       cq_test_cases :=
         [ {| tc_input := JStr "A man a plan a canal Panama"; tc_expected := JBool true |};
           {| tc_input := JStr "race a car"; tc_expected := JBool false |};
           {| tc_input := JStr "Madam"; tc_expected := JBool true |} ];
       cq_category := "programming"; cq_difficulty := "medium" |} ].

(** What the question generator gave: the questions of the language model
    after normalisation, or the fallback bank. *)
Record generated := {
  gen_mcq_questions : list mcq_question;
  gen_coding_questions : list coding_question
}.

Definition fallback : generated :=
  {| gen_mcq_questions := MCQ_FALLBACK; gen_coding_questions := CODING_FALLBACK |}.

Record started := {
  st_session_id : string;
  st_mcq_questions : list mcq_question;
  st_coding_questions : list coding_question;
  st_duration_minutes : Z
}.

(** [timedelta(minutes=30)]. *)
Definition thirty_minutes : Z := 30 * 60 * 1000000.

(** [uuid] is the identifier [uuid.uuid4()] draws.  Building the
    [TestSession] reads the clock twice, in the default factory of
    [start_time] and then in the one of [expires_at]: [now] and [now'] are
    the two readings. *)
Definition start_test (gen : generated) (uuid : string) (now now' : Z)
    (user_id : string) (st : store) : response started * store :=
  let mcq_questions := gen_mcq_questions gen in
  let coding_questions := gen_coding_questions gen in
  let sess :=
    {| ts_id := uuid; ts_user_id := user_id;
       ts_mcq_questions := mcq_questions;
       ts_coding_questions := coding_questions;
       ts_duration_minutes := 30; ts_status := "active";
       ts_start_time := now; ts_expires_at := now' + thirty_minutes |} in
  (Ok {| st_session_id := ts_id sess;
         st_mcq_questions := mcq_questions;
         st_coding_questions := coding_questions;
         st_duration_minutes := ts_duration_minutes sess |},
   {| resume_data := resume_data st;
      test_sessions := <[ts_id sess := SessionDict sess]> (test_sessions st);
      test_results := test_results st;
      job_recommendations_data := job_recommendations_data st |}).

(** ** submit_test *)

(** Reading or writing an attribute of a stored session, as
    [session.expires_at] and [session.status = ...] do. *)
Definition attributes (o : session_obj) (name : string) : result TestSession :=
  match o with
  | SessionModel fields => Return fields
  | SessionDict _ =>
      Raise (AttributeError ("'dict' object has no attribute '" +:+ name +:+ "'"))
  end.

Definition set_status (status : string) (s : TestSession) : TestSession :=
  {| ts_id := ts_id s; ts_user_id := ts_user_id s;
     ts_mcq_questions := ts_mcq_questions s;
     ts_coding_questions := ts_coding_questions s;
     ts_duration_minutes := ts_duration_minutes s; ts_status := status;
     ts_start_time := ts_start_time s; ts_expires_at := ts_expires_at s |}.

(** The session is a shared object: an assignment to one of its
    attributes is seen in [test_sessions]. *)
Definition write_session (sid : string) (s : TestSession) (st : store) : store :=
  {| resume_data := resume_data st;
     test_sessions := <[sid := SessionModel s]> (test_sessions st);
     test_results := test_results st;
     job_recommendations_data := job_recommendations_data st |}.

Definition write_result (sid : string) (r : TestResult) (st : store) : store :=
  {| resume_data := resume_data st;
     test_sessions := test_sessions st;
     test_results := <[sid := r]> (test_results st);
     job_recommendations_data := job_recommendations_data st |}.

Definition submit_test (submission : TestSubmission) (now : Z) (st : store)
  : response TestResult * store :=
  let sid := session_id submission in
  match test_sessions st !! sid with
  | None => (HTTPException 404 "Test session not found", st)
  | Some session =>
      match attributes session "expires_at" with
      | Raise e => (Uncaught e, st)
      | Return fields =>
          let fields :=
            if ts_expires_at fields <? now then set_status "expired" fields else fields in
          let st := write_session sid fields st in
          if negb (String.eqb (ts_status fields) "active") then
            (HTTPException 400 "Test session is not active", st)
          else
            let mcq_results :=
              grade_mcq_answers (ts_mcq_questions fields) (mcq_answers submission) in
            let coding_results :=
              grade_coding_answers (ts_coding_questions fields) (coding_answers submission) in
            (* 0.6 and 0.4 are the floats nearest to 6/10 and 4/10 *)
            let total_score :=
              Num.rnd (Num.round2
                         (Num.fadd (Num.fmul (mr_score mcq_results) (Num.rnd (6 # 10)))
                                   (Num.fmul (cr_score coding_results) (Num.rnd (4 # 10))))) in
            let result :=
              {| tr_session_id := sid; tr_user_id := ts_user_id fields;
                 tr_mcq_results := mcq_results; tr_coding_results := coding_results;
                 tr_total_score := total_score; tr_timestamp := now;
                 tr_duration_taken := 25 |} in
            let st := write_result sid result st in
            let st := write_session sid (set_status "completed" fields) st in
            (Ok result, st)
      end
  end.

(** ** upload_resume and get_resume_analysis

    The routes as they run when [MISTRAL_API_KEY] is not set: the language
    model is not asked and the heuristic parser alone fills the analysis. *)

Section Upload.
(** The readers of the two libraries: the texts of the pages of a PDF
    file ([None] for a page without text) and the texts of the paragraphs
    of a Word file, or the message of the exception they end in. *)
Variable pdf_pages : string -> string + list (option string).
Variable docx_paragraphs : string -> string + list string.
(** [content.decode(errors="ignore")]. *)
Variable decode : string -> string.

(** The two extractors answer a failure with an [HTTPException] of status
    400, given here by its detail. *)
Definition extract_text_from_pdf (file_content : string) : string + string :=
  match pdf_pages file_content with
  | inl e => inl ("Error processing PDF: " +:+ e)
  | inr pages => inr (String.concat nl (default "" <$> pages))
  end.

Definition extract_text_from_docx (file_content : string) : string + string :=
  match docx_paragraphs file_content with
  | inl e => inl ("Error processing DOCX: " +:+ e)
  | inr paragraphs => inr (String.concat nl paragraphs)
  end.

Definition pdf_type : string := "application/pdf".
Definition docx_type : string :=
  "application/vnd.openxmlformats-officedocument.wordprocessingml.document".
Definition msword_type : string := "application/msword".
Definition plain_type : string := "text/plain".

Definition supported_types : list string :=
  [pdf_type; docx_type; msword_type; plain_type].

Definition in_list (x : string) (l : list string) : bool :=
  existsb (String.eqb x) l.

Definition put_resume (user_id : string) (analysis : ResumeAnalysis) (st : store) : store :=
  {| resume_data := <[user_id := analysis]> (resume_data st);
     test_sessions := test_sessions st;
     test_results := test_results st;
     job_recommendations_data := job_recommendations_data st |}.

(** [content] holds the bytes of the file, [uuid] the identifier drawn
    for the analysis, [now] the time and [g] the state of [random]. *)
Definition upload_resume (content_type content user_id uuid : string) (now : Z)
    (g : rng) (st : store) : response ResumeAnalysis * store * rng :=
  if negb (in_list content_type supported_types) then
    (HTTPException 400 "Only PDF, DOCX/DOC, and TXT files are supported", st, g)
  else if is_empty content then (HTTPException 400 "Empty file", st, g)
  else if 10 * 1024 * 1024 <? Z.of_nat (String.length content) then
    (HTTPException 400 "File size must be less than 10MB", st, g)
  else
    let text :=
      if String.eqb content_type pdf_type then extract_text_from_pdf content
      else if in_list content_type [docx_type; msword_type]
           then extract_text_from_docx content
      else inr (decode content) in
    match text with
    | inl detail => (HTTPException 400 detail, st, g)
    | inr text =>
        let tech_stacks := parse_tech_stacks text in
        let education := parse_education text in
        let '(work_experience, g') := parse_work_experience text g in
        let strength_score :=
          calculate_strength_score tech_stacks education work_experience in
        let analysis :=
          {| ra_id := uuid; ra_user_id := user_id; ra_tech_stacks := tech_stacks;
             ra_education := education; ra_work_experience := work_experience;
             ra_strength_score := strength_score; ra_timestamp := now |} in
        (Ok analysis, put_resume user_id analysis st, g')
    end.
End Upload.

Definition get_resume_analysis (user_id : string) (st : store)
  : response ResumeAnalysis * store :=
  match resume_data st !! user_id with
  | None => (HTTPException 404 "Resume analysis not found", st)
  | Some analysis => (Ok analysis, st)
  end.

(** ** upgrade_me *)

Record RoleRequirement := {
  rr_required_skills : list string;
  rr_preferred_skills : list string;
  rr_min_experience : Z;
  rr_education : string
}.

Definition ROLE_REQUIREMENTS : gmap string RoleRequirement :=
  list_to_map
    [ ("Quantum Software Engineer",
       {| rr_required_skills :=
            ["Python"; "Qiskit"; "Linear Algebra"; "Quantum Computing"; "Git"];
          rr_preferred_skills := ["C++"; "Machine Learning"; "Cloud Computing"];
          rr_min_experience := 2;
          rr_education := "Bachelor's in Computer Science, Physics, or related field" |});
      ("Quantum Research Scientist",
       {| rr_required_skills :=
            ["Physics"; "Mathematics"; "Python"; "Research"; "Quantum Computing"];
          rr_preferred_skills := ["Machine Learning"; "Statistics"; "MATLAB"];
          rr_min_experience := 4;
          rr_education := "PhD in Physics, Computer Science, or related field" |});
      ("Quantum Applications Developer",
       {| rr_required_skills :=
            ["Python"; "JavaScript"; "APIs"; "Software Development"; "Quantum Computing"];
          rr_preferred_skills := ["React"; "FastAPI"; "Cloud Platforms"];
          rr_min_experience := 1;
          rr_education := "Bachelor's in Computer Science or related field" |}) ].

Record Resource := {
  rs_skill : string;
  rs_resource_name : string;
  rs_url : string;
  rs_type : string;
  rs_duration : string
}.

Record UpgradePlan := {
  up_target_role : string;
  up_missing_skills : list string;
  up_recommended_resources : list Resource;
  up_suggested_projects : list string;
  up_estimated_time_weeks : Z
}.

(** [set(s.lower() for s in skills)]. *)
Definition lower_set (skills : list string) : gset string :=
  list_to_set (lower <$> skills).

Definition resource_for (s : string) : Resource :=
  {| rs_skill := s;
     rs_resource_name := "Master " +:+ str_title s +:+ " – curated path";
     rs_url := "https://example.com/learn-" +:+ replace_char " " "-" s;
     rs_type := "online_course";
     rs_duration := "3-5 weeks" |}.

Definition project_for (s : string) : string :=
  if contains "quantum" s then "Build a quantum algorithm using " +:+ s
  else "Create a demo showcasing " +:+ s.

Definition upgrade_me (target_role user_id : string) (st : store) : response UpgradePlan :=
  match resume_data st !! user_id with
  | None => HTTPException 404 "Resume analysis not found"
  | Some analysis =>
      match ROLE_REQUIREMENTS !! target_role with
      | None => HTTPException 400 "Target role not supported"
      | Some reqs =>
          let user_skills := lower_set (ra_tech_stacks analysis) in
          let required := lower_set (rr_required_skills reqs) in
          let missing := py_sorted (required ∖ user_skills) in
          let resources := resource_for <$> missing in
          let projects := project_for <$> take 4 missing in
          Ok {| up_target_role := target_role;
                up_missing_skills := missing;
                up_recommended_resources := resources;
                up_suggested_projects := projects;
                up_estimated_time_weeks := Z.max 4 (Z.of_nat (length missing) * 4) |}
      end
  end.

End Api.


(* ================================================================== *)
(** * The notions of the statements *)
(* ================================================================== *)

Module Notions.
Import Text Num Json Parser Scoring Api.

(** ** The strength score in quarters of a point *)

(** The three capped shares, in quarters of a point. *)
Definition quarters (s e w : nat) : Z :=
  Z.min (2 * Z.of_nat s) 16 + Z.min (4 * Z.of_nat e) 12 + Z.min (3 * Z.of_nat w) 12.

(** The sum of the three shares before the final cap and the rounding. *)
Definition shares {A B C} (S : list A) (E : list B) (W : list C) : Q :=
  (Qmin (len S * (1 # 2)) 4 + Qmin (len E * 1) 3 + Qmin (len W * (3 # 4)) 3)%Q.

(** ** The three results of [calculate_job_match] *)

Definition match_pct (U J : list string) : Q := (calculate_job_match U J).1.1.

Definition matching (U J : list string) : list string := (calculate_job_match U J).1.2.

Definition missing (U J : list string) : list string := (calculate_job_match U J).2.

(** ** Grading of the multiple-choice answers *)

(** The answer the grader works with: the submitted index, or -1. *)
Definition answer_of (answers : gmap string Z) (q : mcq_question) : Z :=
  default (-1) (answers !! mq_id q).

Definition is_correct (answers : gmap string Z) (q : mcq_question) : bool :=
  answer_of answers q =? mq_correct_answer q.

Definition mcq_detail_of (answers : gmap string Z) (q : mcq_question) : mcq_detail :=
  {| md_question_id := mq_id q; md_correct := is_correct answers q;
     md_user_answer := answer_of answers q;
     md_correct_answer := mq_correct_answer q;
     md_category := mq_category q |}.

Definition correct_count (answers : gmap string Z) (questions : list mcq_question) : nat :=
  length (filter (fun q => is_correct answers q = true) questions).

Definition sentinel_question : mcq_question :=
  {| mq_id := "mcq1"; mq_question := "Which option is right?";
     mq_options := ["A"; "B"]; mq_correct_answer := -1;
     mq_category := "general"; mq_difficulty := "medium" |}.

Definition all_right : gmap string Z :=
  <["mcq1" := 2]> (<["mcq2" := 1]> (<["mcq3" := 2]> ∅)).

(** The right answer to the first question of the bank, and no other
    answer. *)
Definition one_right : gmap string Z := <["mcq1" := 2]> ∅.

(** ** Grading of the coding answers *)

(** The three criteria of the grader. *)
Definition long_enough (code : string) : bool :=
  (20 <? String.length (strip code))%nat.

Definition has_function_marker (code : string) : bool :=
  contains "def " code || contains "function " code.

Definition has_return (code : string) : bool := contains "return" code.

(** The text the grader looks at: the submission, or the empty text. *)
Definition code_of (answers : gmap string string) (q : coding_question) : string :=
  default "" (answers !! cq_id q).

Definition coding_detail_of (answers : gmap string string) (q : coding_question) : coding_detail :=
  {| cd_question_id := cq_id q;
     cd_score := code_points (code_of answers q);
     cd_max_score := 100;
     cd_feedback := if 60 <? code_points (code_of answers q)
                    then "Code structure looks good!"
                    else "Could use improvement in structure." |}.

Definition points_sum (answers : gmap string string) (questions : list coding_question) : Z :=
  foldr Z.add 0 ((fun q => code_points (code_of answers q)) <$> questions).

Definition full_answer : gmap string string :=
  <["code1" := "def factorial(n): return 1 if n < 2 else n * factorial(n - 1)"]> ∅.

(** Two answers without a function header, the second a short one: 70
    and 40 points. *)
Definition partial_answers : gmap string string :=
  <["code1" := "return n * factorial(n - 1)"]> (<["code2" := "return s"]> ∅).

(** ** Years and education lines *)

(** Whether a word character stands in front of the position behind
    [pre], when [prev] says so for the position in front of [pre]. *)
Fixpoint word_before (prev : bool) (pre : string) : bool :=
  match pre with
  | EmptyString => prev
  | String c pre' => word_before (is_word c) pre'
  end.

Definition qualifies (line : string) : bool :=
  (12 <=? String.length (strip line))%nat
  && existsb (fun k => contains (lower k) (lower line)) education_keywords.

Definition entry_of (line : string) : education_entry :=
  {| description := strip line; year := max_or_none (extract_years line) |}.

(** ** Technologies and work experience *)

Definition mentioned (text tech : string) : bool :=
  contains (upper tech) (upper text).

Definition qualifies_work (line : string) : bool :=
  (15 <=? String.length (strip line))%nat
  && existsb (fun k => contains (lower k) (lower line)) work_keywords.

(** What an entry takes from its line. *)
Definition from_line (e : work_entry) : string * option Z := (role e, w_year e).

Definition read_line (line : string) : string * option Z :=
  (strip line, max_or_none (extract_years line)).

(** The duration of the draw number [i]. *)
Definition drawn (g : rng) (i : nat) : Z := 1 + tape g i `mod` 4.

Definition found_lines (lines : list string) : list string :=
  filter (fun l => qualifies_work l = true) lines.

Definition counting : rng := {| tape := fun i => Z.of_nat i; pos := 0 |}.

Definition resume : string := "Software Engineer at IBM, 2019".

(** ** Recommendations *)

(** The order of a list sorted by falling key: greater keys first, and
    among equal keys the earlier entry first, where [earlier a b] says that
    [a] stood in front of [b] before the sort. *)
Definition ranked {A : Type} (key : A -> Q) (earlier : A -> A -> Prop) (a b : A) : Prop :=
  (key b < key a)%Q ∨ ((key a == key b)%Q ∧ earlier a b).

Definition rec_of (user_skills : list string) (job : JobPosting) : option JobRecommendation :=
  if positive (match_pct user_skills (jp_required_skills job)) then
    Some {| job_id := jp_id job; title := jp_title job; company := jp_company job;
            match_percentage := round2 (match_pct user_skills (jp_required_skills job));
            matching_skills := matching user_skills (jp_required_skills job);
            missing_skills := missing user_skills (jp_required_skills job) |}
  else None.

(** [r1] recommends a job that stands in the catalog in front of the
    job of [r2]. *)
Definition catalog_before (r1 r2 : JobRecommendation) : Prop :=
  ∃ i j : nat, (i < j)%nat
    ∧ jp_id <$> QUANTUM_JOBS !! i = Some (job_id r1)
    ∧ jp_id <$> QUANTUM_JOBS !! j = Some (job_id r2).

Definition demo_analysis : ResumeAnalysis :=
  {| ra_id := "a1"; ra_user_id := "u1";
     ra_tech_stacks := ["Python"; "C++"; "Quantum Computing"];
     ra_education := []; ra_work_experience := [];
     ra_strength_score := 3 # 2; ra_timestamp := 0 |}.

Definition demo_store : store :=
  {| resume_data := {[ "u1" := demo_analysis ]}; test_sessions := ∅;
     test_results := ∅; job_recommendations_data := ∅ |}.

(** ** Sessions *)

Definition no_attribute : exn :=
  AttributeError "'dict' object has no attribute 'expires_at'".

Definition submission_for (sid : string) (mcq : gmap string Z)
    (coding : gmap string string) : TestSubmission :=
  {| session_id := sid; mcq_answers := mcq; coding_answers := coding |}.

(** ** Texts *)

(** Whether the character [c] occurs in [s]. *)
Fixpoint has_char (c : ascii) (s : string) : bool :=
  match s with
  | EmptyString => false
  | String d s' => Ascii.eqb c d || has_char c s'
  end.

(** Whether [s] consists of white space. *)
Fixpoint all_space (s : string) : bool :=
  match s with
  | EmptyString => true
  | String c s' => is_space c && all_space s'
  end.

Definition lbrace : string := "{".
Definition rbrace : string := "}".

(** ** Entries of the parser

    What holds of every entry the education parser returns, and of every
    entry of the experience parser. *)
Definition education_entry_ok (text : string) (e : education_entry) : Prop :=
  (∃ line, line ∈ splitlines text ∧ description e = strip line)
  ∧ (12 <= String.length (description e))%nat
  ∧ strip (description e) = description e
  ∧ match year e with Some y => 1900 <= y <= 2099 | None => True end.

Definition work_entry_ok (text : string) (e : work_entry) : Prop :=
  (∃ line, line ∈ splitlines text ∧ role e = strip line)
  ∧ (15 <= String.length (role e))%nat
  ∧ strip (role e) = role e
  ∧ match w_year e with Some y => 1900 <= y <= 2099 | None => True end
  ∧ 1 <= duration e <= 4.

(** ** The server as a whole *)

Definition empty_store : store :=
  {| resume_data := ∅; test_sessions := ∅; test_results := ∅;
     job_recommendations_data := ∅ |}.

(** The requests the routes modelled here answer. *)
Inductive request :=
| Upload (content_type content user_id uuid : string) (now : Z)
| GetAnalysis (user_id : string)
| Recommend (user_id : string)
| StartTest (gen : generated) (uuid : string) (now now' : Z) (user_id : string)
| SubmitTest (submission : TestSubmission) (now : Z)
| UpgradeMe (target_role user_id : string).

Section Serving.
Variable pdf_pages : string -> string + list (option string).
Variable docx_paragraphs : string -> string + list string.
Variable decode : string -> string.

(** One request: the status of the answer, and the stores and the random
    state it leaves. *)
Definition serve (req : request) (w : store * rng) : Z * (store * rng) :=
  let '(st, g) := w in
  match req with
  | Upload content_type content user_id uuid now =>
      let '(r, st', g') :=
        upload_resume pdf_pages docx_paragraphs decode
          content_type content user_id uuid now g st in
      (status_of r, (st', g'))
  | GetAnalysis user_id =>
      let '(r, st') := get_resume_analysis user_id st in (status_of r, (st', g))
  | Recommend user_id =>
      let '(r, st') := get_job_recommendations user_id st in (status_of r, (st', g))
  | StartTest gen uuid now now' user_id =>
      let '(r, st') := start_test gen uuid now now' user_id st in (status_of r, (st', g))
  | SubmitTest submission now =>
      let '(r, st') := submit_test submission now st in (status_of r, (st', g))
  | UpgradeMe target_role user_id =>
      (status_of (upgrade_me target_role user_id st), (st, g))
  end.

(** The stores after a sequence of requests. *)
Definition run (reqs : list request) (w : store * rng) : store * rng :=
  foldl (fun w req => (serve req w).2) w reqs.
End Serving.

(** The stores in which every session is a dictionary that is still
    active and no result is kept. *)
Definition dicts_only (st : store) : Prop :=
  test_results st = ∅
  ∧ forall sid o, test_sessions st !! sid = Some o ->
      ∃ fields, o = SessionDict fields ∧ ts_status fields = "active".

(** ** An upload to evaluate

    Readers that open no file, and a decoder for texts of ASCII. *)

Definition no_reader : string -> string + list (option string) :=
  fun _ => inl "not a PDF file".
Definition no_paragraphs : string -> string + list string :=
  fun _ => inl "not a Word file".
Definition ascii_text : string -> string := fun content => content.

Definition demo_resume : string :=
  "Python, Docker and Git" +:+ Json.nl +:+ "Software Engineer at IBM 2019-2021"
  +:+ Json.nl +:+ "Bachelor of Science, MIT 2018".

(** ** Upgrade plans *)

(** The keys of [ROLE_REQUIREMENTS]. *)
Definition role_names : list string :=
  ["Quantum Software Engineer"; "Quantum Research Scientist";
   "Quantum Applications Developer"].

End Notions.

(* ================================================================== *)
(** * Facts about rounding *)
(* ================================================================== *)

Module NumFacts.
Import Num.

Lemma round_half_even_comp (x y : Q) :
  (x == y)%Q -> round_half_even x = round_half_even y.
Proof.
  intros Hxy. unfold round_half_even.
  rewrite (Qfloor_comp _ _ Hxy).
  assert (Hc : (x - inject_Z (Qfloor y) ?= 1 # 2)%Q = (y - inject_Z (Qfloor y) ?= 1 # 2)%Q).
  { apply Qcompare_comp; [rewrite Hxy|]; reflexivity. }
  rewrite Hc. reflexivity.
Qed.

Lemma round_half_even_Z (z : Z) : round_half_even (inject_Z z) = z.
Proof.
  unfold round_half_even. rewrite Qfloor_Z.
  assert (Hc : (inject_Z z - inject_Z z ?= 1 # 2)%Q = Lt).
  { rewrite <- Qlt_alt. unfold Qlt, Qminus, Qplus, Qopp, inject_Z. simpl. lia. }
  rewrite Hc. reflexivity.
Qed.

(** A number with at most two decimals is left as it is. *)
Lemma round2_hundredths (x : Q) (z : Z) :
  (x * 100 == inject_Z z)%Q -> (round2 x == x)%Q.
Proof.
  intros Hx. unfold round2.
  rewrite (round_half_even_comp _ _ Hx), round_half_even_Z.
  revert Hx. unfold Qeq, Qmult, inject_Z. destruct x as [n d]. simpl. lia.
Qed.

Lemma round2_comp (x y : Q) : (x == y)%Q -> round2 x = round2 y.
Proof.
  intros Hxy. unfold round2. f_equal. apply round_half_even_comp.
  rewrite Hxy. reflexivity.
Qed.

(** Rounding stays within a hundredth... and keeps the order. *)
Lemma round_half_even_mono (x y : Q) :
  (x <= y)%Q -> round_half_even x <= round_half_even y.
Proof.
  intros Hxy.
  assert (Hf := Qfloor_resp_le _ _ Hxy).
  unfold round_half_even.
  destruct (Z.eq_dec (Qfloor x) (Qfloor y)) as [Heq|Hne].
  - rewrite Heq.
    assert (Hab : (x - inject_Z (Qfloor y) <= y - inject_Z (Qfloor y))%Q)
      by (apply Qplus_le_l; exact Hxy).
    destruct (Qcompare_spec (x - inject_Z (Qfloor y)) (1 # 2)) as [Hx|Hx|Hx];
      destruct (Qcompare_spec (y - inject_Z (Qfloor y)) (1 # 2)) as [Hy|Hy|Hy];
      try (destruct (Z.even (Qfloor y))); try lia; exfalso; lra.
  - assert (Qfloor x + 1 <= Qfloor y) by lia.
    destruct (x - inject_Z (Qfloor x) ?= 1 # 2)%Q;
      destruct (y - inject_Z (Qfloor y) ?= 1 # 2)%Q;
      try (destruct (Z.even (Qfloor x))); try (destruct (Z.even (Qfloor y))); lia.
Qed.

Lemma round2_mono (x y : Q) : (x <= y)%Q -> (round2 x <= round2 y)%Q.
Proof.
  intros Hxy. unfold round2, Qle. simpl.
  apply Z.mul_le_mono_nonneg_r; [lia|].
  apply round_half_even_mono.
  apply Qmult_le_compat_r; [exact Hxy | discriminate].
Qed.

End NumFacts.

(* ================================================================== *)
(** * Facts about binary64 rounding *)
(* ================================================================== *)

Module FloatFacts.
Import Num NumFacts.
Local Open Scope Q_scope.

Lemma pow2_pos (e : Z) : 0 < pow2 e.
Proof. apply Qpower_0_lt. reflexivity. Qed.

Lemma pow2_le (e e' : Z) : (e <= e')%Z -> pow2 e <= pow2 e'.
Proof. intros H. apply Qpower_le_compat_l; [exact H | discriminate]. Qed.

Lemma pow2_lt_inv (e e' : Z) : pow2 e < pow2 e' -> (e < e')%Z.
Proof. intros H. apply (Qpower_lt_compat_l_inv 2); [exact H | reflexivity]. Qed.

Lemma pow2_add (e e' : Z) : pow2 (e + e') == pow2 e * pow2 e'.
Proof. apply Qpower_plus. discriminate. Qed.

Lemma pow2_Z (n : Z) : (0 <= n)%Z -> pow2 n == inject_Z (2 ^ n).
Proof. intros H. unfold pow2. rewrite (Zpower_Qpower 2 n H). reflexivity. Qed.

Lemma pow2_sub (a b : Z) :
  (0 <= a)%Z -> (0 <= b)%Z -> pow2 (a - b) == inject_Z (2 ^ a) / inject_Z (2 ^ b).
Proof.
  intros Ha Hb. unfold pow2. rewrite Qpower_minus by discriminate.
  rewrite (Zpower_Qpower 2 a Ha), (Zpower_Qpower 2 b Hb). reflexivity.
Qed.

Lemma Qmake_lt_div (n A B : Z) (d : positive) :
  (0 < B)%Z -> (n * B < A * Zpos d)%Z -> n # d < inject_Z A / inject_Z B.
Proof.
  intros HB H. apply Qlt_shift_div_l.
  - unfold Qlt, inject_Z. simpl. lia.
  - unfold Qlt, Qmult, inject_Z. simpl. lia.
Qed.

Lemma Qmake_le_div (n A B : Z) (d : positive) :
  (0 < B)%Z -> (A * Zpos d <= n * B)%Z -> inject_Z A / inject_Z B <= n # d.
Proof.
  intros HB H. apply Qle_shift_div_r.
  - unfold Qlt, inject_Z. simpl. lia.
  - unfold Qle, Qmult, inject_Z. simpl. lia.
Qed.

(** [ilog2 x] is the exponent of the binade of [x]. *)
Lemma ilog2_spec (x : Q) : 0 < x -> pow2 (ilog2 x) <= x < pow2 (ilog2 x + 1).
Proof.
  destruct x as [n d]. intros Hx.
  assert (Hn : (0 < n)%Z) by (revert Hx; unfold Qlt; simpl; lia).
  pose proof (Z.log2_spec n Hn) as [Hn1 Hn2].
  pose proof (Z.log2_spec (Zpos d) eq_refl) as [Hd1 Hd2].
  pose proof (Z.log2_nonneg n) as Ha. pose proof (Z.log2_nonneg (Zpos d)) as Hb.
  assert (Hpa : (0 < 2 ^ Z.log2 n)%Z) by (apply Z.pow_pos_nonneg; lia).
  assert (Hpb : (0 < 2 ^ Z.log2 (Zpos d))%Z) by (apply Z.pow_pos_nonneg; lia).
  rewrite Z.pow_succ_r in Hn2, Hd2 by assumption.
  assert (Hlow : pow2 (Z.log2 n - Z.log2 (Zpos d) - 1) <= n # d).
  { replace (Z.log2 n - Z.log2 (Zpos d) - 1)%Z
      with (Z.log2 n - (Z.log2 (Zpos d) + 1))%Z by lia.
    rewrite pow2_sub by lia. apply Qmake_le_div.
    - apply Z.pow_pos_nonneg; lia.
    - rewrite Z.pow_add_r by lia. change (2 ^ 1)%Z with 2%Z. nia. }
  assert (Hhigh : n # d < pow2 (Z.log2 n - Z.log2 (Zpos d) + 1)).
  { replace (Z.log2 n - Z.log2 (Zpos d) + 1)%Z
      with (Z.log2 n + 1 - Z.log2 (Zpos d))%Z by lia.
    rewrite pow2_sub by lia. apply Qmake_lt_div; [exact Hpb|].
    rewrite Z.pow_add_r by lia. change (2 ^ 1)%Z with 2%Z. nia. }
  unfold ilog2. cbn [Qnum Qden].
  destruct (Qle_bool (pow2 (Z.log2 n - Z.log2 (Zpos d))) (n # d)) eqn:Hc.
  - apply Qle_bool_iff in Hc. split; assumption.
  - split; [exact Hlow|].
    replace (Z.log2 n - Z.log2 (Zpos d) - 1 + 1)%Z
      with (Z.log2 n - Z.log2 (Zpos d))%Z by lia.
    apply Qnot_le_lt. intros H. apply Qle_bool_iff in H. congruence.
Qed.

Lemma ilog2_unique (x : Q) (e : Z) :
  pow2 e <= x -> x < pow2 (e + 1) -> ilog2 x = e.
Proof.
  intros H1 H2.
  assert (Hx : 0 < x) by (eapply Qlt_le_trans; [apply (pow2_pos e) | exact H1]).
  destruct (ilog2_spec x Hx) as [H3 H4].
  assert (e < ilog2 x + 1)%Z by (apply pow2_lt_inv; eapply Qle_lt_trans; eassumption).
  assert (ilog2 x < e + 1)%Z by (apply pow2_lt_inv; eapply Qle_lt_trans; eassumption).
  lia.
Qed.

Lemma ilog2_comp (x y : Q) : 0 < x -> x == y -> ilog2 x = ilog2 y.
Proof.
  intros Hx Hxy. symmetry. destruct (ilog2_spec x Hx) as [H1 H2].
  apply ilog2_unique; rewrite <- Hxy; assumption.
Qed.

Lemma ilog2_mono (x y : Q) : 0 < x -> x <= y -> (ilog2 x <= ilog2 y)%Z.
Proof.
  intros Hx Hxy.
  assert (Hy : 0 < y) by (eapply Qlt_le_trans; eassumption).
  destruct (ilog2_spec x Hx) as [H1 _]. destruct (ilog2_spec y Hy) as [_ H2].
  assert (ilog2 x < ilog2 y + 1)%Z; [|lia].
  apply pow2_lt_inv. eapply Qle_lt_trans; [exact H1|].
  eapply Qle_lt_trans; eassumption.
Qed.

Lemma ulp_pos (x : Q) : 0 < ulp x.
Proof. apply pow2_pos. Qed.

Lemma exponent_pos (x : Q) : 0 < x -> exponent x = Z.max (ilog2 x) (-1022).
Proof.
  intros Hx. unfold exponent. f_equal. symmetry. apply ilog2_comp; [exact Hx|].
  symmetry. apply Qabs_pos. apply Qlt_le_weak. exact Hx.
Qed.

Lemma exponent_mono (x y : Q) : 0 < x -> x <= y -> (exponent x <= exponent y)%Z.
Proof.
  intros Hx Hxy.
  assert (Hy : 0 < y) by (eapply Qlt_le_trans; eassumption).
  rewrite (exponent_pos x Hx), (exponent_pos y Hy).
  pose proof (ilog2_mono x y Hx Hxy). lia.
Qed.

(** The floats around [x] are the multiples of [ulp x]: rounding does not
    cross them. *)
Lemma rnd_le_grid (x : Q) (m : Z) :
  x <= inject_Z m * ulp x -> rnd x <= inject_Z m * ulp x.
Proof.
  intros H. unfold rnd. apply Qmult_le_compat_r; [|apply Qlt_le_weak, ulp_pos].
  rewrite <- Zle_Qle. rewrite <- (round_half_even_Z m).
  apply round_half_even_mono. apply Qle_shift_div_r; [apply ulp_pos | exact H].
Qed.

Lemma rnd_ge_grid (x : Q) (m : Z) :
  inject_Z m * ulp x <= x -> inject_Z m * ulp x <= rnd x.
Proof.
  intros H. unfold rnd. apply Qmult_le_compat_r; [|apply Qlt_le_weak, ulp_pos].
  rewrite <- Zle_Qle. rewrite <- (round_half_even_Z m) at 1.
  apply round_half_even_mono. apply Qle_shift_div_l; [apply ulp_pos | exact H].
Qed.

Lemma rnd_nonneg (x : Q) : 0 <= x -> 0 <= rnd x.
Proof.
  intros H. assert (H0 : inject_Z 0 * ulp x == 0) by ring.
  apply Qle_trans with (inject_Z 0 * ulp x).
  - rewrite H0. apply Qle_refl.
  - apply rnd_ge_grid. rewrite H0. exact H.
Qed.

Lemma pow2_grid (k : Z) (n : Z) :
  (0 <= n)%Z -> pow2 (k - 52 + n) == inject_Z (2 ^ n) * pow2 (k - 52).
Proof.
  intros Hn. rewrite pow2_add, (pow2_Z n Hn). ring.
Qed.

Lemma rnd_zero (x : Q) : x == 0 -> rnd x == 0.
Proof.
  intros Hx. unfold rnd.
  assert (H : x / ulp x == inject_Z 0).
  { transitivity (0 * / ulp x); [|ring].
    apply Qmult_comp; [exact Hx | reflexivity]. }
  rewrite (round_half_even_comp _ _ H), round_half_even_Z. ring.
Qed.

Lemma exponent_comp (x y : Q) : 0 < x -> x == y -> exponent x = exponent y.
Proof.
  intros Hx Hxy. assert (Hy : 0 < y) by (rewrite <- Hxy; exact Hx).
  rewrite (exponent_pos x Hx), (exponent_pos y Hy), (ilog2_comp x y Hx Hxy).
  reflexivity.
Qed.

Lemma rnd_comp_pos (x y : Q) : 0 < x -> x == y -> rnd x == rnd y.
Proof.
  intros Hx Hxy. unfold rnd, ulp. rewrite (exponent_comp x y Hx Hxy).
  assert (H : x / pow2 (exponent y - 52) == y / pow2 (exponent y - 52))
    by (rewrite Hxy; reflexivity).
  rewrite (round_half_even_comp _ _ H). reflexivity.
Qed.

(** Rounding keeps the order of the non-negative numbers. *)
Lemma rnd_mono (x y : Q) : 0 <= x -> x <= y -> rnd x <= rnd y.
Proof.
  intros Hx Hxy.
  destruct (Qlt_le_dec 0 x) as [Hpos|Hzero].
  2: { assert (Hx0 : x == 0) by (apply Qle_antisym; assumption).
       rewrite (rnd_zero x Hx0). apply rnd_nonneg.
       eapply Qle_trans; eassumption. }
  assert (Hy : 0 < y) by (eapply Qlt_le_trans; eassumption).
  pose proof (exponent_mono x y Hpos Hxy) as Hk.
  destruct (Z.eq_dec (exponent x) (exponent y)) as [Heq|Hne].
  - unfold rnd, ulp. rewrite Heq.
    apply Qmult_le_compat_r; [|apply Qlt_le_weak, pow2_pos].
    rewrite <- Zle_Qle. apply round_half_even_mono.
    apply Qmult_le_compat_r; [exact Hxy|].
    apply Qinv_le_0_compat, Qlt_le_weak, pow2_pos.
  - assert (Hlt : (exponent x < exponent y)%Z) by lia.
    destruct (ilog2_spec x Hpos) as [_ Hx2]. destruct (ilog2_spec y Hy) as [Hy1 _].
    pose proof (exponent_pos x Hpos) as Ex. pose proof (exponent_pos y Hy) as Ey.
    apply Qle_trans with (pow2 (exponent x + 1)); [|apply Qle_trans with (pow2 (exponent y))].
    + replace (exponent x + 1)%Z with (exponent x - 52 + 53)%Z by lia.
      rewrite pow2_grid by lia. apply rnd_le_grid. fold (ulp x).
      unfold ulp. rewrite <- pow2_grid by lia.
      apply Qlt_le_weak. eapply Qlt_le_trans; [exact Hx2|].
      apply pow2_le. lia.
    + apply pow2_le. lia.
    + replace (exponent y)%Z with (exponent y - 52 + 52)%Z at 1 by lia.
      rewrite pow2_grid by lia. apply rnd_ge_grid.
      unfold ulp. rewrite <- pow2_grid by lia.
      replace (exponent y - 52 + 52)%Z with (ilog2 y) by lia. exact Hy1.
Qed.

Lemma round_half_even_error (z : Q) :
  Qabs (inject_Z (round_half_even z) - z) <= 1 # 2.
Proof.
  pose proof (Qfloor_le z) as H1. pose proof (Qlt_floor z) as H2.
  rewrite inject_Z_plus in H2. change (inject_Z 1) with 1 in H2.
  apply Qabs_Qle_condition. unfold round_half_even.
  destruct (Qcompare_spec (z - inject_Z (Qfloor z)) (1 # 2)) as [H|H|H];
    try destruct (Z.even (Qfloor z));
    rewrite ?inject_Z_plus; change (inject_Z 1) with 1; split; lra.
Qed.

(** The rounding error is at most half a unit in the last place. *)
Lemma rnd_error_ulp (x : Q) : Qabs (rnd x - x) <= ulp x * (1 # 2).
Proof.
  unfold rnd. pose proof (ulp_pos x) as Hu.
  pose proof (round_half_even_error (x / ulp x)) as He.
  assert (Heq : inject_Z (round_half_even (x / ulp x)) * ulp x - x
                == (inject_Z (round_half_even (x / ulp x)) - x / ulp x) * ulp x).
  { field. intros H0. rewrite H0 in Hu. discriminate. }
  rewrite Heq, Qabs_Qmult, (Qabs_pos (ulp x)) by (apply Qlt_le_weak; exact Hu).
  rewrite (Qmult_comm (ulp x)).
  apply Qmult_le_compat_r; [exact He | apply Qlt_le_weak; exact Hu].
Qed.

Lemma rnd_error (x : Q) (E : Z) :
  (-1021 <= E)%Z -> 0 <= x -> x < pow2 E -> Qabs (rnd x - x) <= pow2 (E - 54).
Proof.
  intros HE Hx HxE. destruct (Qlt_le_dec 0 x) as [Hpos|Hzero].
  - eapply Qle_trans; [apply rnd_error_ulp|].
    replace (E - 54)%Z with (E - 53 + -1)%Z by lia.
    rewrite pow2_add. change (pow2 (-1)) with (1 # 2).
    apply Qmult_le_compat_r; [|discriminate].
    apply pow2_le. rewrite (exponent_pos x Hpos).
    destruct (ilog2_spec x Hpos) as [H1 _].
    assert (ilog2 x < E)%Z by (apply pow2_lt_inv; eapply Qle_lt_trans; eassumption).
    lia.
  - assert (Hx0 : x == 0) by (apply Qle_antisym; assumption).
    assert (H : rnd x - x == 0) by (rewrite (rnd_zero x Hx0), Hx0; ring).
    rewrite H. apply Qlt_le_weak, pow2_pos.
Qed.

Lemma rnd_comp (x y : Q) : x == y -> rnd x == rnd y.
Proof.
  intros Hxy. destruct (Q_dec 0 x) as [[Hpos|Hneg]|Hz].
  - apply rnd_comp_pos; assumption.
  - unfold rnd, ulp.
    assert (Hk : exponent x = exponent y).
    { unfold exponent. f_equal. apply ilog2_comp.
      - rewrite (Qabs_neg x) by lra. lra.
      - rewrite Hxy. reflexivity. }
    rewrite Hk.
    assert (H : x / pow2 (exponent y - 52) == y / pow2 (exponent y - 52))
      by (rewrite Hxy; reflexivity).
    rewrite (round_half_even_comp _ _ H). reflexivity.
  - rewrite (rnd_zero x), (rnd_zero y); [reflexivity| |]; rewrite <- ?Hxy; symmetry; exact Hz.
Qed.

Lemma rnd_1 : rnd 1 == 1.
Proof. vm_compute. reflexivity. Qed.

Lemma rnd_100 : rnd 100 == 100.
Proof. vm_compute. reflexivity. Qed.

(** ** A share of a whole as a percentage: [(c / t) * 100] *)

Lemma fdiv_unit (c t : Q) : 0 <= c -> c <= t -> 0 < t -> 0 <= fdiv c t <= 1.
Proof.
  intros Hc Hct Ht. unfold fdiv.
  assert (H0 : 0 <= c / t) by (apply Qle_shift_div_l; [exact Ht | lra]).
  assert (H1 : c / t <= 1) by (apply Qle_shift_div_r; [exact Ht | lra]).
  split; [apply rnd_nonneg; exact H0|].
  rewrite <- rnd_1. apply rnd_mono; assumption.
Qed.

Lemma pct_float_range (c t : Q) :
  0 <= c -> c <= t -> 0 < t -> 0 <= fmul (fdiv c t) 100 <= 100.
Proof.
  intros Hc Hct Ht. destruct (fdiv_unit c t Hc Hct Ht) as [H0 H1]. unfold fmul.
  split; [apply rnd_nonneg; lra|].
  rewrite <- rnd_100 at 2. apply rnd_mono; lra.
Qed.

Lemma pct_float_zero (c t : Q) : c == 0 -> fmul (fdiv c t) 100 == 0.
Proof.
  intros Hc. unfold fmul, fdiv. apply rnd_zero.
  assert (H : c / t == 0) by (rewrite Hc; unfold Qdiv; ring).
  rewrite (rnd_zero _ H). ring.
Qed.

Lemma pct_float_full (c t : Q) : 0 < t -> c == t -> fmul (fdiv c t) 100 == 100.
Proof.
  intros Ht Hc. unfold fmul, fdiv.
  assert (H : c / t == 1) by (rewrite Hc; field; lra).
  rewrite <- rnd_100 at 2. apply rnd_comp.
  rewrite (rnd_comp _ _ H), rnd_1. ring.
Qed.

Lemma pct_float_mono (c c' t : Q) :
  0 <= c -> c <= c' -> 0 < t -> fmul (fdiv c t) 100 <= fmul (fdiv c' t) 100.
Proof.
  intros Hc Hcc Ht. unfold fmul, fdiv.
  assert (H0 : 0 <= c / t) by (apply Qle_shift_div_l; [exact Ht | lra]).
  assert (H1 : c / t <= c' / t).
  { apply Qmult_le_compat_r; [exact Hcc|]. apply Qinv_le_0_compat. lra. }
  pose proof (rnd_nonneg _ H0). pose proof (rnd_mono _ _ H0 H1).
  apply rnd_mono; lra.
Qed.

(** The float is the percentage up to the two roundings. *)
Lemma pct_float_error (c t : Q) :
  0 <= c -> c <= t -> 0 < t ->
  Qabs (fmul (fdiv c t) 100 - c / t * 100) <= 1 # 10 ^ 13.
Proof.
  intros Hc Hct Ht. destruct (fdiv_unit c t Hc Hct Ht) as [H0 H1].
  assert (Hq0 : 0 <= c / t) by (apply Qle_shift_div_l; [exact Ht | lra]).
  assert (Hq1 : c / t <= 1) by (apply Qle_shift_div_r; [exact Ht | lra]).
  assert (E1 : Qabs (fdiv c t - c / t) <= pow2 (1 - 54)).
  { apply rnd_error; [lia | exact Hq0 |].
    apply Qle_lt_trans with 1; [exact Hq1 | reflexivity]. }
  assert (E2 : Qabs (fmul (fdiv c t) 100 - fdiv c t * 100) <= pow2 (7 - 54)).
  { apply rnd_error; [lia | lra |].
    apply Qle_lt_trans with 100; [lra | reflexivity]. }
  apply Qabs_Qle_condition in E1. apply Qabs_Qle_condition in E2.
  change (pow2 (1 - 54)) with (1 # 2 ^ 53) in E1.
  change (pow2 (7 - 54)) with (1 # 2 ^ 47) in E2.
  apply Qabs_Qle_condition.
  assert (B : 100 * (1 # 2 ^ 53) + (1 # 2 ^ 47) <= 1 # 10 ^ 13) by (vm_compute; discriminate).
  assert (B' : - (1 # 10 ^ 13) <= - (100 * (1 # 2 ^ 53) + (1 # 2 ^ 47))) by (vm_compute; discriminate).
  split; lra.
Qed.

End FloatFacts.

(* ================================================================== *)
(** * The strength score *)
(* ================================================================== *)

Module StrengthScore.
Import Num Scoring NumFacts Notions.

Lemma Qmin_quarters (n : nat) (k cap : Z) (step bound : Q) :
  (step == inject_Z k / 4)%Q -> (bound == inject_Z cap / 4)%Q -> 0 <= k ->
  (Qmin (of_nat n * step) bound == inject_Z (Z.min (k * Z.of_nat n) cap) / 4)%Q.
Proof.
  intros Hstep Hbound Hk.
  destruct (Q.min_spec (of_nat n * step) bound) as [[Hlt ->]|[Hle ->]].
  - rewrite Hstep, Hbound in Hlt. rewrite Hstep.
    rewrite Z.min_l.
    + unfold of_nat. rewrite inject_Z_mult. field.
    + revert Hlt. unfold of_nat, Qlt, Qdiv, Qmult, Qinv, inject_Z. simpl. lia.
  - rewrite Hstep, Hbound in Hle. rewrite Hbound.
    rewrite Z.min_r; [reflexivity|].
    revert Hle. unfold of_nat, Qle, Qdiv, Qmult, Qinv, inject_Z. simpl. lia.
Qed.

Lemma shares_quarters {A B C} (S : list A) (E : list B) (W : list C) :
  (shares S E W == inject_Z (quarters (length S) (length E) (length W)) / 4)%Q.
Proof.
  unfold shares, len, quarters.
  rewrite (Qmin_quarters (length S) 2 16), (Qmin_quarters (length E) 4 12),
    (Qmin_quarters (length W) 3 12); try reflexivity; try lia.
  rewrite !inject_Z_plus. field.
Qed.

Lemma quarters_range (s e w : nat) : 0 <= quarters s e w <= 40.
Proof. unfold quarters. lia. Qed.

Lemma score_quarters {A B C} (S : list A) (E : list B) (W : list C) :
  (calculate_strength_score S E W
   == inject_Z (quarters (length S) (length E) (length W)) / 4)%Q.
Proof.
  unfold calculate_strength_score.
  assert (Hsum : (0 + Qmin (len S * (1 # 2)) 4 + Qmin (len E * 1) 3
                  + Qmin (len W * (3 # 4)) 3 == shares S E W)%Q)
    by (unfold shares; ring).
  pose proof (quarters_range (length S) (length E) (length W)) as Hr.
  pose proof (shares_quarters S E W) as Hq.
  assert (Hcap : (Qmin (0 + Qmin (len S * (1 # 2)) 4 + Qmin (len E * 1) 3
                        + Qmin (len W * (3 # 4)) 3) 10
                  == inject_Z (quarters (length S) (length E) (length W)) / 4)%Q).
  { rewrite Hsum, Hq. apply Q.min_l.
    unfold Qle, Qdiv, Qmult, Qinv, inject_Z. simpl. lia. }
  rewrite (round2_comp _ _ Hcap).
  apply (round2_hundredths _ (25 * quarters (length S) (length E) (length W))).
  rewrite inject_Z_mult. field.
Qed.

Lemma quarters_mono (s e w s' e' w' : nat) :
  (s <= s')%nat -> (e <= e')%nat -> (w <= w')%nat ->
  quarters s e w <= quarters s' e' w'.
Proof. unfold quarters. lia. Qed.

Lemma score_mono {A B C} (S S' : list A) (E E' : list B) (W W' : list C) :
  (length S <= length S')%nat -> (length E <= length E')%nat ->
  (length W <= length W')%nat ->
  (calculate_strength_score S E W <= calculate_strength_score S' E' W')%Q.
Proof.
  intros HS HE HW. rewrite !score_quarters.
  pose proof (quarters_mono _ _ _ _ _ _ HS HE HW).
  unfold Qle, Qdiv, Qmult, Qinv, inject_Z. simpl. lia.
Qed.

(** C2.  For all lists S, E and W the strength score is
    min(0.5 |S|, 4) + min(1.0 |E|, 3) + min(0.75 |W|, 3), capped at 10 and
    rounded to two decimals (the cap and the rounding leave the sum as it
    is); the score lies between 0 and 10 and does not decrease when one of
    the three lists gets longer while the other two stay. *)
Theorem strength_score_formula_range_monotone :
  forall (A B C : Type) (S : list A) (E : list B) (W : list C),
    calculate_strength_score S E W = round2 (Qmin (0 + shares S E W) 10)
    /\ (calculate_strength_score S E W == shares S E W)%Q
    /\ (0 <= calculate_strength_score S E W <= 10)%Q
    /\ (forall S' : list A, (length S <= length S')%nat ->
          (calculate_strength_score S E W <= calculate_strength_score S' E W)%Q)
    /\ (forall E' : list B, (length E <= length E')%nat ->
          (calculate_strength_score S E W <= calculate_strength_score S E' W)%Q)
    /\ (forall W' : list C, (length W <= length W')%nat ->
          (calculate_strength_score S E W <= calculate_strength_score S E W')%Q).
Proof.
  intros A B C S E W. repeat split.
  - unfold calculate_strength_score. apply round2_comp.
    assert (Hsum : (0 + Qmin (len S * (1 # 2)) 4 + Qmin (len E * 1) 3
                    + Qmin (len W * (3 # 4)) 3 == 0 + shares S E W)%Q)
      by (unfold shares; ring).
    rewrite Hsum. reflexivity.
  - rewrite score_quarters, shares_quarters. reflexivity.
  - rewrite score_quarters.
    pose proof (quarters_range (length S) (length E) (length W)).
    unfold Qle, Qdiv, Qmult, Qinv, inject_Z. simpl. lia.
  - rewrite score_quarters.
    pose proof (quarters_range (length S) (length E) (length W)).
    unfold Qle, Qdiv, Qmult, Qinv, inject_Z. simpl. lia.
  - intros S' HS. apply score_mono; [exact HS | lia | lia].
  - intros E' HE. apply score_mono; [lia | exact HE | lia].
  - intros W' HW. apply score_mono; [lia | lia | exact HW].
Qed.

Lemma strength_score_formula_range_monotone_witness :
  (calculate_strength_score ["Python"] [1%nat] [tt]
   <= calculate_strength_score ["Python"; "Docker"] [1%nat] [tt])%Q
  /\ (calculate_strength_score ["Python"; "Docker"] [1%nat] [tt] == 11 # 4)%Q.
Proof.
  split.
  - destruct (strength_score_formula_range_monotone string nat unit
                ["Python"] [1%nat] [tt]) as (_ & _ & _ & Hmono & _).
    apply (Hmono ["Python"; "Docker"]). simpl. lia.
  - vm_compute. reflexivity.
Defined.

End StrengthScore.

(* ================================================================== *)
(** * Facts about strings *)
(* ================================================================== *)

Module TextFacts.
Import Text.

Ltac by_cases_on_char c :=
  destruct c as [[] [] [] [] [] [] [] []]; vm_compute; reflexivity.

Lemma is_space_lower_char (c : ascii) : is_space (lower_char c) = is_space c.
Proof. by_cases_on_char c. Qed.

Lemma lower_char_idemp (c : ascii) : lower_char (lower_char c) = lower_char c.
Proof. by_cases_on_char c. Qed.

Lemma lower_idemp (s : string) : lower (lower s) = lower s.
Proof.
  induction s as [|c s IH]; simpl; [reflexivity|].
  unfold lower in *. simpl. rewrite lower_char_idemp, IH. reflexivity.
Qed.

Lemma is_empty_lower (s : string) : is_empty (lower s) = is_empty s.
Proof. destruct s; reflexivity. Qed.

Lemma lstrip_lower (s : string) : lstrip (lower s) = lower (lstrip s).
Proof.
  induction s as [|c s IH]; [reflexivity|].
  change (lower (String c s)) with (String (lower_char c) (lower s)).
  simpl. rewrite is_space_lower_char.
  destruct (is_space c); [exact IH | reflexivity].
Qed.

Lemma rstrip_lower (s : string) : rstrip (lower s) = lower (rstrip s).
Proof.
  induction s as [|c s IH]; [reflexivity|].
  change (lower (String c s)) with (String (lower_char c) (lower s)).
  simpl. rewrite is_space_lower_char, IH, is_empty_lower.
  destruct (is_space c && is_empty (rstrip s)); reflexivity.
Qed.

(** Trimming and lower-casing commute. *)
Lemma strip_lower (s : string) : strip (lower s) = lower (strip s).
Proof. unfold strip. rewrite rstrip_lower, lstrip_lower. reflexivity. Qed.

Lemma lstrip_idemp (s : string) : lstrip (lstrip s) = lstrip s.
Proof.
  induction s as [|c s IH]; [reflexivity|]. simpl.
  destruct (is_space c) eqn:Hc; [exact IH|]. simpl. rewrite Hc. reflexivity.
Qed.

Lemma rstrip_idemp (s : string) : rstrip (rstrip s) = rstrip s.
Proof.
  induction s as [|c s IH]; [reflexivity|]. simpl.
  destruct (is_space c && is_empty (rstrip s)) eqn:Hc; [reflexivity|].
  simpl. rewrite IH, Hc. reflexivity.
Qed.

Lemma rstrip_lstrip (s : string) : rstrip (lstrip s) = lstrip (rstrip s).
Proof.
  induction s as [|c s IH]; [reflexivity|].
  cbn [lstrip rstrip].
  destruct (is_space c) eqn:Hc.
  - rewrite IH. cbn [andb].
    destruct (rstrip s) as [|c' r] eqn:Hr; cbn [is_empty lstrip]; [reflexivity|].
    rewrite Hc. reflexivity.
  - cbn [andb lstrip rstrip]. rewrite Hc. reflexivity.
Qed.

Lemma strip_idemp (s : string) : strip (strip s) = strip s.
Proof.
  unfold strip. rewrite rstrip_lstrip, rstrip_idemp, lstrip_idemp. reflexivity.
Qed.

Lemma contains_empty (hay : string) : contains "" hay = true.
Proof. destruct hay; reflexivity. Qed.

Lemma strip_empty_length (s : string) :
  String.length (strip s) = 0%nat -> strip s = "".
Proof. destruct (strip s); [reflexivity | discriminate]. Qed.

End TextFacts.

(* ================================================================== *)
(** * Sorted enumerations of sets *)
(* ================================================================== *)

Module SortedFacts.

Lemma py_sorted_Permutation (s : gset string) : py_sorted s ≡ₚ elements s.
Proof. apply merge_sort_Permutation. Qed.

Lemma elem_of_py_sorted (s : gset string) (x : string) : x ∈ py_sorted s ↔ x ∈ s.
Proof. rewrite py_sorted_Permutation. apply elem_of_elements. Qed.

Lemma length_py_sorted (s : gset string) : length (py_sorted s) = size s.
Proof. rewrite py_sorted_Permutation. reflexivity. Qed.

Lemma NoDup_py_sorted (s : gset string) : NoDup (py_sorted s).
Proof. rewrite py_sorted_Permutation. apply NoDup_elements. Qed.

Lemma py_sorted_sorted (s : gset string) : StronglySorted String.le (py_sorted s).
Proof. apply StronglySorted_merge_sort; apply _. Qed.

End SortedFacts.

(* ================================================================== *)
(** * Job matching *)
(* ================================================================== *)

Module JobMatch.
Import Text Num Scoring TextFacts SortedFacts Notions.

Lemma elem_of_skill_set (L : list string) (x : string) :
  x ∈ skill_set L ↔ ∃ s, s ∈ L ∧ x = norm_skill s.
Proof.
  unfold skill_set. rewrite elem_of_list_to_set, list_elem_of_fmap.
  split; intros (s & H1 & H2); exists s; auto.
Qed.

Lemma skill_set_nil : skill_set [] = ∅.
Proof. reflexivity. Qed.

Lemma skill_set_nonempty (L : list string) : L ≠ [] -> skill_set L ≠ ∅.
Proof.
  destruct L as [|s L]; [congruence|]. intros _ Hempty.
  assert (H : norm_skill s ∈ skill_set (s :: L)).
  { apply elem_of_skill_set. exists s. split; [left | reflexivity]. }
  rewrite Hempty in H. set_solver.
Qed.

(** The entries of a skill set are trimmed and in lower case. *)
Lemma skill_set_normal (L : list string) (x : string) :
  x ∈ skill_set L -> strip x = x ∧ lower x = x.
Proof.
  intros (s & _ & ->)%elem_of_skill_set. unfold norm_skill. split.
  - rewrite strip_lower, strip_idemp. reflexivity.
  - apply lower_idemp.
Qed.

Lemma pct_range (m n : nat) :
  (0 < n)%nat -> (m <= n)%nat -> (0 <= of_nat m / of_nat n * 100 <= 100)%Q.
Proof.
  intros Hn Hm. unfold of_nat.
  assert (Hpos : (0 < inject_Z (Z.of_nat n))%Q).
  { unfold Qlt, inject_Z. simpl. lia. }
  split.
  - apply Qmult_le_0_compat; [|discriminate].
    apply Qle_shift_div_l; [exact Hpos|].
    unfold Qle, Qmult, inject_Z. simpl. lia.
  - apply Qle_trans with (1 * 100)%Q; [|discriminate].
    apply Qmult_le_compat_r; [|discriminate].
    apply Qle_shift_div_r; [exact Hpos|].
    unfold Qle, Qmult, inject_Z. simpl. lia.
Qed.

Lemma pct_full (n : nat) : (0 < n)%nat -> (of_nat n / of_nat n * 100 == 100)%Q.
Proof.
  intros Hn. unfold of_nat. field.
  unfold Qeq, inject_Z. simpl. lia.
Qed.

Lemma match_pct_unfold (U J : list string) :
  match_pct U J =
    if decide (skill_set J = ∅) then 0%Q
    else (of_nat (size (skill_set U ∩ skill_set J)) / of_nat (size (skill_set J)) * 100)%Q.
Proof.
  unfold match_pct, calculate_job_match. simpl.
  unfold len. rewrite length_py_sorted. reflexivity.
Qed.

Lemma size_skill_set_pos (J : list string) : skill_set J ≠ ∅ -> (0 < size (skill_set J))%nat.
Proof.
  intros Hne. destruct (size (skill_set J)) eqn:Hs; [|lia].
  apply size_empty_iff in Hs. exfalso. apply Hne. apply leibniz_equiv. exact Hs.
Qed.

(** Inclusion of the lower-cased skills carries over to the skill sets. *)
Lemma skill_set_subseteq (U J : list string) :
  (forall s, s ∈ J -> lower s ∈ lower <$> U) -> skill_set J ⊆ skill_set U.
Proof.
  intros Hincl x (s & Hs & ->)%elem_of_skill_set.
  destruct (proj1 (list_elem_of_fmap _ _ _) (Hincl s Hs)) as (u & Hu & HuU).
  apply elem_of_skill_set. exists u. split; [exact HuU|].
  unfold norm_skill. rewrite <- !strip_lower, Hu. reflexivity.
Qed.

(** C3.  For all skill lists U and J the match percentage lies between 0
    and 100; it is 0 when J is empty; it is 100 when J is not empty and
    every lower-cased skill of J is among the lower-cased skills of U. *)
Theorem match_percentage_range_empty_full :
  forall U J : list string,
    (0 <= match_pct U J <= 100)%Q
    /\ (J = [] -> match_pct U J = 0%Q)
    /\ (J ≠ [] -> (forall s, s ∈ J -> lower s ∈ lower <$> U) ->
        (match_pct U J == 100)%Q).
Proof.
  intros U J. rewrite match_pct_unfold. split; [|split].
  - destruct (decide (skill_set J = ∅)) as [|Hne]; [split; apply Qle_bool_iff; reflexivity|].
    apply pct_range; [apply size_skill_set_pos; exact Hne|].
    apply subseteq_size. set_solver.
  - intros ->. reflexivity.
  - intros HJ Hincl.
    destruct (decide (skill_set J = ∅)) as [He|Hne].
    + exfalso. exact (skill_set_nonempty J HJ He).
    + assert (Hcap : skill_set U ∩ skill_set J = skill_set J).
      { apply skill_set_subseteq in Hincl. set_solver. }
      rewrite Hcap. apply pct_full, size_skill_set_pos, Hne.
Qed.

Lemma match_percentage_range_empty_full_witness :
  match_pct ["Python"] [] = 0%Q
  /\ (match_pct ["PYTHON"; "Qiskit "; "Go"] ["Python"; "qiskit "] == 100)%Q.
Proof.
  split.
  - apply (match_percentage_range_empty_full ["Python"] []). reflexivity.
  - apply (match_percentage_range_empty_full
             ["PYTHON"; "Qiskit "; "Go"] ["Python"; "qiskit "]).
    + discriminate.
    + apply Forall_forall. apply (bool_decide_unpack _). vm_compute. exact I.
Defined.

(** C10.  For all skill lists U and J the lists [matching] and [missing]
    are sorted and without repetition, have no entry in common, consist
    of trimmed lower-cased names, and together hold exactly the trimmed
    lower-cased skills of J: [matching] those that are skills of U as
    well, [missing] the others.  Their lengths add up to the number of
    distinct trimmed lower-cased skills of J. *)
Theorem matching_missing_partition :
  forall U J : list string,
    StronglySorted String.le (matching U J)
    /\ StronglySorted String.le (missing U J)
    /\ NoDup (matching U J) /\ NoDup (missing U J)
    /\ (forall x, x ∈ matching U J -> x ∉ missing U J)
    /\ (forall x, x ∈ matching U J ∨ x ∈ missing U J ↔ x ∈ skill_set J)
    /\ (forall x, x ∈ skill_set J ↔ ∃ s, s ∈ J ∧ x = lower (strip s))
    /\ (forall x, x ∈ matching U J ↔ x ∈ skill_set J ∧ x ∈ skill_set U)
    /\ (forall x, x ∈ missing U J ↔ x ∈ skill_set J ∧ x ∉ skill_set U)
    /\ (forall x, x ∈ matching U J ∨ x ∈ missing U J -> strip x = x ∧ lower x = x)
    /\ (length (matching U J) + length (missing U J))%nat = size (skill_set J).
Proof.
  intros U J. unfold matching, missing, calculate_job_match. simpl.
  split; [apply py_sorted_sorted|].
  split; [apply py_sorted_sorted|].
  split; [apply NoDup_py_sorted|].
  split; [apply NoDup_py_sorted|].
  split; [intros x; rewrite !elem_of_py_sorted; set_solver|].
  split.
  { intros x. rewrite !elem_of_py_sorted.
    destruct (decide (x ∈ skill_set U)); set_solver. }
  split; [intros x; apply elem_of_skill_set|].
  split; [intros x; rewrite elem_of_py_sorted; set_solver|].
  split; [intros x; rewrite elem_of_py_sorted; set_solver|].
  split.
  { intros x. rewrite !elem_of_py_sorted. intros Hx.
    apply (skill_set_normal J). set_solver. }
  rewrite !length_py_sorted, <- size_union by set_solver.
  f_equal. apply leibniz_equiv. intros x.
  destruct (decide (x ∈ skill_set U)); set_solver.
Qed.

Lemma matching_missing_partition_witness :
  ("python" ∉ missing [" Python"; "GO"] ["python "; "Qiskit"; "PYTHON"])
  /\ matching [" Python"; "GO"] ["python "; "Qiskit"; "PYTHON"] = ["python"]
  /\ missing [" Python"; "GO"] ["python "; "Qiskit"; "PYTHON"] = ["qiskit"].
Proof.
  split; [|split; reflexivity].
  apply (matching_missing_partition [" Python"; "GO"] ["python "; "Qiskit"; "PYTHON"]).
  apply (bool_decide_unpack _). vm_compute. exact I.
Defined.

End JobMatch.

(* ================================================================== *)
(** * Grading of the multiple-choice answers *)
(* ================================================================== *)

Module McqGrading.
Import Num Scoring Notions FloatFacts.

Lemma foldl_mcq_step (answers : gmap string Z) (questions : list mcq_question) :
  forall (correct : nat) (details : list mcq_detail),
    foldl (mcq_step answers) (correct, details) questions
    = ((correct + correct_count answers questions)%nat,
       details ++ (mcq_detail_of answers <$> questions)).
Proof.
  induction questions as [|q questions IH]; intros correct details.
  - simpl. rewrite Nat.add_0_r, app_nil_r. reflexivity.
  - simpl. rewrite IH. unfold correct_count. rewrite filter_cons.
    fold (answer_of answers q). fold (is_correct answers q).
    fold (mcq_detail_of answers q).
    rewrite <- app_assoc. simpl.
    destruct (is_correct answers q) eqn:Hq.
    + rewrite decide_True by reflexivity. simpl. f_equal. lia.
    + rewrite decide_False by discriminate. reflexivity.
Qed.

(** What the loop of [grade_mcq_answers] computes. *)
Lemma grade_mcq_answers_spec (questions : list mcq_question) (answers : gmap string Z) :
  grade_mcq_answers questions answers
  = {| mr_score :=
         if (length questions =? 0)%nat then 0%Q
         else fmul (fdiv (of_nat (correct_count answers questions))
                      (of_nat (length questions))) 100;
       mr_correct := correct_count answers questions;
       mr_total := length questions;
       mr_details := mcq_detail_of answers <$> questions |}.
Proof. unfold grade_mcq_answers. rewrite foldl_mcq_step. reflexivity. Qed.

Lemma correct_count_le (answers : gmap string Z) (questions : list mcq_question) :
  (correct_count answers questions <= length questions)%nat.
Proof. apply length_filter. Qed.

Lemma correct_count_none (answers : gmap string Z) (questions : list mcq_question) :
  (forall q, q ∈ questions -> is_correct answers q = false) ->
  correct_count answers questions = 0%nat.
Proof.
  intros Hnone. unfold correct_count.
  induction questions as [|q questions IH]; [reflexivity|].
  rewrite filter_cons, decide_False.
  - apply IH. intros q' Hq'. apply Hnone. right. exact Hq'.
  - rewrite Hnone by left. discriminate.
Qed.

Lemma correct_count_all (answers : gmap string Z) (questions : list mcq_question) :
  (forall q, q ∈ questions -> is_correct answers q = true) ->
  correct_count answers questions = length questions.
Proof.
  intros Hall. unfold correct_count.
  induction questions as [|q questions IH]; [reflexivity|].
  rewrite filter_cons, decide_True by (apply Hall; left).
  simpl. f_equal. apply IH. intros q' Hq'. apply Hall. right. exact Hq'.
Qed.

Lemma unanswered_not_correct (answers : gmap string Z) (q : mcq_question) :
  answers !! mq_id q = None -> mq_correct_answer q ≠ -1 ->
  is_correct answers q = false.
Proof.
  intros Hnone Hne. unfold is_correct, answer_of. rewrite Hnone.
  apply Z.eqb_neq. simpl. congruence.
Qed.

Lemma of_nat_count (n m : nat) :
  (n <= m)%nat -> (0 < m)%nat ->
  (0 <= of_nat n)%Q /\ (of_nat n <= of_nat m)%Q /\ (0 < of_nat m)%Q.
Proof.
  intros Hnm Hm. unfold of_nat.
  repeat split; [rewrite <- (Zle_Qle 0) | rewrite <- Zle_Qle | rewrite <- (Zlt_Qlt 0)]; lia.
Qed.

(** The data model stores a zero-based index for every question.  A
    stored index of -1 would make the grader count the question as
    correct when it is left unanswered; the statements below on unanswered
    questions are about stored indices other than -1. *)
Lemma stored_sentinel_counted_correct :
  (∅ : gmap string Z) !! mq_id sentinel_question = None
  /\ md_correct <$> mr_details (grade_mcq_answers [sentinel_question] ∅) = [true]
  /\ mr_correct (grade_mcq_answers [sentinel_question] ∅) = 1%nat.
Proof. repeat split. Qed.

(** C5, as it is stated, fails in its formula.  With one right answer to
    the three questions of the bank the grader computes [(1 / 3) * 100] in
    floats, which is 33.33333333333333: neither 100 x 1 / 3 nor the float
    nearest to it, 33.333333333333336. *)
Lemma one_of_three_below_formula :
  mr_correct (grade_mcq_answers Api.MCQ_FALLBACK one_right) = 1%nat
  /\ mr_total (grade_mcq_answers Api.MCQ_FALLBACK one_right) = 3%nat
  /\ (mr_score (grade_mcq_answers Api.MCQ_FALLBACK one_right)
      == 2345624805922133 # 70368744177664)%Q
  /\ ~ (mr_score (grade_mcq_answers Api.MCQ_FALLBACK one_right) == 100 * 1 / 3)%Q
  /\ ~ (mr_score (grade_mcq_answers Api.MCQ_FALLBACK one_right) == rnd (100 * 1 / 3))%Q.
Proof.
  split; [reflexivity|]. split; [reflexivity|].
  split; [vm_compute; reflexivity|].
  split; intros H; vm_compute in H; discriminate.
Qed.

(** C5, amended.  For every question list and every answer map the
    grader looks at the submitted index of each question, or at the
    sentinel -1 when there is none, and counts the question as correct when
    that equals the stored index: a question without an answer is not
    counted as correct, its stored index being zero-based and so not -1.
    Hence submitting no answer scores 0, and submitting the stored index of
    every question of a list that is not empty scores 100.  In general the
    score is the float [(correct / total) * 100], which is
    100 x correct / total up to a rounding error of at most 10^-13, and 0 when
    there is no question. *)
Theorem mcq_grading_sentinel :
  forall (questions : list mcq_question) (answers : gmap string Z),
    mr_details (grade_mcq_answers questions answers) = mcq_detail_of answers <$> questions
    /\ mr_correct (grade_mcq_answers questions answers) = correct_count answers questions
    /\ mr_total (grade_mcq_answers questions answers) = length questions
    /\ (questions = [] -> mr_score (grade_mcq_answers questions answers) = 0%Q)
    /\ (questions ≠ [] ->
        mr_score (grade_mcq_answers questions answers)
        = fmul (fdiv (of_nat (correct_count answers questions))
                  (of_nat (length questions))) 100
        /\ (Qabs (mr_score (grade_mcq_answers questions answers)
                  - 100 * of_nat (correct_count answers questions)
                    / of_nat (length questions))
            <= 1 # 10 ^ 13)%Q)
    /\ (forall q, q ∈ questions -> answers !! mq_id q = None ->
        mq_correct_answer q ≠ -1 ->
        md_user_answer (mcq_detail_of answers q) = -1
        /\ md_correct (mcq_detail_of answers q) = false)
    /\ ((forall q, q ∈ questions -> mq_correct_answer q ≠ -1) ->
        (mr_score (grade_mcq_answers questions ∅) == 0)%Q)
    /\ (questions ≠ [] ->
        (forall q, q ∈ questions -> answers !! mq_id q = Some (mq_correct_answer q)) ->
        (mr_score (grade_mcq_answers questions answers) == 100)%Q).
Proof.
  intros questions answers. rewrite !grade_mcq_answers_spec. cbn [mr_score mr_details mr_correct mr_total].
  assert (Hlen : questions ≠ [] -> (0 < length questions)%nat).
  { destruct questions; [congruence | simpl; lia]. }
  split; [reflexivity|]. split; [reflexivity|]. split; [reflexivity|].
  split; [intros ->; reflexivity|].
  split.
  { intros Hne. apply Hlen in Hne.
    destruct (Nat.eqb_spec (length questions) 0) as [Hzero|_]; [lia|].
    split; [reflexivity|].
    destruct (of_nat_count _ _ (correct_count_le answers questions) Hne) as (H0 & H1 & H2).
    pose proof (pct_float_error _ _ H0 H1 H2) as He.
    assert (Heq : (100 * of_nat (correct_count answers questions) / of_nat (length questions)
                   == of_nat (correct_count answers questions) / of_nat (length questions) * 100)%Q).
    { field. intros Hz. rewrite Hz in H2. discriminate. }
    apply Qabs_Qle_condition. apply Qabs_Qle_condition in He.
    rewrite Heq. exact He. }
  split.
  { intros q _ Hnone Hvalid. cbn [md_user_answer md_correct mcq_detail_of]. split.
    - unfold answer_of. rewrite Hnone. reflexivity.
    - apply unanswered_not_correct; assumption. }
  split.
  { intros Hvalid. destruct (length questions =? 0)%nat; [reflexivity|].
    apply pct_float_zero. rewrite correct_count_none; [reflexivity|].
    intros q Hq. apply unanswered_not_correct; [apply lookup_empty | auto]. }
  intros Hne Hall. apply Hlen in Hne.
  destruct (Nat.eqb_spec (length questions) 0) as [Hzero|_]; [lia|].
  destruct (of_nat_count _ _ (le_n (length questions)) Hne) as (_ & _ & H2).
  apply pct_float_full; [exact H2|].
  rewrite correct_count_all; [reflexivity|].
  intros q Hq. unfold is_correct, answer_of. rewrite (Hall q Hq). simpl.
  apply Z.eqb_refl.
Qed.

Lemma mcq_grading_sentinel_witness :
  (mr_score (grade_mcq_answers Api.MCQ_FALLBACK ∅) == 0)%Q
  /\ (mr_score (grade_mcq_answers Api.MCQ_FALLBACK all_right) == 100)%Q.
Proof.
  split.
  - apply (mcq_grading_sentinel Api.MCQ_FALLBACK ∅).
    apply Forall_forall. apply (bool_decide_unpack _). vm_compute. exact I.
  - apply (mcq_grading_sentinel Api.MCQ_FALLBACK all_right).
    + discriminate.
    + apply Forall_forall. apply (bool_decide_unpack _). vm_compute. exact I.
Defined.

End McqGrading.

(* ================================================================== *)
(** * Grading of the coding answers *)
(* ================================================================== *)

Module CodingGrading.
Import Text Num Scoring Notions FloatFacts.

Lemma code_points_criteria (code : string) :
  code_points code
  = (if long_enough code then 30 else 0)
    + (if has_function_marker code then 30 else 0)
    + (if has_return code then 40 else 0).
Proof.
  unfold code_points, long_enough, has_function_marker, has_return.
  destruct (20 <? String.length (strip code))%nat,
    (contains "def " code || contains "function " code),
    (contains "return" code); reflexivity.
Qed.

Lemma code_points_range (code : string) : 0 <= code_points code <= 100.
Proof.
  rewrite code_points_criteria.
  destruct (long_enough code), (has_function_marker code), (has_return code); lia.
Qed.

Lemma coding_step_spec (answers : gmap string string) (score : Z)
    (details : list coding_detail) (q : coding_question) :
  coding_step answers (score, details) q
  = (score + code_points (code_of answers q), details ++ [coding_detail_of answers q]).
Proof. reflexivity. Qed.

Lemma points_sum_cons (answers : gmap string string) (q : coding_question)
    (questions : list coding_question) :
  points_sum answers (q :: questions)
  = code_points (code_of answers q) + points_sum answers questions.
Proof. reflexivity. Qed.

Lemma foldl_coding_step (answers : gmap string string) (questions : list coding_question) :
  forall (score : Z) (details : list coding_detail),
    foldl (coding_step answers) (score, details) questions
    = (score + points_sum answers questions, details ++ (coding_detail_of answers <$> questions)).
Proof.
  induction questions as [|q questions IH]; intros score details.
  - change (points_sum answers []) with 0.
    rewrite Z.add_0_r, fmap_nil, app_nil_r. reflexivity.
  - change (foldl (coding_step answers) (score, details) (q :: questions))
      with (foldl (coding_step answers) (coding_step answers (score, details) q) questions).
    rewrite coding_step_spec, IH, points_sum_cons, fmap_cons, <- app_assoc.
    f_equal. lia.
Qed.

(** What the loop of [grade_coding_answers] computes. *)
Lemma grade_coding_answers_spec (questions : list coding_question)
    (answers : gmap string string) :
  grade_coding_answers questions answers
  = {| cr_score :=
         if (length questions =? 0)%nat then 0%Q
         else fmul (fdiv (inject_Z (points_sum answers questions))
                      (of_nat (length questions) * 100)) 100;
       cr_details := coding_detail_of answers <$> questions |}.
Proof. unfold grade_coding_answers. rewrite foldl_coding_step. reflexivity. Qed.

Lemma points_sum_range (answers : gmap string string) (questions : list coding_question) :
  0 <= points_sum answers questions <= 100 * Z.of_nat (length questions).
Proof.
  induction questions as [|q questions IH]; [unfold points_sum; cbn; lia|].
  rewrite points_sum_cons. pose proof (code_points_range (code_of answers q)).
  cbn [length]. lia.
Qed.

Lemma points_sum_const (answers : gmap string string) (questions : list coding_question)
    (p : Z) :
  (forall q, q ∈ questions -> code_points (code_of answers q) = p) ->
  points_sum answers questions = p * Z.of_nat (length questions).
Proof.
  induction questions as [|q questions IH]; intros Hp; [unfold points_sum; cbn; lia|].
  rewrite points_sum_cons, (Hp q) by left.
  rewrite IH by (intros q' Hq'; apply Hp; right; exact Hq').
  cbn [length]. lia.
Qed.

Lemma points_of_total (s : Z) (n : nat) :
  0 <= s <= 100 * Z.of_nat n -> (0 < n)%nat ->
  (0 <= inject_Z s)%Q /\ (inject_Z s <= of_nat n * 100)%Q /\ (0 < of_nat n * 100)%Q.
Proof.
  intros Hs Hn. unfold of_nat. change 100%Q with (inject_Z 100).
  rewrite <- inject_Z_mult.
  repeat split; [rewrite <- (Zle_Qle 0) | rewrite <- Zle_Qle | rewrite <- (Zlt_Qlt 0)]; lia.
Qed.

(** C6, as it is stated, fails in its formula.  With 70 and 40 points for
    the two questions of the bank the formula gives 55, which is a float,
    but the grader computes [(110 / 200) * 100] in floats, which is
    55.00000000000001. *)
Lemma partial_answers_above_formula :
  cd_score <$> cr_details (grade_coding_answers Api.CODING_FALLBACK partial_answers)
  = [70; 40]
  /\ points_sum partial_answers Api.CODING_FALLBACK = 110
  /\ (100 * inject_Z (points_sum partial_answers Api.CODING_FALLBACK)
      / (100 * of_nat (length Api.CODING_FALLBACK)) == 55)%Q
  /\ (rnd 55 == 55)%Q
  /\ (cr_score (grade_coding_answers Api.CODING_FALLBACK partial_answers)
      == 7740561859543041 # 140737488355328)%Q
  /\ ~ (cr_score (grade_coding_answers Api.CODING_FALLBACK partial_answers)
        == 100 * inject_Z (points_sum partial_answers Api.CODING_FALLBACK)
           / (100 * of_nat (length Api.CODING_FALLBACK)))%Q.
Proof.
  split; [vm_compute; reflexivity|]. split; [vm_compute; reflexivity|].
  split; [vm_compute; reflexivity|]. split; [vm_compute; reflexivity|].
  split; [vm_compute; reflexivity|].
  intros H. vm_compute in H. discriminate.
Qed.

(** C6, amended.  For every list of coding questions and every answer
    map, each question is awarded 30 points if its stripped submission is
    longer than 20 characters, 30 more if the submission contains "def " or
    "function ", and 40 more if it contains "return"; the empty submission
    and a missing one get 0 points, a submission that meets the three
    criteria gets 100.  The overall score is the float
    [(sum / (number * 100)) * 100], which is
    100 x (sum of the points) / (100 x number of questions) up to a
    rounding error of at most 10^-13; it is 100 when every question gets 100
    points and 0 when every question gets 0 points, and 0 when there is no
    question. *)
Theorem coding_grading_points :
  forall (questions : list coding_question) (answers : gmap string string),
    cr_details (grade_coding_answers questions answers) = coding_detail_of answers <$> questions
    /\ (forall q, cd_score (coding_detail_of answers q)
                  = (if long_enough (code_of answers q) then 30 else 0)
                    + (if has_function_marker (code_of answers q) then 30 else 0)
                    + (if has_return (code_of answers q) then 40 else 0))
    /\ code_points "" = 0
    /\ (forall q, answers !! cq_id q = None \/ answers !! cq_id q = Some "" ->
          cd_score (coding_detail_of answers q) = 0)
    /\ (forall q, long_enough (code_of answers q) = true ->
          has_function_marker (code_of answers q) = true ->
          has_return (code_of answers q) = true ->
          cd_score (coding_detail_of answers q) = 100)
    /\ (questions = [] -> cr_score (grade_coding_answers questions answers) = 0%Q)
    /\ (questions ≠ [] ->
        cr_score (grade_coding_answers questions answers)
        = fmul (fdiv (inject_Z (points_sum answers questions))
                  (of_nat (length questions) * 100)) 100
        /\ (Qabs (cr_score (grade_coding_answers questions answers)
                  - 100 * inject_Z (points_sum answers questions)
                    / (100 * of_nat (length questions)))
            <= 1 # 10 ^ 13)%Q)
    /\ (questions ≠ [] ->
        (forall q, q ∈ questions -> cd_score (coding_detail_of answers q) = 100) ->
        (cr_score (grade_coding_answers questions answers) == 100)%Q)
    /\ ((forall q, q ∈ questions -> cd_score (coding_detail_of answers q) = 0) ->
        (cr_score (grade_coding_answers questions answers) == 0)%Q).
Proof.
  intros questions answers. rewrite !grade_coding_answers_spec.
  cbn [cr_score cr_details cd_score coding_detail_of].
  assert (Hlen : questions ≠ [] -> (0 < length questions)%nat).
  { destruct questions; [congruence | simpl; lia]. }
  pose proof (points_sum_range answers questions) as Hrange.
  split; [reflexivity|].
  split; [intros q; apply code_points_criteria|].
  split; [reflexivity|].
  split.
  { intros q [Hq|Hq]; unfold code_of; rewrite Hq; reflexivity. }
  split.
  { intros q H1 H2 H3. rewrite code_points_criteria, H1, H2, H3. reflexivity. }
  split; [intros ->; reflexivity|].
  split.
  { intros Hne. apply Hlen in Hne.
    destruct (Nat.eqb_spec (length questions) 0) as [Hzero|_]; [lia|].
    split; [reflexivity|].
    destruct (points_of_total _ _ Hrange Hne) as (H0 & H1 & H2).
    pose proof (pct_float_error _ _ H0 H1 H2) as He.
    assert (Heq : (100 * inject_Z (points_sum answers questions)
                   / (100 * of_nat (length questions))
                   == inject_Z (points_sum answers questions)
                      / (of_nat (length questions) * 100) * 100)%Q).
    { field. intros Hz. assert (Hz' : (of_nat (length questions) * 100 == 0)%Q)
        by (rewrite Hz; ring). rewrite Hz' in H2. discriminate. }
    apply Qabs_Qle_condition. apply Qabs_Qle_condition in He.
    rewrite Heq. exact He. }
  split.
  { intros Hne Hall. apply Hlen in Hne.
    destruct (Nat.eqb_spec (length questions) 0) as [Hzero|_]; [lia|].
    destruct (points_of_total _ _ Hrange Hne) as (_ & _ & H2).
    apply pct_float_full; [exact H2|].
    rewrite (points_sum_const answers questions 100 Hall).
    unfold of_nat. rewrite inject_Z_mult. ring. }
  intros Hnone. destruct (length questions =? 0)%nat; [reflexivity|].
  apply pct_float_zero.
  rewrite (points_sum_const answers questions 0 Hnone). reflexivity.
Qed.

Lemma coding_grading_points_witness :
  (Qabs (cr_score (grade_coding_answers Api.CODING_FALLBACK full_answer)
         - 100 * inject_Z (points_sum full_answer Api.CODING_FALLBACK)
           / (100 * of_nat (length Api.CODING_FALLBACK)))
   <= 1 # 10 ^ 13)%Q
  /\ cd_score <$> cr_details (grade_coding_answers Api.CODING_FALLBACK full_answer)
     = [100; 0]
  /\ (cr_score (grade_coding_answers Api.CODING_FALLBACK full_answer) == 50)%Q.
Proof.
  split; [|split].
  - apply (coding_grading_points Api.CODING_FALLBACK full_answer). discriminate.
  - vm_compute. reflexivity.
  - vm_compute. reflexivity.
Defined.

End CodingGrading.

(* ================================================================== *)
(** * The heuristic parser: years and education lines *)
(* ================================================================== *)

Module ParserFacts.
Import Text Num Parser Notions.

Lemma is_digit_val (c : ascii) : is_digit c = true -> 0 <= digit_val c <= 9.
Proof.
  unfold is_digit, between, digit_val. intros H.
  apply andb_true_iff in H as [H1 H2].
  apply N.leb_le in H1, H2. lia.
Qed.

Lemma match_year_range (s : string) (y : Z) :
  match_year s = Some y -> 1900 <= y <= 2099.
Proof.
  destruct s as [|a [|b [|c [|d rest]]]]; try discriminate. simpl.
  destruct (_ && is_digit c && is_digit d && _) eqn:Hcond; [|discriminate].
  intros [= <-].
  apply andb_true_iff in Hcond as [Hcond _].
  apply andb_true_iff in Hcond as [Hcond Hd].
  apply andb_true_iff in Hcond as [Hcent Hc].
  apply is_digit_val in Hc, Hd.
  apply orb_true_iff in Hcent as [H|H];
    apply andb_true_iff in H as [Ha Hb];
    apply Ascii.eqb_eq in Ha, Hb; subst a b;
    change (digit_val "1") with 1; change (digit_val "9") with 9;
    change (digit_val "2") with 2; change (digit_val "0") with 0; lia.
Qed.

Lemma append_empty (s : string) : "" +:+ s = s.
Proof. reflexivity. Qed.

Lemma append_String (c : ascii) (s t : string) : String c s +:+ t = String c (s +:+ t).
Proof. reflexivity. Qed.

(** The matches of the year pattern are the years that stand in the text
    as words of their own. *)
Lemma years_from_spec (s : string) :
  forall (prev : bool) (y : Z),
    y ∈ years_from prev s
    ↔ ∃ pre rest, s = pre +:+ rest ∧ word_before prev pre = false
                  ∧ match_year rest = Some y.
Proof.
  induction s as [|c s IH]; intros prev y.
  - simpl. split.
    + intros H. inversion H.
    + intros (pre & rest & Hs & _ & Hm).
      destruct pre; [|discriminate]. rewrite append_empty in Hs. subst rest.
      discriminate.
  - cbn [years_from]. rewrite elem_of_app, IH. split.
    + intros [Hhere | (pre & rest & -> & Hb & Hm)].
      * destruct prev; [inversion Hhere|].
        exists EmptyString, (String c s). split; [reflexivity|]. split; [reflexivity|].
        destruct (match_year (String c s)) as [y'|]; simpl in Hhere.
        -- apply list_elem_of_singleton in Hhere. congruence.
        -- inversion Hhere.
      * exists (String c pre), rest. auto.
    + intros (pre & rest & Hs & Hb & Hm). destruct pre as [|c' pre].
      * rewrite append_empty in Hs. simpl in Hb. subst rest prev.
        left. rewrite Hm. simpl. left.
      * rewrite append_String in Hs. injection Hs as -> ->.
        right. exists pre, rest. auto.
Qed.

Lemma extract_years_range (text : string) (y : Z) :
  y ∈ extract_years text -> 1900 <= y <= 2099.
Proof.
  intros (pre & rest & _ & _ & Hm)%years_from_spec.
  exact (match_year_range _ _ Hm).
Qed.

Lemma foldl_max_spec (l : list Z) :
  forall y, foldl Z.max y l ∈ y :: l ∧ (forall z, z ∈ y :: l -> z <= foldl Z.max y l).
Proof.
  induction l as [|x l IH]; intros y; simpl.
  - split; [left|]. intros z Hz. apply list_elem_of_singleton in Hz. lia.
  - destruct (IH (Z.max y x)) as [Hin Hmax]. split.
    + apply elem_of_cons in Hin as [Heq|Hin].
      * rewrite Heq. destruct (Z.max_spec y x) as [[_ ->]|[_ ->]];
          [right; left | left].
      * right. right. exact Hin.
    + intros z Hz.
      assert (Hyx : Z.max y x <= foldl Z.max (Z.max y x) l) by (apply Hmax; left).
      apply elem_of_cons in Hz as [->|Hz]; [lia|].
      apply elem_of_cons in Hz as [->|Hz]; [lia|].
      apply Hmax. right. exact Hz.
Qed.

Lemma max_or_none_spec (l : list Z) :
  match max_or_none l with
  | None => l = []
  | Some y => y ∈ l ∧ (forall z, z ∈ l -> z <= y)
  end.
Proof. destruct l as [|x l]; [reflexivity|]. apply foldl_max_spec. Qed.

(** ** Education lines *)

Lemma education_step_spec (education : list education_entry) (line : string) :
  education_step education line
  = education ++ (if qualifies line then [entry_of line] else []).
Proof.
  unfold education_step, qualifies, any_keyword.
  destruct (Nat.ltb_spec (String.length (strip line)) 12) as [Hlt|Hge].
  - rewrite (proj2 (Nat.leb_gt _ _) Hlt). cbn [andb].
    rewrite app_nil_r. reflexivity.
  - rewrite (proj2 (Nat.leb_le _ _) Hge). cbn [andb].
    destruct (existsb _ education_keywords);
      [reflexivity | rewrite app_nil_r; reflexivity].
Qed.

Lemma foldl_education_step (lines : list string) :
  forall education,
    foldl education_step education lines
    = education ++ (entry_of <$> filter (fun l => qualifies l = true) lines).
Proof.
  induction lines as [|line lines IH]; intros education; simpl.
  - rewrite app_nil_r. reflexivity.
  - rewrite IH, education_step_spec, filter_cons, <- app_assoc. f_equal.
    destruct (qualifies line).
    + rewrite decide_True by reflexivity. reflexivity.
    + rewrite decide_False by discriminate. reflexivity.
Qed.

(** C8, as it is stated, fails: a line of eleven characters with an
    education marker is longer than 10 characters and is not returned. *)
Lemma eleven_character_line_dropped :
  splitlines "PhD in Math" = ["PhD in Math"]
  /\ (10 < String.length "PhD in Math")%nat
  /\ contains (lower "PhD") (lower "PhD in Math") = true
  /\ parse_education "PhD in Math" = [].
Proof.
  split; [reflexivity|]. split; [vm_compute; lia|]. split; reflexivity.
Qed.

(** C8, amended.  For every text, [parse_education] returns, in the order
    of the text and capped to the first 4 of them, exactly the lines whose
    trimmed length is at least 12 characters and which contain one of the
    education markers without regard to case; each is given as its trimmed
    text with the greatest year of the line, or none when the line has no
    year.  The years of a line are the numbers 1900 to 2099 written with
    four digits as words of their own, with no letter, digit or underscore
    next to them. *)
Theorem parse_education_qualifying_lines :
  forall text : string,
    parse_education text
    = take 4 (entry_of <$> filter (fun l => qualifies l = true) (splitlines text))
    /\ (forall line,
          description (entry_of line) = strip line
          /\ (year (entry_of line) = None ↔ extract_years line = [])
          /\ (forall y, year (entry_of line) = Some y ->
                y ∈ extract_years line
                /\ (forall z, z ∈ extract_years line -> z <= y)
                /\ 1900 <= y <= 2099)
          /\ (forall y, y ∈ extract_years line
                ↔ ∃ pre rest, line = pre +:+ rest ∧ word_before false pre = false
                              ∧ match_year rest = Some y)).
Proof.
  intros text. split.
  - unfold parse_education. rewrite foldl_education_step. reflexivity.
  - intros line. split; [reflexivity|].
    pose proof (max_or_none_spec (extract_years line)) as Hmax.
    simpl. split; [|split].
    + destruct (max_or_none (extract_years line)).
      * split; [discriminate|]. intros Hnil. rewrite Hnil in Hmax.
        destruct Hmax as [Hin _]. inversion Hin.
      * split; auto.
    + intros y Hy. rewrite Hy in Hmax. destruct Hmax as [Hin Hle].
      split; [exact Hin|]. split; [exact Hle|].
      exact (extract_years_range _ _ Hin).
    + intros y. apply years_from_spec.
Qed.

Lemma parse_education_qualifying_lines_witness :
  year (entry_of "MSc, Master of Science 2019-2021 (began 2018x)") = Some 2021
  /\ 1900 <= 2021 <= 2099.
Proof.
  split; [reflexivity|].
  destruct (parse_education_qualifying_lines "") as [_ Hline].
  destruct (Hline "MSc, Master of Science 2019-2021 (began 2018x)")
    as (_ & _ & Hyear & _).
  apply (Hyear 2021). reflexivity.
Defined.

End ParserFacts.

(* ================================================================== *)
(** * The heuristic parser: determinism *)
(* ================================================================== *)

Module Determinism.
Import Text Num Parser SortedFacts ParserFacts Notions.

(** ** Technologies *)

Lemma foldl_found (text : string) (keywords : list string) :
  forall (found : gset string) (x : string),
    x ∈ foldl (fun (found : gset string) tech =>
                 if contains (upper tech) (upper text) then {[ tech ]} ∪ found else found)
              found keywords
    ↔ x ∈ found ∨ (x ∈ keywords ∧ mentioned text x = true).
Proof.
  induction keywords as [|k keywords IH]; intros found x; simpl.
  - split; [auto|]. intros [H|[H _]]; [exact H | inversion H].
  - rewrite IH. unfold mentioned.
    destruct (contains (upper k) (upper text)) eqn:Hk.
    + rewrite elem_of_union, elem_of_singleton, elem_of_cons. split.
      * intros [[->|H]|[H1 H2]]; auto.
      * intros [H|[[->|H1] H2]]; auto.
    + rewrite elem_of_cons. split.
      * intros [H|[H1 H2]]; auto.
      * intros [H|[[->|H1] H2]]; auto. congruence.
Qed.

Lemma elem_of_parse_tech_stacks (text x : string) :
  x ∈ parse_tech_stacks text ↔ x ∈ TECH_KEYWORDS ∧ mentioned text x = true.
Proof.
  unfold parse_tech_stacks. rewrite elem_of_py_sorted, foldl_found.
  split; [intros [H|H]; [set_solver | exact H] | auto].
Qed.

(** However the set of found technologies is enumerated, sorting it
    gives one list. *)
Lemma parse_tech_stacks_unique (text : string) (l : list string) :
  StronglySorted String.le l -> NoDup l ->
  (forall x, x ∈ l ↔ x ∈ TECH_KEYWORDS ∧ mentioned text x = true) ->
  l = parse_tech_stacks text.
Proof.
  intros Hsorted Hnodup Hmem.
  apply (StronglySorted_unique String.le); [exact Hsorted | |].
  - unfold parse_tech_stacks. apply py_sorted_sorted.
  - apply NoDup_Permutation; [exact Hnodup | apply NoDup_py_sorted |].
    intros x. rewrite Hmem, elem_of_parse_tech_stacks. reflexivity.
Qed.

(** ** Work experience *)

Lemma work_step_spec (exp : list work_entry) (g : rng) (line : string) :
  work_step (exp, g) line
  = if qualifies_work line
    then (exp ++ [ {| role := strip line; w_year := max_or_none (extract_years line);
                      duration := drawn g (pos g) |} ],
          {| tape := tape g; pos := S (pos g) |})
    else (exp, g).
Proof.
  unfold work_step, qualifies_work, any_keyword.
  destruct (Nat.ltb_spec (String.length (strip line)) 15) as [Hlt|Hge].
  - rewrite (proj2 (Nat.leb_gt _ _) Hlt). reflexivity.
  - rewrite (proj2 (Nat.leb_le _ _) Hge). cbn [andb].
    destruct (existsb _ work_keywords); reflexivity.
Qed.

Lemma found_lines_cons (line : string) (lines : list string) :
  found_lines (line :: lines)
  = if qualifies_work line then line :: found_lines lines else found_lines lines.
Proof.
  unfold found_lines. rewrite filter_cons.
  destruct (qualifies_work line).
  - rewrite decide_True by reflexivity. reflexivity.
  - rewrite decide_False by discriminate. reflexivity.
Qed.

Lemma foldl_work_step (lines : list string) :
  forall (exp : list work_entry) (g : rng),
    from_line <$> (foldl work_step (exp, g) lines).1
    = (from_line <$> exp) ++ (read_line <$> found_lines lines)
    /\ duration <$> (foldl work_step (exp, g) lines).1
       = (duration <$> exp) ++ (drawn g <$> seq (pos g) (length (found_lines lines)))
    /\ tape (foldl work_step (exp, g) lines).2 = tape g
    /\ pos (foldl work_step (exp, g) lines).2 = (pos g + length (found_lines lines))%nat.
Proof.
  induction lines as [|line lines IH]; intros exp g.
  - cbn. rewrite !app_nil_r, Nat.add_0_r. auto.
  - change (foldl work_step (exp, g) (line :: lines))
      with (foldl work_step (work_step (exp, g) line) lines).
    rewrite work_step_spec, found_lines_cons.
    destruct (qualifies_work line); [|apply IH].
    destruct (IH (exp ++ [ {| role := strip line;
                              w_year := max_or_none (extract_years line);
                              duration := drawn g (pos g) |} ])
                 {| tape := tape g; pos := S (pos g) |}) as (H1 & H2 & H3 & H4).
    rewrite H1, H2, H3, H4, !fmap_app, <- !app_assoc.
    cbn [tape pos length seq fmap list_fmap app from_line read_line role w_year duration].
    repeat split; try reflexivity. lia.
Qed.

Lemma drawn_range (g : rng) (i : nat) : 1 <= drawn g i <= 4.
Proof. unfold drawn. pose proof (Z.mod_pos_bound (tape g i) 4). lia. Qed.

(** C9, as it is stated, fails: two runs of [parse_work_experience] on
    one text, the second run with the random state the first one left,
    give different durations. *)
Lemma two_runs_differ :
  let run1 := parse_work_experience resume counting in
  let run2 := parse_work_experience resume run1.2 in
  duration <$> run1.1 = [1] /\ duration <$> run2.1 = [2] /\ run1.1 ≠ run2.1.
Proof. repeat split. vm_compute. discriminate. Qed.

(** C9, amended.  [parse_tech_stacks] and [parse_education] depend on
    the text alone: the first returns the one sorted list without
    repetition of the keywords the text mentions, the second the entries
    of its qualifying lines.  Two runs of [parse_work_experience] on one
    text emit entries with the same roles and years, the ones of the
    first 6 qualifying lines; the duration of each entry is a random draw
    between 1 and 4, one draw for each qualifying line of the text, and
    is not determined by the text. *)
Theorem parser_deterministic_but_duration :
  forall text : string,
    (forall l, StronglySorted String.le l -> NoDup l ->
       (forall x, x ∈ l ↔ x ∈ TECH_KEYWORDS ∧ mentioned text x = true) ->
       l = parse_tech_stacks text)
    /\ parse_education text
       = take 4 (entry_of <$> filter (fun l => qualifies l = true) (splitlines text))
    /\ (forall g1 g2 : rng,
          from_line <$> (parse_work_experience text g1).1
          = from_line <$> (parse_work_experience text g2).1)
    /\ (forall g : rng,
          from_line <$> (parse_work_experience text g).1
          = take 6 (read_line <$> found_lines (splitlines text))
          /\ duration <$> (parse_work_experience text g).1
             = take 6 (drawn g <$> seq (pos g) (length (found_lines (splitlines text))))
          /\ Forall (fun e => 1 <= duration e <= 4) (parse_work_experience text g).1
          /\ pos (parse_work_experience text g).2
             = (pos g + length (found_lines (splitlines text)))%nat).
Proof.
  intros text.
  assert (Hrun : forall g : rng,
    from_line <$> (parse_work_experience text g).1
    = take 6 (read_line <$> found_lines (splitlines text))
    /\ duration <$> (parse_work_experience text g).1
       = take 6 (drawn g <$> seq (pos g) (length (found_lines (splitlines text))))
    /\ pos (parse_work_experience text g).2
       = (pos g + length (found_lines (splitlines text)))%nat).
  { intros g. unfold parse_work_experience.
    destruct (foldl_work_step (splitlines text) [] g) as (H1 & H2 & _ & H4).
    destruct (foldl work_step ([], g) (splitlines text)) as [exp g'].
    simpl in *. rewrite !fmap_take, H1, H2. auto. }
  split; [apply parse_tech_stacks_unique|].
  split; [unfold parse_education; rewrite foldl_education_step; reflexivity|].
  split.
  { intros g1 g2. destruct (Hrun g1) as (H1 & _). destruct (Hrun g2) as (H2 & _).
    rewrite H1, H2. reflexivity. }
  intros g. destruct (Hrun g) as (H1 & H2 & H3).
  split; [exact H1|]. split; [exact H2|]. split; [|exact H3].
  apply Forall_fmap with (f := duration) (P := fun d => 1 <= d <= 4).
  rewrite H2. apply Forall_take, Forall_fmap, Forall_forall.
  intros i _. apply drawn_range.
Qed.

Lemma parser_deterministic_but_duration_witness :
  ["Docker"; "Python"] = parse_tech_stacks "python, docker"
  /\ from_line <$> (parse_work_experience resume counting).1
     = [("Software Engineer at IBM, 2019", Some 2019)].
Proof.
  split.
  - apply (parser_deterministic_but_duration "python, docker").
    + repeat constructor.
    + apply (bool_decide_unpack _). vm_compute. exact I.
    + intros x. rewrite <- elem_of_parse_tech_stacks.
      replace (parse_tech_stacks "python, docker") with ["Docker"; "Python"]
        by (vm_compute; reflexivity).
      reflexivity.
  - reflexivity.
Defined.

End Determinism.

(* ================================================================== *)
(** * Job recommendations *)
(* ================================================================== *)

Module Recommendations.
Import Num Scoring Api NumFacts JobMatch Notions.

Lemma positive_spec (x : Q) : positive x = true ↔ (0 < x)%Q.
Proof.
  unfold positive. rewrite negb_true_iff. split.
  - intros H. apply Qnot_le_lt. intros Hle.
    apply Qle_bool_iff in Hle. congruence.
  - intros H. destruct (Qle_bool x 0) eqn:Hb; [|reflexivity].
    apply Qle_bool_iff in Hb. lra.
Qed.

(** ** The stable sort *)

Section SortFacts.
Context {A : Type} (key : A -> Q).

(** [earlier a b]: [a] stood in front of [b] before the sort. *)
Variable earlier : A -> A -> Prop.

Lemma insert_desc_Permutation (x : A) (l : list A) : insert_desc key x l ≡ₚ x :: l.
Proof.
  induction l as [|y l IH]; simpl; [reflexivity|].
  destruct (positive (key y - key x)); [|reflexivity].
  rewrite IH. apply Permutation_swap.
Qed.

Lemma sort_desc_Permutation (l : list A) : sort_desc key l ≡ₚ l.
Proof.
  induction l as [|x l IH]; simpl; [reflexivity|].
  rewrite insert_desc_Permutation, IH. reflexivity.
Qed.

Lemma insert_desc_ranked (x : A) (l : list A) :
  Forall (earlier x) l -> StronglySorted (ranked key earlier) l ->
  StronglySorted (ranked key earlier) (insert_desc key x l).
Proof.
  intros Hx Hsorted. induction Hsorted as [|y l Hsorted IH Hy]; simpl.
  - repeat constructor.
  - apply Forall_cons in Hx as [Hxy Hxl].
    destruct (positive (key y - key x)) eqn:Hpos.
    + apply positive_spec in Hpos. constructor; [apply IH; exact Hxl|].
      rewrite insert_desc_Permutation. constructor; [|exact Hy].
      left. lra.
    + assert (Hle : (key y <= key x)%Q).
      { apply Qnot_lt_le. intros Hlt.
        assert (Hp : positive (key y - key x) = true) by (apply positive_spec; lra).
        congruence. }
      constructor; [constructor; assumption|].
      constructor.
      * destruct (Qlt_le_dec (key y) (key x)) as [Hlt|Hge]; [left; exact Hlt|].
        right. split; [lra | exact Hxy].
      * rewrite Forall_forall in Hy, Hxl |- *. intros z Hz.
        assert (Hzy : (key z <= key y)%Q).
        { destruct (Hy z Hz) as [Hlt|[Heq _]]; lra. }
        destruct (Qlt_le_dec (key z) (key x)) as [Hlt|Hge]; [left; exact Hlt|].
        right. split; [lra | exact (Hxl z Hz)].
Qed.

(** The sort is stable. *)
Lemma sort_desc_ranked (l : list A) :
  StronglySorted earlier l -> StronglySorted (ranked key earlier) (sort_desc key l).
Proof.
  intros Hl. induction Hl as [|x l Hl IH Hx]; simpl; [constructor|].
  apply insert_desc_ranked; [|exact IH].
  rewrite sort_desc_Permutation. exact Hx.
Qed.
End SortFacts.

(** ** The loop over the catalog *)

Lemma foldl_recommend_step (user_skills : list string) (jobs : list JobPosting) :
  forall recs, foldl (recommend_step user_skills) recs jobs
               = recs ++ omap (rec_of user_skills) jobs.
Proof.
  induction jobs as [|job jobs IH]; intros recs; simpl.
  - rewrite app_nil_r. reflexivity.
  - rewrite IH. unfold recommend_step, rec_of, match_pct, matching, missing.
    destruct (calculate_job_match user_skills (jp_required_skills job)) as [[pct m] mi].
    simpl. destruct (positive pct); [rewrite <- app_assoc|]; reflexivity.
Qed.

Lemma omap_rec_of_sorted (user_skills : list string) (front back : list JobPosting) :
  QUANTUM_JOBS = front ++ back ->
  StronglySorted catalog_before (omap (rec_of user_skills) back).
Proof.
  revert front. induction back as [|job back IH]; intros front Hcat; simpl.
  - constructor.
  - assert (Hcat' : QUANTUM_JOBS = (front ++ [job]) ++ back)
      by (rewrite <- app_assoc; exact Hcat).
    destruct (rec_of user_skills job) as [r|] eqn:Hr; [|exact (IH _ Hcat')].
    constructor; [exact (IH _ Hcat')|].
    apply Forall_forall. intros r' Hr'.
    apply list_elem_of_omap in Hr' as (job' & Hjob' & Hrec').
    apply list_elem_of_lookup in Hjob' as [k Hk].
    exists (length front), (length front + S k)%nat.
    split; [lia|]. rewrite Hcat. split.
    + rewrite lookup_app_r, Nat.sub_diag by lia. simpl.
      unfold rec_of in Hr. destruct (positive _); [|discriminate].
      injection Hr as <-. reflexivity.
    + rewrite lookup_app_r by lia.
      replace (length front + S k - length front)%nat with (S k) by lia.
      simpl. rewrite Hk. simpl.
      unfold rec_of in Hrec'. destruct (positive _); [|discriminate].
      injection Hrec' as <-. reflexivity.
Qed.

(** ** Positive percentages stay positive when rounded *)

Lemma size_skill_set_le (L : list string) : (size (skill_set L) <= length L)%nat.
Proof.
  unfold skill_set. induction L as [|s L IH].
  - rewrite fmap_nil, list_to_set_nil, size_empty. reflexivity.
  - rewrite fmap_cons, list_to_set_cons, size_union_alt, size_singleton.
    assert (size (list_to_set (norm_skill <$> L) ∖ ({[norm_skill s]} : gset string))
            <= size (list_to_set (norm_skill <$> L) : gset string))%nat
      by (apply subseteq_size; set_solver).
    cbn [length]. lia.
Qed.

Lemma rounded_positive (U J : list string) :
  (length J <= 100)%nat -> (0 < match_pct U J)%Q -> (0 < round2 (match_pct U J))%Q.
Proof.
  intros Hlen. rewrite match_pct_unfold.
  destruct (decide (skill_set J = ∅)) as [|Hne]; [intros H; inversion H|].
  intros Hpos.
  pose proof (size_skill_set_le J) as Hsize.
  pose proof (size_skill_set_pos J Hne) as Hn.
  set (m := size (skill_set U ∩ skill_set J)) in *.
  set (n := size (skill_set J)) in *.
  assert (Hnpos : (0 < of_nat n)%Q) by (unfold of_nat, Qlt, inject_Z; simpl; lia).
  assert (Hm : (0 < m)%nat).
  { destruct m; [|lia]. exfalso. revert Hpos.
    unfold of_nat, Qlt, Qdiv, Qmult. simpl. lia. }
  assert (Hone : (1 <= of_nat m / of_nat n * 100)%Q).
  { assert (Heq : (of_nat m / of_nat n * 100 == of_nat m * 100 / of_nat n)%Q)
      by (field; lra).
    rewrite Heq. apply Qle_shift_div_l; [exact Hnpos|].
    unfold of_nat, Qle, Qmult, inject_Z. simpl. lia. }
  apply Qlt_le_trans with (round2 1); [reflexivity|].
  apply round2_mono. exact Hone.
Qed.

Lemma catalog_skills_short :
  Forall (fun job => (length (jp_required_skills job) <= 100)%nat) QUANTUM_JOBS.
Proof. repeat constructor; simpl; lia. Qed.

(** C4.  For every user with a stored resume analysis the route answers
    with a recommendation list that has at most 3 entries, each built from
    a job of the catalog whose match percentage is strictly positive
    (before and after rounding), sorted by falling match percentage, jobs
    of equal percentage in the order of the catalog.  The list holds the
    first 3 entries of the sorted list of all jobs of positive match, and
    is what the route stores for the user. *)
Theorem recommendations_sorted_positive_top3 :
  forall (st : store) (user_id : string) (analysis : ResumeAnalysis),
    resume_data st !! user_id = Some analysis ->
    ∃ (recs : list JobRecommendation) (st' : store),
      get_job_recommendations user_id st = (Ok (recs, QUANTUM_JOBS), st')
      ∧ job_recommendations_data st' !! user_id = Some recs
      ∧ (length recs <= 3)%nat
      ∧ (forall r, r ∈ recs ->
           ∃ job, job ∈ QUANTUM_JOBS
             ∧ job_id r = jp_id job ∧ title r = jp_title job ∧ company r = jp_company job
             ∧ (0 < match_pct (ra_tech_stacks analysis) (jp_required_skills job))%Q
             ∧ match_percentage r
               = round2 (match_pct (ra_tech_stacks analysis) (jp_required_skills job))
             ∧ (0 < match_percentage r)%Q)
      ∧ StronglySorted (ranked match_percentage catalog_before) recs
      ∧ ∃ ranking,
          recs = take 3 ranking
          ∧ ranking ≡ₚ omap (rec_of (ra_tech_stacks analysis)) QUANTUM_JOBS
          ∧ StronglySorted (ranked match_percentage catalog_before) ranking.
Proof.
  intros st user_id analysis Hstored.
  set (U := ra_tech_stacks analysis).
  set (ranking := sort_desc match_percentage (omap (rec_of U) QUANTUM_JOBS)).
  assert (Hrec : recommend U = take 3 ranking).
  { unfold recommend. rewrite foldl_recommend_step. reflexivity. }
  assert (Hsorted : StronglySorted (ranked match_percentage catalog_before) ranking).
  { apply sort_desc_ranked. apply (omap_rec_of_sorted U []). reflexivity. }
  assert (Hperm : ranking ≡ₚ omap (rec_of U) QUANTUM_JOBS)
    by apply sort_desc_Permutation.
  exists (take 3 ranking). eexists. unfold get_job_recommendations.
  rewrite Hstored. fold U. rewrite Hrec.
  split; [reflexivity|]. simpl.
  split; [apply lookup_insert_eq|].
  split; [rewrite length_take; lia|].
  split.
  { intros r Hr. apply elem_of_take in Hr as (i & Hr & _).
    apply list_elem_of_lookup_2 in Hr. rewrite Hperm in Hr.
    apply list_elem_of_omap in Hr as (job & Hjob & Hr).
    exists job. split; [exact Hjob|].
    unfold rec_of in Hr.
    destruct (positive (match_pct U (jp_required_skills job))) eqn:Hpos; [|discriminate].
    injection Hr as <-. simpl. apply positive_spec in Hpos.
    repeat split; try reflexivity; try exact Hpos.
    apply rounded_positive; [|exact Hpos].
    exact (proj1 (Forall_forall _ _) catalog_skills_short job Hjob). }
  split.
  { rewrite <- (take_drop 3 ranking) in Hsorted.
    exact (StronglySorted_app_1_l _ _ _ Hsorted). }
  exists ranking. auto.
Qed.

Lemma recommendations_sorted_positive_top3_witness :
  ∃ (recs : list JobRecommendation) (st' : store),
    get_job_recommendations "u1" demo_store = (Ok (recs, QUANTUM_JOBS), st')
    ∧ (length recs <= 3)%nat
    ∧ StronglySorted (ranked match_percentage catalog_before) recs.
Proof.
  destruct (recommendations_sorted_positive_top3 demo_store "u1" demo_analysis)
    as (recs & st' & Hrun & _ & Hlen & _ & Hsorted & _).
  - vm_compute. reflexivity.
  - exists recs, st'. auto.
Defined.

(** Two jobs at 40 percent: the one that comes first in the catalog is
    recommended first. *)
Example recommend_ties_in_catalog_order :
  (fun r => (job_id r, match_percentage r)) <$> recommend (ra_tech_stacks demo_analysis)
  = [("qjob2", 5000 # 100); ("qjob1", 4000 # 100); ("qjob3", 4000 # 100)]%Q.
Proof. vm_compute. reflexivity. Qed.

End Recommendations.

(* ================================================================== *)
(** * Recovery of JSON *)
(* ================================================================== *)

Module JsonRecovery.
Import Text Json Notions.

Section Recovery.
Variable loads : string -> option json.

(** A value that is returned was decoded by one of the four attempts. *)
Lemma safe_json_loads_Return (text : string) (v : json) :
  safe_json_loads loads text = Return v ->
  loads text = Some v ∨ fenced_attempt loads text = Some v
  ∨ curly_attempt loads text = Some v ∨ loads (cleaned text) = Some v.
Proof.
  unfold safe_json_loads.
  destruct (is_empty text); [discriminate|].
  destruct (loads text) as [v1|]; [intros [= ->]; auto|].
  destruct (fenced_attempt loads text) as [v2|]; [intros [= ->]; auto|].
  destruct (curly_attempt loads text) as [v3|]; [intros [= ->]; auto|].
  destruct (loads (cleaned text)) as [v4|]; [intros [= ->]; auto|].
  discriminate.
Qed.

(** When the four attempts fail, the call raises. *)
Lemma safe_json_loads_Raise (text : string) :
  loads text = None -> fenced_attempt loads text = None ->
  curly_attempt loads text = None -> loads (cleaned text) = None ->
  ∃ e, safe_json_loads loads text = Raise e.
Proof.
  intros H1 H2 H3 H4. unfold safe_json_loads. rewrite H1, H2, H3, H4.
  destruct (is_empty text); eauto.
Qed.

Lemma fenced_reply_block : strip <$> JSON_BLOCK_RE_search fenced_reply = Some raw_reply.
Proof. vm_compute. reflexivity. Qed.
End Recovery.

(** C7.  Whatever [json.loads] is, as long as it decodes the raw reply
    to the object with the one member "a": 1 and rejects the fenced reply
    as a whole: [safe_json_loads] recovers that object from the fenced
    reply and from the raw one; on every text on which the four attempts
    (the text itself, the fenced block, the span from the first opening to
    the last closing brace, the repaired text) fail it raises an error and
    returns nothing, no empty object either; and a value it returns is
    always the value one of the four attempts decoded. *)
Theorem safe_json_loads_recovers_or_raises :
  forall loads : string -> option json,
    loads raw_reply = Some object_a1 ->
    loads fenced_reply = None ->
    safe_json_loads loads fenced_reply = Return object_a1
    /\ safe_json_loads loads raw_reply = Return object_a1
    /\ (forall text,
          loads text = None -> fenced_attempt loads text = None ->
          curly_attempt loads text = None -> loads (cleaned text) = None ->
          (∃ e, safe_json_loads loads text = Raise e)
          /\ safe_json_loads loads text ≠ Return (JObj []))
    /\ (forall text v,
          safe_json_loads loads text = Return v ->
          loads text = Some v ∨ fenced_attempt loads text = Some v
          ∨ curly_attempt loads text = Some v ∨ loads (cleaned text) = Some v).
Proof.
  intros loads Hraw Hfenced. split; [|split; [|split]].
  - unfold safe_json_loads, fenced_attempt. rewrite Hfenced.
    pose proof fenced_reply_block as Hblock.
    destruct (JSON_BLOCK_RE_search fenced_reply) as [g|]; [|discriminate].
    injection Hblock as ->. rewrite Hraw. reflexivity.
  - unfold safe_json_loads. rewrite Hraw. reflexivity.
  - intros text H1 H2 H3 H4. split.
    + apply safe_json_loads_Raise; assumption.
    + destruct (safe_json_loads_Raise loads text H1 H2 H3 H4) as [e He].
      rewrite He. discriminate.
  - apply safe_json_loads_Return.
Qed.

Lemma safe_json_loads_recovers_or_raises_witness :
  safe_json_loads loads_core fenced_reply = Return object_a1
  /\ safe_json_loads loads_core raw_reply = Return object_a1
  /\ ∃ e, safe_json_loads loads_core "Sorry, I cannot answer that." = Raise e.
Proof.
  destruct (safe_json_loads_recovers_or_raises loads_core)
    as (Hf & Hr & Hfail & _).
  - vm_compute. reflexivity.
  - vm_compute. reflexivity.
  - split; [exact Hf|]. split; [exact Hr|].
    apply (Hfail "Sorry, I cannot answer that."); vm_compute; reflexivity.
Defined.

(** The attempts in turn: a fenced list with a trailing comma is decoded
    by the last one only, and a text with braces that hold no JSON is
    given up. *)
Example repaired_reply :
  safe_json_loads loads_core "`[1, 2, ]`" = Return (JArr [JNum 1; JNum 2]).
Proof. vm_compute. reflexivity. Qed.

Example unparsable_reply :
  safe_json_loads loads_core "The answer is {not json}" = Raise JSONDecodeError
  /\ safe_json_loads loads_core "" = Raise (ValueError "Empty content").
Proof. split; vm_compute; reflexivity. Qed.

End JsonRecovery.

(* ================================================================== *)
(** * Test sessions *)
(* ================================================================== *)

Module Sessions.
Import Scoring Api Notions.

Lemma start_test_stores_dict (gen : generated) (uuid : string) (now now' : Z)
    (user_id : string) (st : store) :
  ∃ fields,
    test_sessions (start_test gen uuid now now' user_id st).2 !! uuid = Some (SessionDict fields)
    ∧ ts_status fields = "active" ∧ ts_id fields = uuid.
Proof. eexists. simpl. rewrite lookup_insert_eq. auto. Qed.

(** C1 fails on the code.  [start_test] stores the session as a plain
    dictionary and [submit_test] reads it through attributes: for every
    session [start_test] created, whatever the answers and the time, the
    first [submit_test] ends in an [AttributeError], answered with status
    500.  No result is returned or stored, the session stays active, and a
    second [submit_test] ends the same way, not with status 400. *)
Theorem submit_test_after_start_test_fails :
  forall (gen : generated) (uuid : string) (now now' : Z) (user_id : string) (st : store)
         (mcq mcq' : gmap string Z) (coding coding' : gmap string string)
         (later later' : Z),
    let st1 := (start_test gen uuid now now' user_id st).2 in
    let first := submit_test (submission_for uuid mcq coding) later st1 in
    let second := submit_test (submission_for uuid mcq' coding') later' first.2 in
    first = (Uncaught no_attribute, st1)
    /\ status_of first.1 = 500
    /\ test_results first.2 = test_results st
    /\ (∃ fields, test_sessions first.2 !! uuid = Some (SessionDict fields)
                  ∧ ts_status fields = "active")
    /\ second = (Uncaught no_attribute, st1)
    /\ status_of second.1 ≠ 400.
Proof.
  intros gen uuid now now' user_id st mcq mcq' coding coding' later later' st1.
  assert (Hsubmit : forall m c t,
            submit_test (submission_for uuid m c) t st1 = (Uncaught no_attribute, st1)).
  { intros m c t. unfold submit_test, st1. simpl.
    rewrite lookup_insert_eq. reflexivity. }
  cbv zeta. rewrite !Hsubmit. cbn [fst snd].
  split; [reflexivity|]. split; [reflexivity|]. split; [reflexivity|].
  split.
  { unfold st1. simpl. rewrite lookup_insert_eq. eauto. }
  split; [reflexivity|]. simpl. discriminate.
Qed.

(** The route does what C1 says on a session that is held as a model
    instance, as its body expects: an active session that has not expired
    is graded and completed once, and submitting again is answered with
    status 400 and leaves the stored result alone. *)
Lemma submit_test_on_model_once (st : store) (fields : TestSession)
    (sub sub' : TestSubmission) (now now' : Z) :
  test_sessions st !! session_id sub = Some (SessionModel fields) ->
  ts_status fields = "active" -> now <= ts_expires_at fields ->
  session_id sub' = session_id sub ->
  ∃ result st1,
    submit_test sub now st = (Ok result, st1)
    ∧ test_results st1 !! session_id sub = Some result
    ∧ test_sessions st1 !! session_id sub
      = Some (SessionModel (set_status "completed" fields))
    ∧ ∃ st2, submit_test sub' now' st1
             = (HTTPException 400 "Test session is not active", st2)
             ∧ test_results st2 !! session_id sub = Some result.
Proof.
  intros Hsession Hactive Hnow Hsame.
  unfold submit_test at 1. rewrite Hsession. cbn [attributes].
  replace (ts_expires_at fields <? now) with false
    by (symmetry; apply Z.ltb_ge; exact Hnow).
  rewrite Hactive. cbn [String.eqb negb].
  change (negb (String.eqb "active" "active")) with false. cbv iota.
  eexists. eexists. split; [reflexivity|].
  split; [simpl; apply lookup_insert_eq|].
  split; [simpl; apply lookup_insert_eq|].
  unfold submit_test. rewrite Hsame. cbn [test_sessions write_session write_result].
  rewrite lookup_insert_eq. cbn [attributes].
  destruct (ts_expires_at (set_status "completed" fields) <? now');
    eexists; (split; [reflexivity|]); simpl; apply lookup_insert_eq.
Qed.

End Sessions.

(* ================================================================== *)
(** * Facts about appended texts *)
(* ================================================================== *)

Module StringFacts.
Import Text Notions.

Lemma app_empty_l (s : string) : "" +:+ s = s.
Proof. reflexivity. Qed.

Lemma app_cons (c : ascii) (s t : string) : String c s +:+ t = String c (s +:+ t).
Proof. reflexivity. Qed.

Lemma app_empty_r (s : string) : s +:+ "" = s.
Proof. induction s as [|c s IH]; [reflexivity|]. rewrite app_cons, IH. reflexivity. Qed.

Lemma app_assoc (s t u : string) : (s +:+ t) +:+ u = s +:+ (t +:+ u).
Proof.
  induction s as [|c s IH]; [reflexivity|]. rewrite !app_cons, IH. reflexivity.
Qed.

Lemma has_char_cons (c d : ascii) (s : string) :
  has_char c (String d s) = Ascii.eqb c d || has_char c s.
Proof. reflexivity. Qed.

Lemma has_char_app (c : ascii) (s t : string) :
  has_char c (s +:+ t) = has_char c s || has_char c t.
Proof.
  induction s as [|d s IH]; [reflexivity|].
  rewrite app_cons, !has_char_cons, IH, orb_assoc. reflexivity.
Qed.

Lemma prefix_cons (c d : ascii) (s t : string) :
  String.prefix (String c s) (String d t) = Ascii.eqb c d && String.prefix s t.
Proof.
  simpl. destruct (Ascii.eqb_spec c d) as [->|Hne].
  - destruct (ascii_dec d d); [reflexivity | congruence].
  - destruct (ascii_dec c d); [congruence | reflexivity].
Qed.

Lemma prefix_app (s t : string) : String.prefix s (s +:+ t) = true.
Proof.
  induction s as [|c s IH]; [destruct t; reflexivity|].
  rewrite app_cons, prefix_cons, Ascii.eqb_refl, IH. reflexivity.
Qed.

Lemma lower_app (s t : string) : lower (s +:+ t) = lower s +:+ lower t.
Proof.
  induction s as [|c s IH]; [reflexivity|].
  rewrite app_cons. unfold lower in *. simpl. rewrite IH. reflexivity.
Qed.

Lemma drop_app (s t : string) : drop (String.length s) (s +:+ t) = t.
Proof. induction s as [|c s IH]; [reflexivity|]. simpl. exact IH. Qed.

Lemma length_lower (s : string) : String.length (lower s) = String.length s.
Proof.
  induction s as [|c s IH]; [reflexivity|]. unfold lower in *. simpl. rewrite IH.
  reflexivity.
Qed.

Lemma is_empty_app (s t : string) : is_empty (s +:+ t) = is_empty s && is_empty t.
Proof. destruct s; reflexivity. Qed.

End StringFacts.

(* ================================================================== *)
(** * The two patterns of the JSON recovery *)
(* ================================================================== *)

Module JsonPatterns.
Import Text Json Notions TextFacts StringFacts.

Lemma upto_last_brace_None (s : string) :
  upto_last_brace s = None ↔ has_char "}" s = false.
Proof.
  induction s as [|c s IH]; [split; reflexivity|].
  cbn [upto_last_brace has_char].
  destruct (upto_last_brace s) as [r|].
  - split; [discriminate|]. intros H. apply orb_false_iff in H as [_ H].
    apply IH in H. discriminate.
  - rewrite (proj1 IH eq_refl), orb_false_r.
    destruct (Ascii.eqb_spec c "}") as [->|Hne].
    + split; discriminate.
    + split; [|reflexivity]. intros _.
      destruct (Ascii.eqb_spec "}" c); [congruence | reflexivity].
Qed.

Lemma upto_last_brace_Some (s r : string) :
  upto_last_brace s = Some r ->
  ∃ body post, r = body +:+ rbrace ∧ s = r +:+ post ∧ has_char "}" post = false.
Proof.
  revert r. induction s as [|c s IH]; intros r; [discriminate|].
  cbn [upto_last_brace].
  destruct (upto_last_brace s) as [r'|] eqn:Hs.
  - intros [= <-]. destruct (IH r' eq_refl) as (body & post & -> & Hs' & Hpost).
    exists (String c body), post. rewrite !app_cons, <- Hs'. auto.
  - destruct (Ascii.eqb_spec c "}") as [->|Hne]; [|discriminate].
    intros [= <-]. exists "", s. split; [reflexivity|]. split; [reflexivity|].
    apply upto_last_brace_None. exact Hs.
Qed.

Lemma upto_last_brace_app (body post : string) :
  has_char "}" post = false ->
  upto_last_brace (body +:+ rbrace +:+ post) = Some (body +:+ rbrace).
Proof.
  intros Hpost. induction body as [|c body IH].
  - rewrite !app_empty_l. unfold rbrace. rewrite app_cons, app_empty_l.
    cbn [upto_last_brace]. rewrite (proj2 (upto_last_brace_None post) Hpost).
    reflexivity.
  - rewrite !app_cons. cbn [upto_last_brace]. rewrite IH. reflexivity.
Qed.

Lemma curly_search_skip (pre text : string) :
  has_char "{" pre = false ->
  CURLY_EXTRACT_RE_search (pre +:+ text) = CURLY_EXTRACT_RE_search text.
Proof.
  induction pre as [|c pre IH]; [reflexivity|].
  rewrite has_char_cons. intros H. apply orb_false_iff in H as [Hc Hpre].
  rewrite app_cons. cbn [CURLY_EXTRACT_RE_search].
  destruct (Ascii.eqb_spec c "{") as [->|Hne]; [discriminate|]. exact (IH Hpre).
Qed.

Lemma curly_search_no_close (text : string) :
  has_char "}" text = false -> CURLY_EXTRACT_RE_search text = None.
Proof.
  induction text as [|c text IH]; [reflexivity|].
  rewrite has_char_cons. intros H. apply orb_false_iff in H as [_ Htext].
  cbn [CURLY_EXTRACT_RE_search].
  rewrite (proj2 (upto_last_brace_None text) Htext), (IH Htext).
  destruct (Ascii.eqb c "{"); reflexivity.
Qed.

(** X1.  What the brace pattern finds: the span from the first opening
    brace of the text to its last closing brace, when a closing brace
    stands behind the first opening one; nothing otherwise. *)
Theorem curly_search_first_to_last :
  forall text : string,
    match CURLY_EXTRACT_RE_search text with
    | Some frag =>
        ∃ pre body post,
          text = pre +:+ frag +:+ post ∧ frag = lbrace +:+ body +:+ rbrace
          ∧ has_char "{" pre = false ∧ has_char "}" post = false
    | None =>
        forall pre rest, text = pre +:+ lbrace +:+ rest -> has_char "}" rest = false
    end.
Proof.
  induction text as [|c text IH].
  - cbn. intros pre rest H. destruct pre; discriminate.
  - cbn [CURLY_EXTRACT_RE_search].
    destruct (Ascii.eqb_spec c "{") as [->|Hne].
    + destruct (upto_last_brace text) as [r|] eqn:Hr; cbn [fmap option_fmap option_map].
      * destruct (upto_last_brace_Some _ _ Hr) as (body & post & -> & Htext & Hpost).
        exists "", body, post. rewrite app_empty_l. unfold lbrace.
        rewrite !app_cons, !app_empty_l, <- Htext. auto.
      * apply upto_last_brace_None in Hr.
        rewrite (curly_search_no_close text Hr).
        intros pre rest Heq. destruct pre as [|d pre].
        -- rewrite app_empty_l in Heq. unfold lbrace in Heq.
           rewrite app_cons, app_empty_l in Heq. injection Heq as <-. exact Hr.
        -- rewrite app_cons in Heq. injection Heq as _ ->.
           rewrite !has_char_app in Hr.
           apply orb_false_iff in Hr as [_ Hr]. apply orb_false_iff in Hr as [_ Hr].
           exact Hr.
    + destruct (CURLY_EXTRACT_RE_search text) as [frag|].
      * destruct IH as (pre & body & post & -> & -> & Hpre & Hpost).
        exists (String c pre), body, post. rewrite app_cons, has_char_cons, Hpre.
        destruct (Ascii.eqb_spec "{" c); [congruence|]. auto.
      * intros pre rest Heq. destruct pre as [|d pre].
        -- rewrite app_empty_l in Heq. unfold lbrace in Heq.
           rewrite app_cons in Heq. congruence.
        -- rewrite app_cons in Heq. injection Heq as _ ->. eapply IH. reflexivity.
Qed.

Lemma curly_search_first_to_last_witness :
  has_char "}" " brace" = false.
Proof.
  pose proof (curly_search_first_to_last "no closing { brace") as Hnone.
  cbv in Hnone. apply (Hnone "no closing " " brace"). reflexivity.
Defined.

Lemma curly_search_object (pre body post : string) :
  has_char "{" pre = false -> has_char "}" post = false ->
  CURLY_EXTRACT_RE_search (pre +:+ (lbrace +:+ body +:+ rbrace) +:+ post)
  = Some (lbrace +:+ body +:+ rbrace).
Proof.
  intros Hpre Hpost. rewrite (curly_search_skip _ _ Hpre).
  unfold lbrace. rewrite !app_cons, !app_empty_l. cbn [CURLY_EXTRACT_RE_search].
  rewrite Ascii.eqb_refl, app_assoc, (upto_last_brace_app body post Hpost).
  reflexivity.
Qed.

(** ** Fenced blocks *)

Lemma prefix_fence_cons (c : ascii) (s : string) :
  Ascii.eqb "`" c = false -> String.prefix fence (String c s) = false.
Proof. intros Hc. unfold fence. rewrite prefix_cons, Hc. reflexivity. Qed.

Lemma before_fence_found (g rest : string) :
  has_char "`" g = false -> before_fence (g +:+ fence +:+ rest) = Some g.
Proof.
  induction g as [|c g IH]; intros Hg.
  - rewrite app_empty_l. destruct (fence +:+ rest) eqn:Heq; [discriminate|].
    cbn [before_fence]. rewrite <- Heq, prefix_app. reflexivity.
  - rewrite has_char_cons in Hg. apply orb_false_iff in Hg as [Hc Hg].
    rewrite app_cons. cbn [before_fence].
    rewrite (prefix_fence_cons _ _ Hc), (IH Hg). reflexivity.
Qed.

Lemma block_search_skip (pre text : string) :
  has_char "`" pre = false ->
  JSON_BLOCK_RE_search (pre +:+ text) = JSON_BLOCK_RE_search text.
Proof.
  induction pre as [|c pre IH]; [reflexivity|].
  rewrite has_char_cons. intros H. apply orb_false_iff in H as [Hc Hpre].
  rewrite app_cons. cbn [JSON_BLOCK_RE_search].
  rewrite (prefix_fence_cons _ _ Hc). exact (IH Hpre).
Qed.

Lemma block_search_no_backtick (text : string) :
  has_char "`" text = false -> JSON_BLOCK_RE_search text = None.
Proof.
  intros H. rewrite <- (app_empty_r text). rewrite (block_search_skip _ _ H).
  reflexivity.
Qed.

Lemma lstrip_pad (ws s : string) : all_space ws = true -> lstrip (ws +:+ s) = lstrip s.
Proof.
  induction ws as [|c ws IH]; [reflexivity|]. cbn [all_space].
  intros H. apply andb_true_iff in H as [Hc Hws].
  rewrite app_cons. cbn [lstrip]. rewrite Hc. exact (IH Hws).
Qed.

Lemma rstrip_all_space (ws : string) : all_space ws = true -> rstrip ws = "".
Proof.
  induction ws as [|c ws IH]; [reflexivity|]. cbn [all_space].
  intros H. apply andb_true_iff in H as [Hc Hws].
  cbn [rstrip]. rewrite (IH Hws), Hc. reflexivity.
Qed.

Lemma rstrip_pad (s ws : string) : all_space ws = true -> rstrip (s +:+ ws) = rstrip s.
Proof.
  intros Hws. induction s as [|c s IH].
  - rewrite app_empty_l. apply rstrip_all_space. exact Hws.
  - rewrite app_cons. cbn [rstrip]. rewrite IH. reflexivity.
Qed.

(** White space around a text is stripped with the text's own. *)
Lemma strip_pad (ws1 s ws2 : string) :
  all_space ws1 = true -> all_space ws2 = true ->
  strip (ws1 +:+ s +:+ ws2) = strip s.
Proof.
  intros H1 H2. unfold strip.
  rewrite <- app_assoc, (rstrip_pad _ _ H2), <- rstrip_lstrip, (lstrip_pad _ _ H1).
  apply rstrip_lstrip.
Qed.

Lemma block_at_found (tag ws1 g rest : string) :
  (tag = "" ∧ ws1 ≠ "" ∨ lower tag = "json") ->
  all_space ws1 = true -> has_char "`" (ws1 +:+ g) = false ->
  block_at (tag +:+ (ws1 +:+ g) +:+ fence +:+ rest) = Some (ws1 +:+ g).
Proof.
  intros Htag Hws Hg. unfold block_at.
  destruct Htag as [[-> Hne]|Htag].
  - rewrite app_empty_l, (before_fence_found _ _ Hg).
    destruct ws1 as [|c ws1]; [congruence|].
    cbn [all_space] in Hws. apply andb_true_iff in Hws as [Hc _].
    rewrite !app_cons.
    assert (Hj : String.prefix "json"
                   (lower (String c ((ws1 +:+ g) +:+ fence +:+ rest))) = false).
    { change (lower (String c ((ws1 +:+ g) +:+ fence +:+ rest)))
        with (String (lower_char c) (lower ((ws1 +:+ g) +:+ fence +:+ rest))).
      rewrite prefix_cons.
      destruct (Ascii.eqb_spec "j" (lower_char c)) as [Heq|]; [|reflexivity].
      rewrite <- is_space_lower_char, <- Heq in Hc. discriminate. }
    rewrite Hj. reflexivity.
  - assert (Hlen : String.length tag = 4%nat).
    { rewrite <- length_lower, Htag. reflexivity. }
    rewrite lower_app, Htag, prefix_app.
    rewrite <- Hlen, drop_app, (before_fence_found _ _ Hg). reflexivity.
Qed.

(** X2.  A fenced reply is recovered, whatever stands around the fence:
    for every decoder, when the payload between the fences is free of
    backquotes, the text in front of the opening fence too, the fence is
    tagged json in any case of letters or followed by white space, and the
    decoder rejects the reply as a whole, [safe_json_loads] returns what
    the decoder makes of the stripped payload. *)
Theorem fenced_payload_recovered :
  forall (loads : string -> option json) (front tag ws1 payload ws2 back : string)
         (v : json),
    has_char "`" front = false ->
    (tag = "" ∧ ws1 ≠ "" ∨ lower tag = "json") ->
    all_space ws1 = true -> all_space ws2 = true ->
    has_char "`" (ws1 +:+ payload +:+ ws2) = false ->
    loads (front +:+ fence +:+ tag +:+ (ws1 +:+ payload +:+ ws2) +:+ fence +:+ back) = None ->
    loads (strip payload) = Some v ->
    safe_json_loads loads
      (front +:+ fence +:+ tag +:+ (ws1 +:+ payload +:+ ws2) +:+ fence +:+ back)
    = Return v.
Proof.
  intros loads front tag ws1 payload ws2 back v Hfront Htag Hws1 Hws2 Hg Hwhole Hload.
  unfold safe_json_loads. rewrite Hwhole.
  assert (Hne : is_empty (front +:+ fence +:+ tag +:+ (ws1 +:+ payload +:+ ws2)
                          +:+ fence +:+ back) = false).
  { rewrite is_empty_app, is_empty_app. cbn. apply andb_false_r. }
  rewrite Hne. unfold fenced_attempt.
  rewrite (block_search_skip _ _ Hfront).
  assert (Hsearch :
    JSON_BLOCK_RE_search (fence +:+ tag +:+ (ws1 +:+ payload +:+ ws2) +:+ fence +:+ back)
    = Some (ws1 +:+ payload +:+ ws2)).
  { unfold fence at 1. rewrite !app_cons, app_empty_l.
    cbn [JSON_BLOCK_RE_search].
    assert (Hp : String.prefix fence
              (String "`" (String "`" (String "`"
                 (tag +:+ (ws1 +:+ payload +:+ ws2) +:+ fence +:+ back)))) = true)
      by (apply (prefix_app fence)).
    rewrite Hp. cbn [drop].
    rewrite (block_at_found tag ws1 (payload +:+ ws2)); auto. }
  rewrite Hsearch, (strip_pad _ _ _ Hws1 Hws2), Hload. reflexivity.
Qed.

Lemma fenced_payload_recovered_witness :
  safe_json_loads loads_core
    ("Sure! " +:+ fence +:+ "JSON" +:+ (nl +:+ "[1, 2]" +:+ nl) +:+ fence +:+ " Anything else?")
  = Return (JArr [JNum 1; JNum 2]).
Proof.
  apply (fenced_payload_recovered loads_core "Sure! " "JSON" nl "[1, 2]" nl
           " Anything else?" (JArr [JNum 1; JNum 2]));
    try (vm_compute; reflexivity).
  right. vm_compute. reflexivity.
Defined.

(** X3.  An object in running text is recovered: for every decoder, when
    the reply has no backquote, no opening brace stands in front of the
    object and no closing brace behind it, and the decoder rejects the
    reply as a whole, [safe_json_loads] returns what the decoder makes of
    the text from the opening to the closing brace. *)
Theorem object_in_prose_recovered :
  forall (loads : string -> option json) (front body back : string) (v : json),
    has_char "`" (front +:+ (lbrace +:+ body +:+ rbrace) +:+ back) = false ->
    has_char "{" front = false -> has_char "}" back = false ->
    loads (front +:+ (lbrace +:+ body +:+ rbrace) +:+ back) = None ->
    loads (lbrace +:+ body +:+ rbrace) = Some v ->
    safe_json_loads loads (front +:+ (lbrace +:+ body +:+ rbrace) +:+ back) = Return v.
Proof.
  intros loads front body back v Hquote Hfront Hback Hwhole Hload.
  unfold safe_json_loads, fenced_attempt, curly_attempt.
  rewrite Hwhole, (block_search_no_backtick _ Hquote),
    (curly_search_object _ _ _ Hfront Hback), Hload.
  assert (Hne : is_empty (front +:+ (lbrace +:+ body +:+ rbrace) +:+ back) = false).
  { rewrite is_empty_app, is_empty_app. cbn. apply andb_false_r. }
  rewrite Hne. reflexivity.
Qed.

Lemma object_in_prose_recovered_witness :
  safe_json_loads loads_core
    ("The result is " +:+ (lbrace +:+ quoted "skills" +:+ ": []" +:+ rbrace) +:+ ", as asked.")
  = Return (JObj [("skills", JArr [])]).
Proof.
  apply (object_in_prose_recovered loads_core "The result is "
           (quoted "skills" +:+ ": []") ", as asked." (JObj [("skills", JArr [])]));
    vm_compute; reflexivity.
Defined.

End JsonPatterns.

(* ================================================================== *)
(** * Shape normalisation of the extracted resume *)
(* ================================================================== *)

Module Extraction.
Import Text Json Parser.

Lemma dict_get_missing (key : string) (members : list (string * json)) :
  existsb (fun kv => String.eqb kv.1 key) members = false ->
  dict_get key members = JNull.
Proof.
  induction members as [|[k v] members IH]; [reflexivity|].
  cbn [existsb fst]. intros H. apply orb_false_iff in H as [Hk Hrest].
  cbn [dict_get]. rewrite Hk. exact (IH Hrest).
Qed.

(** X4.  [mistral_extract_resume] gives up exactly when the call to the
    model raised or the reply is no JSON object.  On an object the three
    fields are lists whatever the object holds: a non-empty list under
    "tech_stacks" is taken as it is; when "tech_stacks" is missing, null or
    empty, a list under "skills" is taken; and when "tech_stacks" holds a
    non-empty value that is no list the field is empty, also when "skills"
    holds a list. *)
Theorem extract_resume_shape :
  (forall reply : result json,
     mistral_extract_resume reply = None
     ↔ (∃ e, reply = Raise e) ∨ (∃ v, reply = Return v ∧ forall data, v ≠ JObj data))
  /\ (forall data : list (string * json),
        ∃ e, mistral_extract_resume (Return (JObj data)) = Some e
          ∧ (forall items, items ≠ [] -> dict_get "tech_stacks" data = JArr items ->
               ex_tech_stacks e = items)
          ∧ (truthy (dict_get "tech_stacks" data) = false ->
             forall items, dict_get "skills" data = JArr items ->
               ex_tech_stacks e = items)
          ∧ (truthy (dict_get "tech_stacks" data) = true ->
             (forall items, dict_get "tech_stacks" data ≠ JArr items) ->
             ex_tech_stacks e = [])
          ∧ (existsb (fun kv => String.eqb kv.1 "education") data = false ->
             ex_education e = [])).
Proof.
  split.
  - intros reply. split.
    + destruct reply as [v|e]; [|eauto].
      destruct v; try (intros _; right; eexists; split; [reflexivity|]; discriminate).
      discriminate.
    + intros [[e ->]|(v & -> & Hv)]; [reflexivity|].
      destruct v; try reflexivity. exfalso. exact (Hv _ eq_refl).
  - intros data. eexists. split; [reflexivity|]. cbn [ex_tech_stacks ex_education].
    split; [|split; [|split]].
    + intros items Hne Htech. rewrite Htech. unfold py_or. cbn [truthy].
      destruct items; [congruence|]. reflexivity.
    + intros Hfalsy items Hskills. unfold py_or. rewrite Hfalsy, Hskills.
      cbn [truthy]. destruct items; reflexivity.
    + intros Htruthy Hnolist. unfold py_or. rewrite Htruthy, Htruthy.
      destruct (dict_get "tech_stacks" data) as [| | | |items|]; try reflexivity.
      exfalso. exact (Hnolist items eq_refl).
    + intros Hmissing. rewrite (dict_get_missing _ _ Hmissing). reflexivity.
Qed.

Lemma extract_resume_shape_witness :
  ∃ e, mistral_extract_resume
         (Return (JObj [("tech_stacks", JStr "Python"); ("skills", JArr [JStr "Go"])]))
       = Some e
       ∧ ex_tech_stacks e = [] ∧ ex_education e = [].
Proof.
  destruct extract_resume_shape as [_ Hshape].
  destruct (Hshape [("tech_stacks", JStr "Python"); ("skills", JArr [JStr "Go"])])
    as (e & He & _ & _ & Hhidden & Hedu).
  exists e. split; [exact He|]. split.
  - apply Hhidden; [reflexivity|]. intros items. vm_compute. discriminate.
  - apply Hedu. reflexivity.
Defined.

End Extraction.

(* ================================================================== *)
(** * The heuristic parser: what it finds and how much *)
(* ================================================================== *)

Module ParserBounds.
Import Text Num Parser Notions TextFacts StringFacts SortedFacts ParserFacts Determinism.

Lemma upper_char_idemp (c : ascii) : upper_char (upper_char c) = upper_char c.
Proof. by_cases_on_char c. Qed.

Lemma upper_lower_char (c : ascii) : upper_char (lower_char c) = upper_char c.
Proof. by_cases_on_char c. Qed.

Lemma upper_idemp (s : string) : upper (upper s) = upper s.
Proof.
  induction s as [|c s IH]; [reflexivity|].
  unfold upper in *. simpl. rewrite upper_char_idemp, IH. reflexivity.
Qed.

Lemma upper_lower (s : string) : upper (lower s) = upper s.
Proof.
  induction s as [|c s IH]; [reflexivity|].
  unfold upper, lower in *. simpl. rewrite upper_lower_char, IH. reflexivity.
Qed.

Lemma prefix_spec (a b : string) :
  String.prefix a b = true ↔ ∃ post, b = a +:+ post.
Proof.
  revert b. induction a as [|c a IH]; intros b.
  - split; [intros _; exists b; reflexivity | intros _; destruct b; reflexivity].
  - destruct b as [|d b].
    + split; [discriminate | intros [post H]; discriminate].
    + rewrite prefix_cons, andb_true_iff, IH. split.
      * intros [Hc [post ->]]. apply Ascii.eqb_eq in Hc as ->. exists post. reflexivity.
      * intros [post H]. rewrite app_cons in H. injection H as -> ->.
        split; [apply Ascii.eqb_refl | eauto].
Qed.

(** [contains] is the substring test. *)
Lemma contains_spec (a b : string) :
  contains a b = true ↔ ∃ pre post, b = pre +:+ a +:+ post.
Proof.
  induction b as [|d b IH].
  - cbn [contains]. rewrite orb_false_r, prefix_spec. split.
    + intros [post H]. exists "", post. exact H.
    + intros (pre & post & H). destruct pre; [|discriminate].
      rewrite app_empty_l in H. eauto.
  - cbn [contains]. rewrite orb_true_iff, prefix_spec, IH. split.
    + intros [[post H]|(pre & post & ->)].
      * exists "", post. exact H.
      * exists (String d pre), post. reflexivity.
    + intros (pre & post & H). destruct pre as [|c pre].
      * left. exists post. exact H.
      * rewrite app_cons in H. injection H as -> ->. right. eauto.
Qed.

Lemma contains_trans (a b c : string) :
  contains a b = true -> contains b c = true -> contains a c = true.
Proof.
  rewrite !contains_spec. intros (p1 & q1 & ->) (p2 & q2 & ->).
  exists (p2 +:+ p1), (q1 +:+ q2). rewrite !app_assoc. reflexivity.
Qed.

(** X5.  The technologies found are canonical keywords, sorted and
    without repetition, at most 44 of them.  They depend on the text
    through its upper-case form alone: two texts with the same upper-case
    form give the same technologies, and so does the upper-case form
    itself.  Putting a text of ASCII in lower case makes no difference
    either. *)
Theorem tech_stacks_canonical_caseless :
  forall text : string,
    StronglySorted String.le (parse_tech_stacks text)
    /\ NoDup (parse_tech_stacks text)
    /\ (forall x, x ∈ parse_tech_stacks text -> x ∈ TECH_KEYWORDS)
    /\ (length (parse_tech_stacks text) <= 44)%nat
    /\ parse_tech_stacks (upper text) = parse_tech_stacks text
    /\ (is_ascii text = true -> parse_tech_stacks (lower text) = parse_tech_stacks text)
    /\ (forall text', upper text' = upper text ->
          parse_tech_stacks text' = parse_tech_stacks text).
Proof.
  intros text.
  assert (Hkw : forall x, x ∈ parse_tech_stacks text -> x ∈ TECH_KEYWORDS).
  { intros x Hx. apply elem_of_parse_tech_stacks in Hx. tauto. }
  assert (Hsame : forall text', upper text' = upper text ->
                    parse_tech_stacks text' = parse_tech_stacks text).
  { intros text' Heq. unfold parse_tech_stacks. rewrite Heq. reflexivity. }
  split; [apply py_sorted_sorted|]. split; [apply NoDup_py_sorted|].
  split; [exact Hkw|]. split.
  { change 44%nat with (length TECH_KEYWORDS).
    apply submseteq_length, NoDup_submseteq; [apply NoDup_py_sorted | exact Hkw]. }
  split; [apply Hsame, upper_idemp|].
  split; [intros _; apply Hsame, upper_lower|]. exact Hsame.
Qed.

Lemma tech_stacks_canonical_caseless_witness :
  parse_tech_stacks "PYTHON and DOCKER" = parse_tech_stacks "python and docker"
  /\ parse_tech_stacks (lower "Python and Docker") = parse_tech_stacks "Python and Docker".
Proof.
  split.
  - destruct (tech_stacks_canonical_caseless "python and docker") as (_ & _ & _ & _ & _ & _ & H).
    apply H. reflexivity.
  - destruct (tech_stacks_canonical_caseless "Python and Docker") as (_ & _ & _ & _ & _ & H & _).
    apply H. reflexivity.
Defined.

(** X6.  A keyword that is part of another keyword is found whenever the
    other one is: every text in which JavaScript is found has Java too. *)
Theorem tech_stacks_substring_closed :
  forall (text k1 k2 : string),
    k1 ∈ TECH_KEYWORDS -> contains (upper k1) (upper k2) = true ->
    k2 ∈ parse_tech_stacks text -> k1 ∈ parse_tech_stacks text.
Proof.
  intros text k1 k2 Hk1 Hsub Hk2.
  apply elem_of_parse_tech_stacks in Hk2 as [_ Hk2].
  apply elem_of_parse_tech_stacks. split; [exact Hk1|].
  unfold mentioned in *. exact (contains_trans _ _ _ Hsub Hk2).
Qed.

Lemma tech_stacks_substring_closed_witness :
  "Java" ∈ parse_tech_stacks "Senior JavaScript developer".
Proof.
  apply (tech_stacks_substring_closed "Senior JavaScript developer" "Java" "JavaScript").
  - apply (bool_decide_unpack _). vm_compute. exact I.
  - vm_compute. reflexivity.
  - apply (bool_decide_unpack _). vm_compute. exact I.
Defined.

Lemma qualifies_length (line : string) :
  qualifies line = true -> (12 <= String.length (strip line))%nat.
Proof.
  unfold qualifies. intros H. apply andb_true_iff in H as [H _].
  apply Nat.leb_le. exact H.
Qed.

Lemma qualifies_work_length (line : string) :
  qualifies_work line = true -> (15 <= String.length (strip line))%nat.
Proof.
  unfold qualifies_work. intros H. apply andb_true_iff in H as [H _].
  apply Nat.leb_le. exact H.
Qed.

Lemma year_in_range (line : string) :
  match max_or_none (extract_years line) with
  | Some y => 1900 <= y <= 2099
  | None => True
  end.
Proof.
  pose proof (max_or_none_spec (extract_years line)) as H.
  destruct (max_or_none (extract_years line)); [|exact I].
  destruct H as [Hin _]. exact (extract_years_range _ _ Hin).
Qed.

Lemma parse_work_experience_fields (text : string) (g : rng) :
  from_line <$> (parse_work_experience text g).1
  = take 6 (read_line <$> found_lines (splitlines text))
  /\ duration <$> (parse_work_experience text g).1
     = take 6 (drawn g <$> seq (pos g) (length (found_lines (splitlines text)))).
Proof.
  unfold parse_work_experience.
  destruct (foldl_work_step (splitlines text) [] g) as (H1 & H2 & _ & _).
  destruct (foldl work_step ([], g) (splitlines text)) as [exp g'].
  simpl in *. rewrite !fmap_take, H1, H2. auto.
Qed.

(** X7.  Whatever the text and the random state, the education parser
    returns at most 4 entries and the experience parser at most 6; every
    description is the trimmed text of a line of the text and has at least
    12 characters, every role is one of at least 15; a year given lies
    between 1900 and 2099 and a duration between 1 and 4. *)
Theorem parser_output_bounded :
  forall (text : string) (g : rng),
    (length (parse_education text) <= 4)%nat
    /\ (length (parse_work_experience text g).1 <= 6)%nat
    /\ Forall (education_entry_ok text) (parse_education text)
    /\ Forall (work_entry_ok text) (parse_work_experience text g).1.
Proof.
  intros text g.
  destruct (parse_work_experience_fields text g) as [Hfrom Hdur].
  split; [unfold parse_education; rewrite length_take; lia|].
  split.
  { rewrite <- (length_fmap from_line), Hfrom, length_take. lia. }
  split.
  - unfold parse_education. rewrite foldl_education_step. cbn [app].
    apply Forall_take, Forall_fmap, Forall_forall.
    intros line [Hq Hline]%list_elem_of_filter. unfold education_entry_ok. cbn.
    split; [eauto|]. split; [exact (qualifies_length _ Hq)|].
    split; [apply strip_idemp | apply year_in_range].
  - apply Forall_forall. intros e He.
    assert (Hfl : from_line e ∈ take 6 (read_line <$> found_lines (splitlines text))).
    { rewrite <- Hfrom. apply list_elem_of_fmap. eauto. }
    assert (Hd : duration e
                 ∈ take 6 (drawn g <$> seq (pos g)
                                          (length (found_lines (splitlines text))))).
    { rewrite <- Hdur. apply list_elem_of_fmap. eauto. }
    apply subseteq_take in Hfl, Hd.
    apply list_elem_of_fmap in Hfl as (line & Heq & Hline).
    apply list_elem_of_fmap in Hd as (i & Hi & _).
    unfold found_lines in Hline. apply list_elem_of_filter in Hline as [Hq Hline].
    unfold from_line, read_line in Heq. injection Heq as Hrole Hyear.
    unfold work_entry_ok. rewrite Hrole, Hyear, Hi.
    split; [eauto|]. split; [exact (qualifies_work_length _ Hq)|].
    split; [apply strip_idemp|]. split; [apply year_in_range | apply drawn_range].
Qed.

End ParserBounds.

(* ================================================================== *)
(** * The scoring engine: limits and invariance *)
(* ================================================================== *)

Module ScoringLimits.
Import Text Num Scoring Notions NumFacts StrengthScore TextFacts SortedFacts JobMatch
  McqGrading CodingGrading.

Lemma quarters_Qeq (q : Z) (n : Z) : (inject_Z q / 4 == inject_Z n)%Q ↔ q = 4 * n.
Proof. unfold Qeq, Qdiv, Qmult, Qinv, inject_Z. simpl. lia. Qed.

(** X8.  The strength score is 0 exactly for three empty lists and 10
    exactly from 8 skills, 3 education entries and 4 experience entries on;
    skills alone give at most 4 points, education alone at most 3 and
    experience alone at most 3. *)
Theorem strength_score_zero_full_caps :
  forall (A B C : Type) (S : list A) (E : list B) (W : list C),
    ((calculate_strength_score S E W == 0)%Q ↔ S = [] ∧ E = [] ∧ W = [])
    /\ ((calculate_strength_score S E W == 10)%Q
        ↔ (8 <= length S)%nat ∧ (3 <= length E)%nat ∧ (4 <= length W)%nat)
    /\ (calculate_strength_score S (@nil B) (@nil C) <= 4)%Q
    /\ (calculate_strength_score (@nil A) E (@nil C) <= 3)%Q
    /\ (calculate_strength_score (@nil A) (@nil B) W <= 3)%Q.
Proof.
  intros A B C S E W.
  assert (Hle : forall (a b c : nat) (n : Z),
            quarters a b c <= 4 * n -> (inject_Z (quarters a b c) / 4 <= inject_Z n)%Q).
  { intros a b c n H. unfold Qle, Qdiv, Qmult, Qinv, inject_Z. simpl. lia. }
  split; [|split; [|split; [|split]]].
  - rewrite score_quarters. change 0%Q with (inject_Z 0). rewrite quarters_Qeq.
    unfold quarters. split.
    + intros H. destruct S, E, W; simpl in H; try lia. auto.
    + intros (-> & -> & ->). reflexivity.
  - rewrite score_quarters. change 10%Q with (inject_Z 10). rewrite quarters_Qeq.
    unfold quarters. lia.
  - rewrite score_quarters. apply (Hle _ _ _ 4). unfold quarters. simpl. lia.
  - rewrite score_quarters. apply (Hle _ _ _ 3). unfold quarters. simpl. lia.
  - rewrite score_quarters. apply (Hle _ _ _ 3). unfold quarters. simpl. lia.
Qed.

Lemma strength_score_zero_full_caps_witness :
  (calculate_strength_score (replicate 9 "skill") (replicate 3 tt) (replicate 4 tt) == 10)%Q.
Proof.
  apply (strength_score_zero_full_caps string unit unit
           (replicate 9 "skill") (replicate 3 tt) (replicate 4 tt)).
  simpl. lia.
Defined.

(** ** Job matching *)

Lemma job_match_sizes (U J : list string) :
  length (matching U J) = size (skill_set U ∩ skill_set J)
  /\ length (missing U J) = size (skill_set J ∖ skill_set U).
Proof.
  unfold matching, missing, calculate_job_match. simpl.
  rewrite !length_py_sorted. auto.
Qed.

Lemma pct_Qeq_100 (m n : nat) :
  (0 < n)%nat -> (of_nat m / of_nat n * 100 == 100)%Q ↔ m = n.
Proof.
  intros Hn. split.
  - intros H.
    assert (Hnz : ~ (of_nat n == 0)%Q) by (unfold of_nat, Qeq, inject_Z; simpl; lia).
    assert (H' : (of_nat m == of_nat n)%Q).
    { setoid_replace (of_nat m) with (of_nat m / of_nat n * 100 * (of_nat n / 100))%Q
        using relation Qeq by (field; exact Hnz).
      rewrite H. field. }
    revert H'. unfold of_nat, Qeq, inject_Z. simpl. lia.
  - intros ->. apply pct_full. exact Hn.
Qed.

Lemma pct_Qeq_0 (m n : nat) :
  (0 < n)%nat -> (of_nat m / of_nat n * 100 == 0)%Q ↔ m = 0%nat.
Proof.
  intros Hn. split.
  - intros H.
    assert (Hnz : ~ (of_nat n == 0)%Q) by (unfold of_nat, Qeq, inject_Z; simpl; lia).
    assert (H' : (of_nat m == 0)%Q).
    { setoid_replace (of_nat m) with (of_nat m / of_nat n * 100 * (of_nat n / 100))%Q
        using relation Qeq by (field; exact Hnz).
      rewrite H. field. }
    revert H'. unfold of_nat, Qeq, inject_Z. simpl. lia.
  - intros ->. unfold of_nat, Qeq, Qdiv, Qmult. simpl. lia.
Qed.

(** X9.  For a job with a skill, the match is 100 percent exactly when no
    skill is missing, and 0 percent exactly when no skill matches. *)
Theorem match_full_iff_nothing_missing :
  forall U J : list string,
    J ≠ [] ->
    ((match_pct U J == 100)%Q ↔ missing U J = [])
    /\ ((match_pct U J == 0)%Q ↔ matching U J = []).
Proof.
  intros U J HJ. rewrite match_pct_unfold.
  destruct (decide (skill_set J = ∅)) as [He|Hne];
    [exfalso; exact (skill_set_nonempty J HJ He)|].
  pose proof (size_skill_set_pos J Hne) as Hpos.
  destruct (job_match_sizes U J) as [Hm Hmi].
  assert (Hsplit : (size (skill_set J)
                    = size (skill_set U ∩ skill_set J) + size (skill_set J ∖ skill_set U))%nat).
  { rewrite <- size_union by set_solver. f_equal. apply leibniz_equiv. intros x.
    destruct (decide (x ∈ skill_set U)); set_solver. }
  split.
  - rewrite (pct_Qeq_100 _ _ Hpos). split.
    + intros H. apply length_zero_iff_nil. lia.
    + intros H. rewrite H in Hmi. simpl in Hmi. lia.
  - rewrite (pct_Qeq_0 _ _ Hpos). split.
    + intros H. apply length_zero_iff_nil. lia.
    + intros H. rewrite H in Hm. simpl in Hm. lia.
Qed.

Lemma match_full_iff_nothing_missing_witness :
  (match_pct ["python"; "Git "] ["Python"; "GIT"] == 100)%Q.
Proof.
  apply (match_full_iff_nothing_missing ["python"; "Git "] ["Python"; "GIT"]).
  - discriminate.
  - vm_compute. reflexivity.
Defined.

Lemma pct_mono (m m' n : nat) :
  (0 < n)%nat -> (m <= m')%nat ->
  (of_nat m / of_nat n * 100 <= of_nat m' / of_nat n * 100)%Q.
Proof.
  intros Hn Hm.
  assert (Hpos : (0 < of_nat n)%Q) by (unfold of_nat, Qlt, inject_Z; simpl; lia).
  apply Qmult_le_compat_r; [|discriminate].
  apply Qmult_le_compat_r.
  - unfold of_nat, Qle, inject_Z. simpl. lia.
  - apply Qlt_le_weak, Qinv_lt_0_compat. exact Hpos.
Qed.

(** X10.  More skills never hurt: when every skill of U is, trimmed and
    in lower case, a skill of U' too, no job matches U' less than U, and
    what is missing for U' is missing for U. *)
Theorem match_monotone_in_user_skills :
  forall U U' J : list string,
    (forall s, s ∈ U -> norm_skill s ∈ norm_skill <$> U') ->
    (match_pct U J <= match_pct U' J)%Q
    /\ (forall x, x ∈ missing U' J -> x ∈ missing U J).
Proof.
  intros U U' J Hsub.
  assert (Hset : skill_set U ⊆ skill_set U').
  { intros x (s & Hs & ->)%elem_of_skill_set.
    unfold skill_set. apply elem_of_list_to_set. exact (Hsub s Hs). }
  split.
  - rewrite !match_pct_unfold.
    destruct (decide (skill_set J = ∅)) as [|Hne]; [apply Qle_refl|].
    apply pct_mono; [exact (size_skill_set_pos J Hne)|].
    apply subseteq_size. set_solver.
  - intros x. unfold missing, calculate_job_match. simpl.
    rewrite !elem_of_py_sorted. set_solver.
Qed.

Lemma match_monotone_in_user_skills_witness :
  (match_pct ["Python"] ["python"; "git"] <= match_pct ["GIT "; " python"] ["python"; "git"])%Q.
Proof.
  apply (match_monotone_in_user_skills ["Python"] ["GIT "; " python"] ["python"; "git"]).
  apply Forall_forall. apply (bool_decide_unpack _). vm_compute. exact I.
Defined.

(** X11.  The result of a match depends on the sets of trimmed
    lower-cased skills only: the order of the skills, repetitions, the case
    of the letters and white space around a skill make no difference. *)
Theorem match_depends_on_skill_sets :
  forall U J U' J' : list string,
    ((forall x, x ∈ norm_skill <$> U ↔ x ∈ norm_skill <$> U') ->
     (forall x, x ∈ norm_skill <$> J ↔ x ∈ norm_skill <$> J') ->
     calculate_job_match U' J' = calculate_job_match U J)
    /\ calculate_job_match (norm_skill <$> U) (norm_skill <$> J) = calculate_job_match U J
    /\ calculate_job_match (U ++ U) (J ++ J) = calculate_job_match U J
    /\ calculate_job_match (reverse U) (reverse J) = calculate_job_match U J.
Proof.
  intros U J U' J'.
  assert (Hext : forall A A' B B' : list string,
            (forall x, x ∈ norm_skill <$> A ↔ x ∈ norm_skill <$> A') ->
            (forall x, x ∈ norm_skill <$> B ↔ x ∈ norm_skill <$> B') ->
            calculate_job_match A' B' = calculate_job_match A B).
  { intros A A' B B' HA HB.
    assert (HsA : skill_set A' = skill_set A).
    { apply leibniz_equiv. intros x. unfold skill_set.
      rewrite !elem_of_list_to_set. symmetry. apply HA. }
    assert (HsB : skill_set B' = skill_set B).
    { apply leibniz_equiv. intros x. unfold skill_set.
      rewrite !elem_of_list_to_set. symmetry. apply HB. }
    unfold calculate_job_match. rewrite HsA, HsB. reflexivity. }
  assert (Hnorm : forall s, norm_skill (norm_skill s) = norm_skill s).
  { intros s. unfold norm_skill. rewrite strip_lower, strip_idemp, lower_idemp.
    reflexivity. }
  assert (Hfmap : forall L : list string,
            norm_skill <$> (norm_skill <$> L) = norm_skill <$> L).
  { induction L as [|s L IH]; [reflexivity|].
    rewrite !fmap_cons, Hnorm, IH. reflexivity. }
  split; [apply Hext|]. split; [|split].
  - apply Hext; intros x; rewrite Hfmap; reflexivity.
  - apply Hext; intros x; rewrite fmap_app, elem_of_app; tauto.
  - apply Hext; intros x; rewrite fmap_reverse, elem_of_reverse; tauto.
Qed.

Lemma match_depends_on_skill_sets_witness :
  calculate_job_match ["GO"; " python "] ["Python"; "python"; "Git"]
  = calculate_job_match ["Python"; "go"] ["git"; "PYTHON"].
Proof.
  destruct (match_depends_on_skill_sets ["Python"; "go"] ["git"; "PYTHON"]
              ["GO"; " python "] ["Python"; "python"; "Git"]) as [Hsets _].
  apply Hsets.
  - intros x. vm_compute. split; intros H; set_solver.
  - intros x. vm_compute. split; intros H; set_solver.
Defined.

End ScoringLimits.

(* ================================================================== *)
(** * Grading: limits and what the grader looks at *)
(* ================================================================== *)

Module GradingLimits.
Import Text Num Scoring Notions FloatFacts JobMatch McqGrading CodingGrading.

Lemma mcq_detail_of_ext (answers answers' : gmap string Z) (q : mcq_question) :
  answers' !! mq_id q = answers !! mq_id q ->
  mcq_detail_of answers' q = mcq_detail_of answers q.
Proof.
  intros H. unfold mcq_detail_of, is_correct, answer_of. rewrite H. reflexivity.
Qed.

Lemma grade_mcq_answers_ext (questions : list mcq_question) (answers answers' : gmap string Z) :
  (forall q, q ∈ questions -> answer_of answers' q = answer_of answers q) ->
  grade_mcq_answers questions answers' = grade_mcq_answers questions answers.
Proof.
  intros Hsame. rewrite !grade_mcq_answers_spec.
  assert (Hcount : correct_count answers' questions = correct_count answers questions).
  { unfold correct_count. induction questions as [|q questions IH]; [reflexivity|].
    assert (Hq : is_correct answers' q = is_correct answers q)
      by (unfold is_correct; rewrite (Hsame q) by left; reflexivity).
    assert (IH' : length (filter (fun q => is_correct answers' q = true) questions)
                  = length (filter (fun q => is_correct answers q = true) questions))
      by (apply IH; intros q' Hq'; apply Hsame; right; exact Hq').
    rewrite !filter_cons.
    destruct (decide (is_correct answers' q = true)) as [H1|H1],
      (decide (is_correct answers q = true)) as [H2|H2]; cbn [length];
      try congruence. }
  assert (Hdetails : mcq_detail_of answers' <$> questions
                     = mcq_detail_of answers <$> questions).
  { clear Hcount. induction questions as [|q questions IH]; [reflexivity|].
    rewrite !fmap_cons.
    assert (Hq : mcq_detail_of answers' q = mcq_detail_of answers q)
      by (unfold mcq_detail_of, is_correct; rewrite (Hsame q) by left; reflexivity).
    rewrite Hq. rewrite IH; [reflexivity|].
    intros q' Hq'. apply Hsame. right. exact Hq'. }
  rewrite Hcount, Hdetails. reflexivity.
Qed.

(** X12.  The MCQ score lies between 0 and 100, at most as many answers
    are counted correct as there are questions, and there is one detail for
    each question.  Only the answers to the questions of the session count:
    answers under other identifiers change nothing, and answering -1 is
    the same as not answering. *)
Theorem mcq_grading_bounds_and_relevance :
  forall (questions : list mcq_question) (answers : gmap string Z),
    (0 <= mr_score (grade_mcq_answers questions answers) <= 100)%Q
    /\ (mr_correct (grade_mcq_answers questions answers)
        <= mr_total (grade_mcq_answers questions answers))%nat
    /\ length (mr_details (grade_mcq_answers questions answers)) = length questions
    /\ (forall answers' : gmap string Z,
          (forall q, q ∈ questions -> answers' !! mq_id q = answers !! mq_id q) ->
          grade_mcq_answers questions answers' = grade_mcq_answers questions answers)
    /\ (forall key : string,
          grade_mcq_answers questions (<[key := -1]> answers)
          = grade_mcq_answers questions (delete key answers)).
Proof.
  intros questions answers.
  split; [|split; [|split; [|split]]].
  - rewrite grade_mcq_answers_spec. cbn [mr_score].
    destruct (Nat.eqb_spec (length questions) 0) as [|Hne].
    + split; apply Qle_bool_iff; reflexivity.
    + destruct (of_nat_count _ _ (correct_count_le answers questions)) as (H0 & H1 & H2);
        [lia|].
      apply pct_float_range; assumption.
  - rewrite grade_mcq_answers_spec. apply correct_count_le.
  - rewrite grade_mcq_answers_spec. cbn [mr_details]. apply length_fmap.
  - intros answers' Hsame. apply grade_mcq_answers_ext.
    intros q Hq. unfold answer_of. rewrite (Hsame q Hq). reflexivity.
  - intros key. apply grade_mcq_answers_ext. intros q _. unfold answer_of.
    destruct (decide (key = mq_id q)) as [->|Hne].
    + rewrite lookup_insert_eq, lookup_delete_eq. reflexivity.
    + rewrite lookup_insert_ne, lookup_delete_ne by exact Hne. reflexivity.
Qed.

Lemma mcq_grading_bounds_and_relevance_witness :
  grade_mcq_answers Api.MCQ_FALLBACK (<["mcq1" := 2]> (<["bonus" := 1]> ∅))
  = grade_mcq_answers Api.MCQ_FALLBACK (<["mcq1" := 2]> ∅).
Proof.
  destruct (mcq_grading_bounds_and_relevance Api.MCQ_FALLBACK (<["mcq1" := 2]> ∅))
    as (_ & _ & _ & Hrel & _).
  apply Hrel. apply Forall_forall. apply (bool_decide_unpack _). vm_compute. exact I.
Defined.

(** ** Coding answers *)

Lemma contains_needs_char (needle : string) (c : ascii) (rest hay : string) :
  needle = String c rest -> has_char c hay = false -> contains needle hay = false.
Proof.
  intros -> Hc. induction hay as [|d hay IH]; [reflexivity|].
  cbn [has_char] in Hc. apply orb_false_iff in Hc as [Hd Hhay].
  cbn [contains]. rewrite (IH Hhay), orb_false_r.
  simpl. destruct (ascii_dec c d) as [->|]; [|reflexivity].
  rewrite Ascii.eqb_refl in Hd. discriminate.
Qed.

Lemma all_space_no_letter (s : string) (c : ascii) :
  is_space c = false -> all_space s = true -> has_char c s = false.
Proof.
  intros Hc. induction s as [|d s IH]; [reflexivity|]. cbn [all_space has_char].
  intros H. apply andb_true_iff in H as [Hd Hs]. rewrite (IH Hs), orb_false_r.
  destruct (Ascii.eqb_spec c d) as [->|]; [congruence | reflexivity].
Qed.

Lemma all_space_strip (s : string) : all_space s = true -> strip s = "".
Proof.
  intros H. unfold strip.
  assert (Hr : rstrip s = "").
  { induction s as [|c s IH]; [reflexivity|]. cbn [all_space] in H.
    apply andb_true_iff in H as [Hc Hs]. cbn [rstrip]. rewrite (IH Hs), Hc.
    reflexivity. }
  rewrite Hr. reflexivity.
Qed.

(** X13.  A coding answer gets 0, 30, 40, 60, 70 or 100 points, and the
    feedback praises the structure exactly when the answer contains
    "return" and meets one of the other two criteria.  An answer of white
    space alone gets 0 points however long it is.  The overall score lies
    between 0 and 100. *)
Theorem coding_points_values_and_feedback :
  forall (questions : list coding_question) (answers : gmap string string)
         (q : coding_question),
    cd_score (coding_detail_of answers q) ∈ [0; 30; 40; 60; 70; 100]
    /\ (cd_feedback (coding_detail_of answers q) = "Code structure looks good!"
        ↔ has_return (code_of answers q) = true
          ∧ (long_enough (code_of answers q) = true
             ∨ has_function_marker (code_of answers q) = true))
    /\ (all_space (code_of answers q) = true -> cd_score (coding_detail_of answers q) = 0)
    /\ (0 <= cr_score (grade_coding_answers questions answers) <= 100)%Q.
Proof.
  intros questions answers q. cbn [cd_score cd_feedback coding_detail_of].
  split; [|split; [|split]].
  - rewrite code_points_criteria.
    destruct (long_enough _), (has_function_marker _), (has_return _);
      apply (bool_decide_unpack _); vm_compute; exact I.
  - rewrite code_points_criteria.
    destruct (long_enough _), (has_function_marker _), (has_return _);
      cbn; split; intros H; try discriminate; try tauto;
      destruct H as [H1 [H2|H2]]; discriminate.
  - intros Hws. rewrite code_points_criteria.
    unfold long_enough, has_function_marker, has_return.
    rewrite (all_space_strip _ Hws).
    rewrite (contains_needs_char "def " "d" "ef " _ eq_refl),
      (contains_needs_char "function " "f" "unction " _ eq_refl),
      (contains_needs_char "return" "r" "eturn" _ eq_refl);
      try (apply all_space_no_letter; [reflexivity | exact Hws]).
    reflexivity.
  - rewrite grade_coding_answers_spec. cbn [cr_score].
    destruct (Nat.eqb_spec (length questions) 0) as [|Hne].
    + split; apply Qle_bool_iff; reflexivity.
    + destruct (points_of_total _ _ (points_sum_range answers questions))
        as (H0 & H1 & H2); [lia|].
      apply pct_float_range; assumption.
Qed.

Lemma coding_points_values_and_feedback_witness :
  cd_score (coding_detail_of (<["code1" := "      "]> ∅)
              {| cq_id := "code1"; cq_question := "Add two numbers.";
                 cq_template := ""; cq_test_cases := [];
                 cq_category := "programming"; cq_difficulty := "easy" |}) = 0.
Proof.
  apply (coding_points_values_and_feedback [] (<["code1" := "      "]> ∅)).
  vm_compute. reflexivity.
Defined.

End GradingLimits.

(* ================================================================== *)
(** * The routes: what they answer and what they leave alone *)
(* ================================================================== *)

Module Routes.
Import Text Num Parser Scoring Api Notions NumFacts StrengthScore TextFacts SortedFacts
  JobMatch Recommendations ScoringLimits.

(** X14.  [get_job_recommendations] answers an unknown user with status
    404 and changes nothing.  For a known user it changes nothing but the
    cached recommendations of that user, and asking again gives the same
    answer and the same stores. *)
Theorem recommendations_route_frame :
  forall (st : store) (user_id : string),
    (resume_data st !! user_id = None ->
     get_job_recommendations user_id st
     = (HTTPException 404 "Resume analysis not found", st))
    /\ resume_data (get_job_recommendations user_id st).2 = resume_data st
    /\ test_sessions (get_job_recommendations user_id st).2 = test_sessions st
    /\ test_results (get_job_recommendations user_id st).2 = test_results st
    /\ (forall other, other ≠ user_id ->
          job_recommendations_data (get_job_recommendations user_id st).2 !! other
          = job_recommendations_data st !! other)
    /\ get_job_recommendations user_id (get_job_recommendations user_id st).2
       = get_job_recommendations user_id st.
Proof.
  intros st user_id. unfold get_job_recommendations.
  destruct (resume_data st !! user_id) as [analysis|] eqn:Hlookup.
  - cbn [snd fst resume_data test_sessions test_results job_recommendations_data].
    split; [discriminate|]. repeat (split; [reflexivity|]).
    split; [intros other Hne; apply lookup_insert_ne; congruence|].
    rewrite Hlookup, insert_insert_eq. reflexivity.
  - cbn [snd]. rewrite Hlookup. repeat split; intros; reflexivity.
Qed.

Lemma recommendations_route_frame_witness :
  get_job_recommendations "nobody" demo_store
  = (HTTPException 404 "Resume analysis not found", demo_store).
Proof.
  destruct (recommendations_route_frame demo_store "nobody") as [Hunknown _].
  apply Hunknown. vm_compute. reflexivity.
Defined.

(** ** Recommended jobs have a skill of the user *)

Lemma rec_of_None (U : list string) (job : JobPosting) :
  rec_of U job = None ↔ skill_set U ∩ skill_set (jp_required_skills job) = ∅.
Proof.
  unfold rec_of.
  destruct (positive (match_pct U (jp_required_skills job))) eqn:Hpos.
  - split; [discriminate|]. intros Hempty. exfalso.
    apply positive_spec in Hpos. rewrite match_pct_unfold, Hempty in Hpos.
    destruct (decide (skill_set (jp_required_skills job) = ∅)); [inversion Hpos|].
    rewrite size_empty in Hpos. revert Hpos.
    unfold of_nat, Qlt, Qdiv, Qmult. simpl. lia.
  - split; [|reflexivity]. intros _.
    assert (Hle : (match_pct U (jp_required_skills job) <= 0)%Q).
    { apply Qnot_lt_le. intros Hlt. apply positive_spec in Hlt. congruence. }
    rewrite match_pct_unfold in Hle.
    destruct (decide (skill_set (jp_required_skills job) = ∅)) as [He|Hne].
    + rewrite He. set_solver.
    + pose proof (size_skill_set_pos _ Hne) as Hn.
      assert (Hrange := pct_range (size (skill_set U ∩ skill_set (jp_required_skills job)))
                          (size (skill_set (jp_required_skills job))) Hn).
      assert (Hsub : (size (skill_set U ∩ skill_set (jp_required_skills job))
                      <= size (skill_set (jp_required_skills job)))%nat)
        by (apply subseteq_size; set_solver).
      destruct (Hrange Hsub) as [Hge _].
      assert (Hzero : (of_nat (size (skill_set U ∩ skill_set (jp_required_skills job)))
                       / of_nat (size (skill_set (jp_required_skills job))) * 100 == 0)%Q)
        by (apply Qle_antisym; assumption).
      apply (pct_Qeq_0 _ _ Hn) in Hzero.
      apply leibniz_equiv, size_empty_iff. exact Hzero.
Qed.

Lemma omap_nil_iff {A B} (f : A -> option B) (l : list A) :
  omap f l = [] ↔ forall x, x ∈ l -> f x = None.
Proof.
  induction l as [|x l IH]; [split; [intros _ y Hy; inversion Hy | reflexivity]|].
  cbn [omap list_omap]. destruct (f x) eqn:Hx.
  - split; [discriminate|]. intros H. rewrite (H x) in Hx by left. discriminate.
  - rewrite IH. split.
    + intros H y Hy. apply elem_of_cons in Hy as [->|Hy]; auto.
    + intros H y Hy. apply H. right. exact Hy.
Qed.

Lemma job_ids_sublist (U : list string) (jobs : list JobPosting) :
  sublist (job_id <$> omap (rec_of U) jobs) (jp_id <$> jobs).
Proof.
  induction jobs as [|job jobs IH]; [constructor|].
  cbn [omap list_omap]. rewrite fmap_cons.
  destruct (rec_of U job) as [r|] eqn:Hr.
  - rewrite fmap_cons.
    assert (Hid : job_id r = jp_id job).
    { unfold rec_of in Hr. destruct (positive _); [|discriminate].
      injection Hr as <-. reflexivity. }
    rewrite Hid. apply sublist_skip. exact IH.
  - apply sublist_cons. exact IH.
Qed.

(** X15.  No job is recommended twice, every recommended job shares a
    skill with the user, and the list is empty exactly when no job of the
    catalog shares a skill with the user. *)
Theorem recommended_jobs_share_a_skill :
  forall U : list string,
    NoDup (job_id <$> recommend U)
    /\ (forall r, r ∈ recommend U -> matching_skills r ≠ [])
    /\ (recommend U = []
        ↔ forall job, job ∈ QUANTUM_JOBS ->
            skill_set U ∩ skill_set (jp_required_skills job) = ∅).
Proof.
  intros U.
  assert (Hrec : recommend U
                 = take 3 (sort_desc match_percentage (omap (rec_of U) QUANTUM_JOBS))).
  { unfold recommend. rewrite foldl_recommend_step. reflexivity. }
  rewrite Hrec. split; [|split].
  - apply (sublist_NoDup _ (job_id <$> sort_desc match_percentage
                                         (omap (rec_of U) QUANTUM_JOBS))).
    + rewrite sort_desc_Permutation.
      apply (sublist_NoDup _ (jp_id <$> QUANTUM_JOBS)); [|apply job_ids_sublist].
      apply (bool_decide_unpack _). vm_compute. exact I.
    + rewrite fmap_take. apply sublist_take.
  - intros r Hr. apply subseteq_take in Hr. rewrite sort_desc_Permutation in Hr.
    apply list_elem_of_omap in Hr as (job & _ & Hr).
    assert (Hsome : rec_of U job ≠ None) by congruence.
    rewrite rec_of_None in Hsome.
    unfold rec_of in Hr. destruct (positive _); [|discriminate].
    injection Hr as <-. cbn [matching_skills]. intros Hnil.
    apply Hsome, leibniz_equiv, size_empty_iff.
    rewrite <- (proj1 (job_match_sizes U (jp_required_skills job))), Hnil. reflexivity.
  - split.
    + intros Htake job Hjob. apply rec_of_None.
      assert (Hnil : omap (rec_of U) QUANTUM_JOBS = []).
      { apply length_zero_iff_nil.
        rewrite <- (sort_desc_Permutation match_percentage).
        destruct (sort_desc match_percentage (omap (rec_of U) QUANTUM_JOBS));
          [reflexivity | discriminate]. }
      exact (proj1 (omap_nil_iff _ _) Hnil job Hjob).
    + intros Hdisjoint.
      assert (Hnil : omap (rec_of U) QUANTUM_JOBS = []).
      { apply omap_nil_iff. intros job Hjob. apply rec_of_None. auto. }
      rewrite Hnil. reflexivity.
Qed.

Lemma recommended_jobs_share_a_skill_witness :
  recommend ["Cobol"; "Fortran"] = [].
Proof.
  apply (recommended_jobs_share_a_skill ["Cobol"; "Fortran"]).
  apply Forall_forall. apply (bool_decide_unpack _). vm_compute. exact I.
Defined.

End Routes.

(* ================================================================== *)
(** * Sessions and uploads *)
(* ================================================================== *)

Module Server.
Import Text Num Parser Scoring Api Notions NumFacts StrengthScore SortedFacts.

(** X16.  [start_test] answers with the identifier and the questions of
    the new session and 30 minutes.  The session is stored under its
    identifier as a dictionary, active, with the first reading of the clock
    as its start and 30 minutes after the second reading as its expiry: it
    expires 30 minutes after its start or later, unless the clock went
    back between the two readings.  Every other session and the other
    stores stay as they are. *)
Theorem start_test_opens_active_session :
  forall (gen : generated) (uuid : string) (now now' : Z) (user_id : string) (st : store),
    (start_test gen uuid now now' user_id st).1
    = Ok {| st_session_id := uuid;
            st_mcq_questions := gen_mcq_questions gen;
            st_coding_questions := gen_coding_questions gen;
            st_duration_minutes := 30 |}
    /\ test_sessions (start_test gen uuid now now' user_id st).2 !! uuid
       = Some (SessionDict
                 {| ts_id := uuid; ts_user_id := user_id;
                    ts_mcq_questions := gen_mcq_questions gen;
                    ts_coding_questions := gen_coding_questions gen;
                    ts_duration_minutes := 30; ts_status := "active";
                    ts_start_time := now; ts_expires_at := now' + 1800000000 |})
    /\ (now <= now' ->
        ∃ fields,
          test_sessions (start_test gen uuid now now' user_id st).2 !! uuid
          = Some (SessionDict fields)
          ∧ ts_start_time fields + 1800000000 <= ts_expires_at fields)
    /\ (forall other, other ≠ uuid ->
          test_sessions (start_test gen uuid now now' user_id st).2 !! other
          = test_sessions st !! other)
    /\ resume_data (start_test gen uuid now now' user_id st).2 = resume_data st
    /\ test_results (start_test gen uuid now now' user_id st).2 = test_results st
    /\ job_recommendations_data (start_test gen uuid now now' user_id st).2
       = job_recommendations_data st.
Proof.
  intros gen uuid now now' user_id st. unfold start_test.
  cbn [fst snd test_sessions resume_data test_results job_recommendations_data ts_id
       ts_duration_minutes].
  change thirty_minutes with 1800000000.
  split; [reflexivity|]. split; [apply lookup_insert_eq|].
  split.
  { intros Hclock. eexists. split; [apply lookup_insert_eq|].
    cbn [ts_start_time ts_expires_at]. lia. }
  split; [intros other Hne; apply lookup_insert_ne; congruence|].
  repeat split.
Qed.

Lemma start_test_opens_active_session_witness :
  (∃ fields,
     test_sessions (start_test fallback "s1" 0 7 "u1" empty_store).2 !! "s1"
     = Some (SessionDict fields)
     ∧ ts_start_time fields + 1800000000 <= ts_expires_at fields)
  /\ test_sessions (start_test fallback "s2" 10 12 "u1"
                      (start_test fallback "s1" 0 7 "u1" empty_store).2).2 !! "s1"
     = test_sessions (start_test fallback "s1" 0 7 "u1" empty_store).2 !! "s1".
Proof.
  split.
  - destruct (start_test_opens_active_session fallback "s1" 0 7 "u1" empty_store)
      as (_ & _ & H & _).
    apply H. lia.
  - destruct (start_test_opens_active_session fallback "s2" 10 12 "u1"
                (start_test fallback "s1" 0 7 "u1" empty_store).2)
      as (_ & _ & _ & H & _).
    apply H. discriminate.
Defined.

(** ** What no sequence of requests brings about *)

Section Reachable.
Variable pdf_pages : string -> string + list (option string).
Variable docx_paragraphs : string -> string + list string.
Variable decode : string -> string.

Lemma submit_test_dicts_only (st : store) (sub : TestSubmission) (now : Z) :
  dicts_only st ->
  (submit_test sub now st).2 = st
  ∧ ((submit_test sub now st).1 = HTTPException 404 "Test session not found"
     ∨ ∃ e, (submit_test sub now st).1 = Uncaught e).
Proof.
  intros [_ Hdict]. unfold submit_test.
  destruct (test_sessions st !! session_id sub) as [o|] eqn:Ho; [|auto].
  destruct (Hdict _ _ Ho) as (fields & -> & _). cbn. eauto.
Qed.

Lemma upload_resume_sessions (ct content uid uuid : string) (now : Z) (g : rng) (st : store) :
  test_sessions (upload_resume pdf_pages docx_paragraphs decode ct content uid uuid now g st).1.2
  = test_sessions st
  ∧ test_results (upload_resume pdf_pages docx_paragraphs decode ct content uid uuid now g st).1.2
    = test_results st.
Proof.
  unfold upload_resume.
  destruct (negb _); [auto|]. destruct (is_empty _); [auto|].
  destruct (_ <? _); [auto|].
  destruct (if String.eqb ct pdf_type then _ else _) as [detail|text]; [auto|].
  destruct (parse_work_experience text g). auto.
Qed.

Lemma serve_dicts_only (req : request) (st : store) (g : rng) :
  dicts_only st -> dicts_only (serve pdf_pages docx_paragraphs decode req (st, g)).2.1.
Proof.
  intros Hst. destruct req as [ct content uid uuid now|uid|uid|gen uuid now now' uid|sub now|role uid];
    cbn [serve].
  - pose proof (upload_resume_sessions ct content uid uuid now g st) as [Hs Hr].
    destruct (upload_resume _ _ _ _ _ _ _ _ _ _) as [[r st'] g']. cbn in *.
    destruct Hst as [Hres Hdict]. split; [congruence|]. rewrite Hs. exact Hdict.
  - unfold get_resume_analysis. destruct (resume_data st !! uid); exact Hst.
  - unfold get_job_recommendations. destruct (resume_data st !! uid); [|exact Hst].
    destruct Hst as [Hres Hdict]. split; [exact Hres | exact Hdict].
  - destruct Hst as [Hres Hdict]. split; [exact Hres|].
    intros sid o. cbn. destruct (decide (uuid = sid)) as [->|Hne].
    + rewrite lookup_insert_eq. intros [= <-]. eauto.
    + rewrite lookup_insert_ne by exact Hne. apply Hdict.
  - destruct (submit_test_dicts_only st sub now Hst) as [Hsame _].
    destruct (submit_test sub now st) as [r st']. cbn in *. rewrite Hsame. exact Hst.
  - exact Hst.
Qed.

Lemma run_dicts_only (reqs : list request) (w : store * rng) :
  dicts_only w.1 -> dicts_only (run pdf_pages docx_paragraphs decode reqs w).1.
Proof.
  revert w. induction reqs as [|req reqs IH]; intros [st g] Hw; [exact Hw|].
  unfold run. cbn [foldl]. apply IH. apply serve_dicts_only. exact Hw.
Qed.
End Reachable.

(** X17.  Whatever requests the server has answered since its start,
    whatever the two document readers and the decoder do: no test result
    is stored, every stored session is still active, and [submit_test]
    answers every submission with status 404 or 500, never with a result
    and never with status 400, and changes nothing. *)
Theorem submit_test_never_succeeds :
  forall (pdf_pages : string -> string + list (option string))
         (docx_paragraphs : string -> string + list string)
         (decode : string -> string)
         (reqs : list request) (g : rng) (sub : TestSubmission) (now : Z),
    let st := (run pdf_pages docx_paragraphs decode reqs (empty_store, g)).1 in
    test_results st = ∅
    /\ (forall sid o, test_sessions st !! sid = Some o ->
          ∃ fields, o = SessionDict fields ∧ ts_status fields = "active")
    /\ (submit_test sub now st).2 = st
    /\ (status_of (submit_test sub now st).1 = 404
        ∨ status_of (submit_test sub now st).1 = 500)
    /\ (forall result, (submit_test sub now st).1 ≠ Ok result).
Proof.
  intros pdf_pages docx_paragraphs decode reqs g sub now st.
  assert (Hst : dicts_only st).
  { apply (run_dicts_only pdf_pages docx_paragraphs decode reqs (empty_store, g)).
    split; [reflexivity|]. intros sid o H. cbn in H. rewrite lookup_empty in H.
    discriminate. }
  destruct (submit_test_dicts_only st sub now Hst) as [Hsame Hanswer].
  split; [apply Hst|]. split; [apply Hst|]. split; [exact Hsame|].
  destruct Hanswer as [H|[e H]]; rewrite H; cbn; split; auto; discriminate.
Qed.

Lemma submit_test_never_succeeds_witness :
  ∃ fields,
    test_sessions
      (run no_reader no_paragraphs ascii_text
         [StartTest fallback "s1" 0 1 "u1";
          SubmitTest {| session_id := "s1"; mcq_answers := ∅; coding_answers := ∅ |} 5]
         (empty_store, counting)).1 !! "s1"
    = Some (SessionDict fields)
    ∧ ts_status fields = "active".
Proof.
  destruct (submit_test_never_succeeds no_reader no_paragraphs ascii_text
              [StartTest fallback "s1" 0 1 "u1";
               SubmitTest {| session_id := "s1"; mcq_answers := ∅;
                             coding_answers := ∅ |} 5]
              counting
              {| session_id := "s1"; mcq_answers := ∅; coding_answers := ∅ |} 9)
    as (_ & Hdict & _).
  destruct (Hdict "s1" (SessionDict
              {| ts_id := "s1"; ts_user_id := "u1";
                 ts_mcq_questions := MCQ_FALLBACK;
                 ts_coding_questions := CODING_FALLBACK;
                 ts_duration_minutes := 30; ts_status := "active";
                 ts_start_time := 0; ts_expires_at := 1800000001 |}))
    as (fields & Heq & Hactive).
  - vm_compute. reflexivity.
  - exists fields. rewrite <- Heq. split; [vm_compute; reflexivity | exact Hactive].
Defined.

End Server.

(* ================================================================== *)
(** * Uploads and upgrade plans *)
(* ================================================================== *)

Module Uploads.
Import Text Num Parser Scoring Api Notions NumFacts StrengthScore TextFacts SortedFacts
  JobMatch.

Lemma score_range {A B C : Type} (S : list A) (E : list B) (W : list C) :
  (0 <= calculate_strength_score S E W <= 10)%Q.
Proof.
  rewrite score_quarters.
  pose proof (quarters_range (length S) (length E) (length W)).
  unfold Qle, Qdiv, Qmult, Qinv, inject_Z. simpl. lia.
Qed.

Section UploadFacts.
Variable pdf_pages : string -> string + list (option string).
Variable docx_paragraphs : string -> string + list string.
Variable decode : string -> string.

(** X18.  An upload of an unsupported type is refused before the content
    is looked at, an empty or oversized file of a supported type is refused
    too, and every refusal has status 400 and leaves the stores and the
    random state as they are; without a language model an upload never
    ends in any other failure. *)
Theorem upload_refusals :
  forall (ct content uid uuid : string) (now : Z) (g : rng) (st : store),
    (in_list ct supported_types = false ->
     upload_resume pdf_pages docx_paragraphs decode ct content uid uuid now g st
     = (HTTPException 400 "Only PDF, DOCX/DOC, and TXT files are supported", st, g))
    /\ (in_list ct supported_types = true ->
        content = "" ∨ 10 * 1024 * 1024 < Z.of_nat (String.length content) ->
        status_of (upload_resume pdf_pages docx_paragraphs decode ct content uid uuid now g st).1.1 = 400
        ∧ (upload_resume pdf_pages docx_paragraphs decode ct content uid uuid now g st).1.2 = st)
    /\ match (upload_resume pdf_pages docx_paragraphs decode ct content uid uuid now g st).1.1 with
       | Ok analysis => True
       | HTTPException code _ =>
           code = 400 ∧ (upload_resume pdf_pages docx_paragraphs decode ct content uid uuid now g st).1.2 = st
           ∧ (upload_resume pdf_pages docx_paragraphs decode ct content uid uuid now g st).2 = g
       | Uncaught _ => False
       end.
Proof.
  intros ct content uid uuid now g st. unfold upload_resume.
  split; [intros ->; reflexivity|]. split.
  - intros -> [->|Hbig]; [cbn; auto|]. cbn [negb].
    destruct (is_empty content); [cbn; auto|].
    rewrite (proj2 (Z.ltb_lt _ _) Hbig). cbn. auto.
  - destruct (negb _); [cbn; auto|]. destruct (is_empty _); [cbn; auto|].
    destruct (_ <? _); [cbn; auto|].
    destruct (if String.eqb ct pdf_type then _ else _) as [detail|text]; [cbn; auto|].
    destruct (parse_work_experience text g). cbn. exact I.
Qed.

(** X19.  An upload that is accepted stores the analysis it returns
    under the user, replacing what was stored for that user, and
    [get_resume_analysis] returns it; the analyses of other users and the
    other stores stay as they are.  The analysis carries the identifier,
    the user and the time of the upload, at most 4 education and 6
    experience entries, and the strength score of its own lists, between 0
    and 10. *)
Theorem upload_stores_what_it_returns :
  forall (ct content uid uuid : string) (now : Z) (g : rng) (st : store)
         (analysis : ResumeAnalysis),
    (upload_resume pdf_pages docx_paragraphs decode ct content uid uuid now g st).1.1 = Ok analysis ->
    let st' := (upload_resume pdf_pages docx_paragraphs decode ct content uid uuid now g st).1.2 in
    resume_data st' !! uid = Some analysis
    /\ get_resume_analysis uid st' = (Ok analysis, st')
    /\ (forall other, other ≠ uid -> resume_data st' !! other = resume_data st !! other)
    /\ test_sessions st' = test_sessions st
    /\ test_results st' = test_results st
    /\ job_recommendations_data st' = job_recommendations_data st
    /\ ra_id analysis = uuid /\ ra_user_id analysis = uid /\ ra_timestamp analysis = now
    /\ (length (ra_education analysis) <= 4)%nat
    /\ (length (ra_work_experience analysis) <= 6)%nat
    /\ ra_strength_score analysis
       = calculate_strength_score (ra_tech_stacks analysis) (ra_education analysis)
           (ra_work_experience analysis)
    /\ (0 <= ra_strength_score analysis <= 10)%Q.
Proof.
  intros ct content uid uuid now g st analysis. unfold upload_resume.
  destruct (negb _); [discriminate|]. destruct (is_empty _); [discriminate|].
  destruct (_ <? _); [discriminate|].
  destruct (if String.eqb ct pdf_type then _ else _) as [detail|text]; [discriminate|].
  destruct (parse_work_experience text g) as [work g'] eqn:Hwork.
  cbn [fst snd]. intros [= <-]. cbv zeta.
  cbn [resume_data test_sessions test_results job_recommendations_data put_resume
       ra_id ra_user_id ra_timestamp ra_education ra_work_experience ra_strength_score
       ra_tech_stacks].
  split; [apply lookup_insert_eq|].
  split.
  { unfold get_resume_analysis, put_resume. cbn [resume_data].
    rewrite lookup_insert_eq. reflexivity. }
  split; [intros other Hne; apply lookup_insert_ne; congruence|].
  repeat (split; [reflexivity|]).
  split; [unfold parse_education; rewrite length_take; lia|].
  split.
  { assert (Hw : work = (parse_work_experience text g).1) by (rewrite Hwork; reflexivity).
    rewrite Hw. unfold parse_work_experience.
    destruct (foldl work_step ([], g) (splitlines text)). cbn [fst].
    rewrite length_take. lia. }
  split; [reflexivity|]. apply score_range.
Qed.
End UploadFacts.

Lemma upload_refusals_witness :
  upload_resume no_reader no_paragraphs ascii_text "image/png" demo_resume "u1" "a1" 0
    counting empty_store
  = (HTTPException 400 "Only PDF, DOCX/DOC, and TXT files are supported",
     empty_store, counting)
  /\ status_of (upload_resume no_reader no_paragraphs ascii_text "text/plain" "" "u1" "a1" 0
                  counting empty_store).1.1 = 400.
Proof.
  split.
  - destruct (upload_refusals no_reader no_paragraphs ascii_text "image/png"
                demo_resume "u1" "a1" 0 counting empty_store) as [Htype _].
    apply Htype. vm_compute. reflexivity.
  - destruct (upload_refusals no_reader no_paragraphs ascii_text "text/plain"
                "" "u1" "a1" 0 counting empty_store) as (_ & Hempty & _).
    apply Hempty; [vm_compute; reflexivity | left; reflexivity].
Defined.

Lemma upload_stores_what_it_returns_witness :
  ∃ analysis,
    (upload_resume no_reader no_paragraphs ascii_text "text/plain" demo_resume "u1" "a1" 7
       counting empty_store).1.1 = Ok analysis
    ∧ ra_tech_stacks analysis = ["Docker"; "Git"; "Python"]
    ∧ (0 <= ra_strength_score analysis <= 10)%Q.
Proof.
  eexists. split; [vm_compute; reflexivity|]. split; [reflexivity|].
  eapply (upload_stores_what_it_returns no_reader no_paragraphs ascii_text
            "text/plain" demo_resume "u1" "a1" 7 counting empty_store).
  vm_compute. reflexivity.
Defined.

End Uploads.

(* ================================================================== *)
(** * Upgrade plans *)
(* ================================================================== *)

Module Upgrade.
Import Text Num Parser Scoring Api Notions TextFacts SortedFacts JobMatch.

Lemma elem_of_lower_set (L : list string) (x : string) :
  x ∈ lower_set L ↔ ∃ s, s ∈ L ∧ x = lower s.
Proof.
  unfold lower_set. rewrite elem_of_list_to_set, list_elem_of_fmap.
  split; intros (s & H1 & H2); exists s; auto.
Qed.

Lemma size_lower_set_le (L : list string) : (size (lower_set L) <= length L)%nat.
Proof.
  unfold lower_set. induction L as [|s L IH].
  - rewrite fmap_nil, list_to_set_nil, size_empty. reflexivity.
  - rewrite fmap_cons, list_to_set_cons, size_union_alt, size_singleton.
    assert (size (list_to_set (lower <$> L) ∖ ({[lower s]} : gset string))
            <= size (list_to_set (lower <$> L) : gset string))%nat
      by (apply subseteq_size; set_solver).
    cbn [length]. lia.
Qed.

Lemma roles_supported (role : string) :
  is_Some (ROLE_REQUIREMENTS !! role) ↔ role ∈ role_names.
Proof.
  rewrite <- elem_of_dom.
  assert (Hdom : dom ROLE_REQUIREMENTS = (list_to_set role_names : gset string)).
  { apply (bool_decide_unpack _). vm_compute. exact I. }
  rewrite Hdom, elem_of_list_to_set. reflexivity.
Qed.

Lemma roles_well_formed (role : string) (reqs : RoleRequirement) :
  ROLE_REQUIREMENTS !! role = Some reqs ->
  (length (rr_required_skills reqs) <= 5)%nat
  ∧ Forall (fun s => strip s = s) (rr_required_skills reqs).
Proof.
  assert (Hall : map_Forall
            (fun _ reqs => (length (rr_required_skills reqs) <= 5)%nat
                           ∧ Forall (fun s => strip s = s) (rr_required_skills reqs))
            ROLE_REQUIREMENTS).
  { apply (bool_decide_unpack _). vm_compute. exact I. }
  intros H. exact (Hall role reqs H).
Qed.

(** X20.  [upgrade_me] answers a user without a resume analysis with
    status 404, whatever the role, and a user with one with status 400
    when the role is none of the three supported ones; in every other case
    it answers with a plan. *)
Theorem upgrade_me_refusals :
  forall (st : store) (target_role user_id : string),
    (resume_data st !! user_id = None ->
     upgrade_me target_role user_id st = HTTPException 404 "Resume analysis not found")
    /\ (is_Some (resume_data st !! user_id) -> target_role ∉ role_names ->
        upgrade_me target_role user_id st = HTTPException 400 "Target role not supported")
    /\ (is_Some (resume_data st !! user_id) -> target_role ∈ role_names ->
        ∃ plan, upgrade_me target_role user_id st = Ok plan).
Proof.
  intros st target_role user_id. unfold upgrade_me.
  split; [intros ->; reflexivity|]. split.
  - intros [analysis ->] Hrole.
    destruct (ROLE_REQUIREMENTS !! target_role) as [reqs|] eqn:Hreqs; [|reflexivity].
    exfalso. apply Hrole, roles_supported. eauto.
  - intros [analysis ->] Hrole. apply roles_supported in Hrole as [reqs ->]. eauto.
Qed.

Lemma upgrade_me_refusals_witness :
  upgrade_me "Quantum Plumber" "nobody" demo_store
  = HTTPException 404 "Resume analysis not found"
  /\ upgrade_me "Quantum Plumber" "u1" demo_store
     = HTTPException 400 "Target role not supported".
Proof.
  split.
  - destruct (upgrade_me_refusals demo_store "Quantum Plumber" "nobody") as [Hnone _].
    apply Hnone. vm_compute. reflexivity.
  - destruct (upgrade_me_refusals demo_store "Quantum Plumber" "u1") as (_ & Hrole & _).
    apply Hrole.
    + vm_compute. eauto.
    + apply (bool_decide_unpack _). vm_compute. exact I.
Defined.

(** X21.  The plan for a user with an analysis and a supported role: the
    missing skills are the lower-cased required skills of the role that
    are not among the lower-cased skills of the user, sorted and without
    repetition; there is one resource for each missing skill, in the same
    order, a project for each of the first 4, and 4 weeks for each missing
    skill, but 4 weeks at least and 20 at most.  Nothing is missing exactly
    when the user has every required skill up to the case of letters. *)
Theorem upgrade_plan_shape :
  forall (st : store) (target_role user_id : string) (analysis : ResumeAnalysis)
         (reqs : RoleRequirement),
    resume_data st !! user_id = Some analysis ->
    ROLE_REQUIREMENTS !! target_role = Some reqs ->
    ∃ plan,
      upgrade_me target_role user_id st = Ok plan
      ∧ up_target_role plan = target_role
      ∧ StronglySorted String.le (up_missing_skills plan)
      ∧ NoDup (up_missing_skills plan)
      ∧ (forall x, x ∈ up_missing_skills plan
           ↔ (∃ s, s ∈ rr_required_skills reqs ∧ x = lower s)
             ∧ ¬ (∃ u, u ∈ ra_tech_stacks analysis ∧ x = lower u))
      ∧ rs_skill <$> up_recommended_resources plan = up_missing_skills plan
      ∧ length (up_suggested_projects plan)
        = Nat.min 4 (length (up_missing_skills plan))
      ∧ up_estimated_time_weeks plan
        = Z.max 4 (4 * Z.of_nat (length (up_missing_skills plan)))
      ∧ 4 <= up_estimated_time_weeks plan <= 20
      ∧ (up_missing_skills plan = []
         ↔ forall s, s ∈ rr_required_skills reqs ->
             lower s ∈ lower <$> ra_tech_stacks analysis).
Proof.
  intros st target_role user_id analysis reqs Hresume Hrole.
  unfold upgrade_me. rewrite Hresume, Hrole. eexists. split; [reflexivity|].
  cbn [up_target_role up_missing_skills up_recommended_resources up_suggested_projects
       up_estimated_time_weeks].
  set (user := lower_set (ra_tech_stacks analysis)).
  set (required := lower_set (rr_required_skills reqs)).
  assert (Hmem : forall x, x ∈ py_sorted (required ∖ user)
                   ↔ (∃ s, s ∈ rr_required_skills reqs ∧ x = lower s)
                     ∧ ¬ (∃ u, u ∈ ra_tech_stacks analysis ∧ x = lower u)).
  { intros x. rewrite elem_of_py_sorted, elem_of_difference.
    unfold required, user. rewrite !elem_of_lower_set. reflexivity. }
  assert (Hlen : (length (py_sorted (required ∖ user)) <= 5)%nat).
  { rewrite length_py_sorted.
    destruct (roles_well_formed _ _ Hrole) as [Hfive _].
    pose proof (size_lower_set_le (rr_required_skills reqs)).
    assert (size (required ∖ user) <= size required)%nat
      by (apply subseteq_size; set_solver).
    unfold required in *. lia. }
  split; [reflexivity|]. split; [apply py_sorted_sorted|].
  split; [apply NoDup_py_sorted|]. split; [exact Hmem|].
  split.
  { rewrite <- list_fmap_compose. apply list_fmap_id. }
  split; [rewrite length_fmap, length_take; reflexivity|].
  split; [f_equal; lia|]. split; [lia|].
  split.
  - intros Hnil s Hs. apply list_elem_of_fmap.
    destruct (decide (lower s ∈ user)) as [Hin|Hout].
    + apply elem_of_lower_set in Hin as (u & Hu & Heq). eauto.
    + exfalso. assert (Hx : lower s ∈ py_sorted (required ∖ user)).
      { apply Hmem. split; [eauto|]. intros (u & Hu & Heq). apply Hout.
        apply elem_of_lower_set. eauto. }
      rewrite Hnil in Hx. inversion Hx.
  - intros Hall. destruct (py_sorted (required ∖ user)) as [|x l] eqn:Hl; [reflexivity|].
    exfalso. assert (Hx : x ∈ x :: l) by left.
    apply Hmem in Hx as [(s & Hs & ->) Hnot]. apply Hnot.
    pose proof (Hall s Hs) as Hin.
    apply list_elem_of_fmap in Hin as (u & Heq & Hu). eauto.
Qed.

Lemma upgrade_plan_shape_witness :
  ∃ plan, upgrade_me "Quantum Software Engineer" "u1" demo_store = Ok plan
          ∧ up_missing_skills plan = ["git"; "linear algebra"; "qiskit"]
          ∧ up_estimated_time_weeks plan = 12.
Proof.
  destruct (upgrade_plan_shape demo_store "Quantum Software Engineer" "u1" demo_analysis
              {| rr_required_skills :=
                   ["Python"; "Qiskit"; "Linear Algebra"; "Quantum Computing"; "Git"];
                 rr_preferred_skills := ["C++"; "Machine Learning"; "Cloud Computing"];
                 rr_min_experience := 2;
                 rr_education :=
                   "Bachelor's in Computer Science, Physics, or related field" |})
    as (plan & Hplan & _).
  - vm_compute. reflexivity.
  - vm_compute. reflexivity.
  - exists plan. split; [exact Hplan|].
    assert (Hval : Ok plan = upgrade_me "Quantum Software Engineer" "u1" demo_store)
      by (symmetry; exact Hplan).
    vm_compute in Hval. injection Hval as ->. split; reflexivity.
Defined.

(** X22.  The upgrade plan and the job match agree up to white space:
    for a supported role, every skill that [calculate_job_match] reports as
    missing against the required skills of the role is missing in the plan
    too; and when no skill of the user has white space around it, the two
    lists are the same. *)
Theorem upgrade_plan_covers_job_match :
  forall (st : store) (target_role user_id : string) (analysis : ResumeAnalysis)
         (reqs : RoleRequirement) (plan : UpgradePlan),
    resume_data st !! user_id = Some analysis ->
    ROLE_REQUIREMENTS !! target_role = Some reqs ->
    upgrade_me target_role user_id st = Ok plan ->
    (forall x, x ∈ missing (ra_tech_stacks analysis) (rr_required_skills reqs) ->
       x ∈ up_missing_skills plan)
    /\ ((forall s, s ∈ ra_tech_stacks analysis -> strip s = s) ->
        up_missing_skills plan
        = missing (ra_tech_stacks analysis) (rr_required_skills reqs)).
Proof.
  intros st target_role user_id analysis reqs plan Hresume Hrole.
  unfold upgrade_me. rewrite Hresume, Hrole. intros [= <-].
  cbn [up_missing_skills]. unfold missing, calculate_job_match. cbn [snd].
  destruct (roles_well_formed _ _ Hrole) as [_ Htrim].
  assert (Hreq : skill_set (rr_required_skills reqs) = lower_set (rr_required_skills reqs)).
  { unfold skill_set, lower_set. f_equal.
    induction Htrim as [|s l Hs _ IH]; [reflexivity|].
    rewrite !fmap_cons, IH. unfold norm_skill. rewrite Hs. reflexivity. }
  split.
  - intros x. rewrite !elem_of_py_sorted, !elem_of_difference, Hreq.
    intros [Hx Hnot]. split; [exact Hx|]. intros Hin. apply Hnot.
    apply elem_of_lower_set in Hin as (u & Hu & ->).
    apply elem_of_lower_set in Hx as (s & Hs & Heq).
    apply elem_of_skill_set. exists u. split; [exact Hu|].
    unfold norm_skill. rewrite <- strip_lower, Heq, strip_lower.
    rewrite (proj1 (Forall_forall _ _) Htrim s Hs). reflexivity.
  - intros Huser.
    assert (Hu : skill_set (ra_tech_stacks analysis) = lower_set (ra_tech_stacks analysis)).
    { unfold skill_set, lower_set. f_equal.
      induction (ra_tech_stacks analysis) as [|s l IH]; [reflexivity|].
      rewrite !fmap_cons. unfold norm_skill at 1. rewrite (Huser s) by left.
      rewrite IH; [reflexivity|]. intros s' Hs'. apply Huser. right. exact Hs'. }
    rewrite Hreq, Hu. reflexivity.
Qed.

Lemma upgrade_plan_covers_job_match_witness :
  ∃ plan, upgrade_me "Quantum Software Engineer" "u1" demo_store = Ok plan
          ∧ up_missing_skills plan
            = missing (ra_tech_stacks demo_analysis)
                ["Python"; "Qiskit"; "Linear Algebra"; "Quantum Computing"; "Git"].
Proof.
  eexists. split; [vm_compute; reflexivity|].
  eapply (upgrade_plan_covers_job_match demo_store "Quantum Software Engineer" "u1"
            demo_analysis
            {| rr_required_skills :=
                 ["Python"; "Qiskit"; "Linear Algebra"; "Quantum Computing"; "Git"];
               rr_preferred_skills := ["C++"; "Machine Learning"; "Cloud Computing"];
               rr_min_experience := 2;
               rr_education :=
                 "Bachelor's in Computer Science, Physics, or related field" |}).
  - vm_compute. reflexivity.
  - vm_compute. reflexivity.
  - vm_compute. reflexivity.
  - apply Forall_forall. apply (bool_decide_unpack _). vm_compute. exact I.
Defined.

End Upgrade.
